(** * go-solar-system: the orbital visualization engine

    A shallow embedding of the rendering core of
    [github.com/furan917/go-solar-system] (packages [visualization],
    [orbital] and [models]) together with the properties of its
    specification.

    Conventions of the embedding.

    - Go's [int] is a 64-bit two's complement integer: a [Z] kept in
      range by [wrap64] after every arithmetic operation.
    - Go's [float64] is the type [float64] below: a real number, or one of
      the IEEE special values NaN, +Inf, -Inf.  Finite arithmetic is exact
      (rounding, overflow to infinity and the sign of zero are not part of
      the model); the special values follow IEEE 754 and the documentation
      of Go's [math] package, so that a division by zero or a logarithm of
      zero is visible in the result.
    - A [rune] is its code point, a [string] is a sequence of bytes.
    - A run-time panic (index out of range) is the result [None].
    - The wall clock is an explicit argument [now]. *)

From Stdlib Require Import ZArith List Bool String Ascii Reals Lra Lia.
Import ListNotations.

Local Open Scope string_scope.

(* ================================================================= *)
(** * Part I: the embedding                                           *)
(* ================================================================= *)

(** ** Machine integers *)

Module Int.

Open Scope Z_scope.

Definition min_int : Z := - 2 ^ 63.
Definition max_int : Z := 2 ^ 63 - 1.

(** Two's complement reduction to 64 bits. *)
Definition wrap64 (z : Z) : Z := (z + 2 ^ 63) mod 2 ^ 64 - 2 ^ 63.

Definition add (a b : Z) : Z := wrap64 (a + b).
Definition sub (a b : Z) : Z := wrap64 (a - b).
Definition mul (a b : Z) : Z := wrap64 (a * b).
Definition neg (a : Z) : Z := wrap64 (- a).
(** Go's [/] and [%] truncate toward zero; the divisors of this program
    are positive constants, so the quotient never leaves the range. *)
Definition quot (a b : Z) : Z := wrap64 (Z.quot a b).
Definition rem (a b : Z) : Z := Z.rem a b.

Definition in_range (z : Z) : bool := (min_int <=? z) && (z <=? max_int).

(** The integers [lo, lo+1, ..., hi] (none when [hi < lo]): the values a
    counter takes in [for i := lo; i <= hi; i++] when [hi < max_int]. *)
Definition range (lo hi : Z) : list Z :=
  map (fun k => lo + Z.of_nat k) (seq 0 (Z.to_nat (hi - lo + 1))).

End Int.

(** ** Floating-point numbers *)

Module F64.

Open Scope R_scope.

Inductive float64 : Type :=
| NaN
| Inf (neg : bool)
| Fin (r : R).

Definition Rltb (x y : R) : bool := if Rlt_dec x y then true else false.
Definition Rleb (x y : R) : bool := if Rle_dec x y then true else false.
Definition Reqb (x y : R) : bool := if Req_dec_T x y then true else false.

Definition is_finite (x : float64) : bool :=
  match x with Fin _ => true | _ => false end.

Definition is_nan (x : float64) : bool :=
  match x with NaN => true | _ => false end.

(** *** Comparisons: every comparison with NaN is false. *)

Definition lt (x y : float64) : bool :=
  match x, y with
  | NaN, _ | _, NaN => false
  | Inf sx, Inf sy => sx && negb sy
  | Inf sx, Fin _ => sx
  | Fin _, Inf sy => negb sy
  | Fin a, Fin b => Rltb a b
  end.

Definition eq (x y : float64) : bool :=
  match x, y with
  | NaN, _ | _, NaN => false
  | Inf sx, Inf sy => Bool.eqb sx sy
  | Fin a, Fin b => Reqb a b
  | _, _ => false
  end.

Definition le (x y : float64) : bool := lt x y || eq x y.
Definition gt (x y : float64) : bool := lt y x.
Definition ge (x y : float64) : bool := le y x.

(** *** Arithmetic *)

Definition opp (x : float64) : float64 :=
  match x with
  | NaN => NaN
  | Inf s => Inf (negb s)
  | Fin a => Fin (- a)
  end.

Definition add (x y : float64) : float64 :=
  match x, y with
  | NaN, _ | _, NaN => NaN
  | Inf sx, Inf sy => if Bool.eqb sx sy then Inf sx else NaN
  | Inf sx, Fin _ => Inf sx
  | Fin _, Inf sy => Inf sy
  | Fin a, Fin b => Fin (a + b)
  end.

Definition sub (x y : float64) : float64 := add x (opp y).

Definition mul (x y : float64) : float64 :=
  match x, y with
  | NaN, _ | _, NaN => NaN
  | Inf sx, Inf sy => Inf (xorb sx sy)
  | Inf sx, Fin b => if Reqb b 0 then NaN else Inf (xorb sx (Rltb b 0))
  | Fin a, Inf sy => if Reqb a 0 then NaN else Inf (xorb (Rltb a 0) sy)
  | Fin a, Fin b => Fin (a * b)
  end.

(** A zero divisor is taken as +0: the quotient of a non-zero number by
    zero is the infinity of the dividend's sign, and 0/0 is NaN. *)
Definition div (x y : float64) : float64 :=
  match x, y with
  | NaN, _ | _, NaN => NaN
  | Inf _, Inf _ => NaN
  | Inf sx, Fin b => Inf (xorb sx (Rltb b 0))
  | Fin _, Inf _ => Fin 0
  | Fin a, Fin b =>
      if Reqb b 0
      then (if Reqb a 0 then NaN else Inf (Rltb a 0))
      else Fin (a / b)
  end.

(** *** Conversions *)

Definition of_int (z : Z) : float64 := Fin (IZR z).

(** Truncation toward zero. *)
Definition Rtrunc (r : R) : Z :=
  if Rle_dec 0 r then Int_part r else (- Int_part (- r))%Z.

(** The result of converting an unrepresentable value to [int] is
    implementation-dependent in Go; this is the amd64 result. *)
Definition int_indefinite : Z := Int.min_int.

Definition to_int (x : float64) : Z :=
  match x with
  | Fin r => let t := Rtrunc r in
             if Int.in_range t then t else int_indefinite
  | _ => int_indefinite
  end.

(** *** Package [math] *)

Definition Pi : float64 := Fin PI.

(** [math.Log]: Log(+Inf) = +Inf, Log(0) = -Inf, Log(x < 0) = NaN,
    Log(NaN) = NaN. *)
Definition Log (x : float64) : float64 :=
  match x with
  | NaN => NaN
  | Inf s => if s then NaN else Inf false
  | Fin r => if Rltb r 0 then NaN
             else if Reqb r 0 then Inf true
             else Fin (ln r)
  end.

(** [math.Log10(x)] is [math.log2(x) * (Ln2/Ln10)]. *)
Definition Log10 (x : float64) : float64 :=
  match Log x with
  | Fin l => Fin (l / ln 10)
  | y => y
  end.

(** [math.Sqrt]: Sqrt(+Inf) = +Inf, Sqrt(x < 0) = NaN, Sqrt(NaN) = NaN. *)
Definition Sqrt (x : float64) : float64 :=
  match x with
  | NaN => NaN
  | Inf s => if s then NaN else Inf false
  | Fin r => if Rltb r 0 then NaN else Fin (sqrt r)
  end.

(** [math.Sin], [math.Cos]: NaN at NaN and at the infinities. *)
Definition Sin (x : float64) : float64 :=
  match x with Fin r => Fin (sin r) | _ => NaN end.

Definition Cos (x : float64) : float64 :=
  match x with Fin r => Fin (cos r) | _ => NaN end.

(** [math.Min]: Min(x, -Inf) = Min(-Inf, x) = -Inf, Min(x, NaN) =
    Min(NaN, x) = NaN. *)
Definition Min (x y : float64) : float64 :=
  match x, y with
  | Inf true, _ | _, Inf true => Inf true
  | NaN, _ | _, NaN => NaN
  | _, _ => if lt x y then x else y
  end.

(** [math.Max]: Max(x, +Inf) = Max(+Inf, x) = +Inf, Max(x, NaN) =
    Max(NaN, x) = NaN. *)
Definition Max (x y : float64) : float64 :=
  match x, y with
  | Inf false, _ | _, Inf false => Inf false
  | NaN, _ | _, NaN => NaN
  | _, _ => if lt y x then x else y
  end.

(** [math.Mod(x, y)]: the floating-point remainder of x/y, of magnitude
    less than y and of the sign of x.  Mod(+/-Inf, y) = NaN,
    Mod(NaN, y) = NaN, Mod(x, 0) = NaN, Mod(x, +/-Inf) = x,
    Mod(x, NaN) = NaN. *)
Definition Mod (x y : float64) : float64 :=
  match x, y with
  | NaN, _ | _, NaN => NaN
  | Inf _, _ => NaN
  | Fin a, Inf _ => Fin a
  | Fin a, Fin b =>
      if Reqb b 0 then NaN
      else Fin (a - b * IZR (Rtrunc (a / b)))
  end.

Definition is_integer (y : R) : bool := Reqb (IZR (Int_part y)) y.
Definition is_odd_integer (y : R) : bool :=
  is_integer y && Z.odd (Int_part y).

(** [math.Pow(x, y)] with the special cases of its documentation, in
    their order. *)
Definition Pow (x y : float64) : float64 :=
  match x, y with
  | _, Fin b =>
      if Reqb b 0 then Fin 1                          (* Pow(x, +/-0) = 1 *)
      else match x with
      | NaN => NaN
      | Fin a =>
          if Reqb a 1 then Fin 1                      (* Pow(1, y) = 1 *)
          else if Reqb b 1 then Fin a                 (* Pow(x, 1) = x *)
          else if Reqb a 0 then
            (if Rltb b 0 then Inf false else Fin 0)   (* Pow(+/-0, y) *)
          else if Rltb 0 a then Fin (Rpower a b)
          else if is_integer b then
            Fin ((if Z.odd (Int_part b) then -1 else 1) * Rpower (- a) b)
          else NaN              (* finite x < 0 and non-integer y *)
      | Inf false => if Rltb 0 b then Inf false else Fin 0
      | Inf true =>                                   (* Pow(-0, -y) *)
          if Rltb 0 b then Inf (is_odd_integer b) else Fin 0
      end
  | _, NaN => match x with Fin a => if Reqb a 1 then Fin 1 else NaN
                      | _ => NaN end
  | NaN, Inf _ => NaN
  | Inf _, Inf sy => if sy then Fin 0 else Inf false
  | Fin a, Inf sy =>
      if Reqb a 1 then Fin 1
      else if Reqb a (-1) then Fin 1                  (* Pow(-1, +/-Inf) *)
      else if Reqb a 0 then (if sy then Inf false else Fin 0)
      else if Rltb 1 (Rabs a)
           then (if sy then Fin 0 else Inf false)
           else (if sy then Inf false else Fin 0)
  end.

End F64.

Export F64(float64, NaN, Inf, Fin).

Declare Scope f64_scope.
Delimit Scope f64_scope with f64.
Bind Scope f64_scope with float64.
Infix "+" := F64.add : f64_scope.
Infix "-" := F64.sub : f64_scope.
Infix "*" := F64.mul : f64_scope.
Infix "/" := F64.div : f64_scope.
Infix "<?" := F64.lt : f64_scope.
Infix "<=?" := F64.le : f64_scope.
Infix ">?" := F64.gt : f64_scope.
Infix ">=?" := F64.ge : f64_scope.
Infix "=?" := F64.eq : f64_scope.

(** ** Package [time] *)

Module Time.

Open Scope Z_scope.

(** A [time.Time] is its number of nanoseconds since the Unix epoch; a
    [time.Duration] is an [int64] count of nanoseconds. *)
Definition Time : Type := Z.
Definition Duration : Type := Z.

Definition Second : Duration := 1000000000.
Definition Hour : Duration := 3600 * Second.

(** [t.Sub(u)] saturates at the largest and smallest [Duration]. *)
Definition Sub (t u : Time) : Duration :=
  Z.max Int.min_int (Z.min Int.max_int (t - u)).

(** [d.Hours()] and [d.Seconds()], as the library computes them. *)
Definition Hours (d : Duration) : float64 :=
  (F64.of_int (Z.quot d Hour) + F64.of_int (Z.rem d Hour) / Fin (60 * 60 * 1e9))%f64.

Definition Seconds (d : Duration) : float64 :=
  (F64.of_int (Z.quot d Second) + F64.of_int (Z.rem d Second) / Fin 1e9)%f64.

(** [time.Date(2000, 1, 1, 12, 0, 0, 0, time.UTC)]. *)
Definition j2000 : Time := 946728000 * Second.

End Time.

(** ** Package [models] *)

Record Mass : Type := {
  MassValue : float64;
  MassExponent : Z
}.

Record OrbitalElement : Type := {
  MeanAnomaly : float64;
  Epoch : Time.Time
}.

(** The fields of [models.CelestialBody] that the rendering core reads. *)
Record CelestialBody : Type := {
  EnglishName : string;
  IsPlanet : bool;
  SemimajorAxis : float64;
  Eccentricity : float64;
  BodyMass : Mass;
  MeanRadius : float64;
  SideralOrbit : float64;
  BodyType : string;
  Temperature : float64;
  StellarClass : string;
  OrbitalElements : option OrbitalElement
}.

(** ** [visualization.DistanceScaler] *)

Record DistanceScaler : Type := {
  ds_width : Z;
  ds_height : Z
}.

Definition NewDistanceScaler (width height : Z) : DistanceScaler :=
  {| ds_width := width; ds_height := height |}.

(** The loop of [findDistanceRange]; its state is
    [(minDistance, maxDistance, first)]. *)
Fixpoint findDistanceRange_loop (planets : list CelestialBody)
    (minDistance maxDistance : float64) (first : bool)
    : float64 * float64 * bool :=
  match planets with
  | [] => (minDistance, maxDistance, first)
  | planet :: rest =>
      if (EnglishName planet =? "Sun")%string
         || (SemimajorAxis planet <=? Fin 0)%f64
      then findDistanceRange_loop rest minDistance maxDistance first
      else if first
      then findDistanceRange_loop rest (SemimajorAxis planet)
             (SemimajorAxis planet) false
      else
        let minDistance' :=
          if (SemimajorAxis planet <? minDistance)%f64
          then SemimajorAxis planet else minDistance in
        let maxDistance' :=
          if (SemimajorAxis planet >? maxDistance)%f64
          then SemimajorAxis planet else maxDistance in
        findDistanceRange_loop rest minDistance' maxDistance' false
  end.

Definition findDistanceRange (planets : list CelestialBody)
    : float64 * float64 :=
  match planets with
  | [] => (Fin 1, Fin 100)
  | _ =>
      let '(minDistance, maxDistance, first) :=
        findDistanceRange_loop planets (Fin 0) (Fin 0) true in
      if first then (Fin 1, Fin 100) else (minDistance, maxDistance)
  end.

Definition minRadius : float64 := Fin 8.

Definition maxRadius (ds : DistanceScaler) : float64 :=
  (F64.Min (F64.of_int (Int.sub (Int.quot (ds_width ds) 2) 3))
           (F64.of_int (Int.sub (Int.quot (ds_height ds) 2) 3))
   * Fin 0.95)%f64.

(** The value of [maxRadius], which is always a number. *)
Definition maxRadiusR (ds : DistanceScaler) : R :=
  (Rmin (IZR (Int.sub (Int.quot (ds_width ds) 2) 3))
        (IZR (Int.sub (Int.quot (ds_height ds) 2) 3)) * 0.95)%R.

Definition ScaleDistance (ds : DistanceScaler) (distance : float64)
    (planets : list CelestialBody) : float64 :=
  if (distance <=? Fin 0)%f64 then Fin 0
  else
    let '(minDistance, maxDistance) := findDistanceRange planets in
    let logMin := F64.Log minDistance in
    let logMax := F64.Log maxDistance in
    let logCurrent := F64.Log distance in
    let normalized := ((logCurrent - logMin) / (logMax - logMin))%f64 in
    (minRadius + normalized * (maxRadius ds - minRadius))%f64.

(** ** Package [orbital] *)

Module Orbital.

Inductive SystemType : Type :=
| SystemTypeSolar
| SystemTypeGeneric
| SystemTypeExact.

Record SolarSystemCalculator : Type := { sc_epochTime : Time.Time }.
Record GenericCalculator : Type := { gc_epochTime : Time.Time }.
Record ExactCalculator : Type := { }.

Definition NewSolarSystemCalculator (epochTime : Time.Time) :=
  {| sc_epochTime := epochTime |}.
Definition NewGenericCalculator (epochTime : Time.Time) :=
  {| gc_epochTime := epochTime |}.
Definition NewExactCalculator : ExactCalculator := Build_ExactCalculator.

(** A Go map literal: the pairs of the literal, looked up by key. *)
Fixpoint lookup {V : Type} (m : list (string * V)) (key : string)
    : option V :=
  match m with
  | [] => None
  | (k, v) :: rest => if (k =? key)%string then Some v else lookup rest key
  end.

(** Mean anomalies at the J2000.0 epoch, in radians. *)
Definition j2000MeanAnomalies : list (string * float64) :=
  [ ("Mercury", Fin (174.7948 * PI / 180.0)%R);
    ("Venus",   Fin (50.4161 * PI / 180.0)%R);
    ("Earth",   Fin (357.5291 * PI / 180.0)%R);
    ("Mars",    Fin (19.3730 * PI / 180.0)%R);
    ("Jupiter", Fin (20.0202 * PI / 180.0)%R);
    ("Saturn",  Fin (317.0207 * PI / 180.0)%R);
    ("Uranus",  Fin (141.0498 * PI / 180.0)%R);
    ("Neptune", Fin (256.2250 * PI / 180.0)%R);
    ("Pluto",   Fin (14.8820 * PI / 180.0)%R) ].

(** The constant [2 * math.Pi]. *)
Definition TwoPi : float64 := Fin (2 * PI)%R.

Definition GenericCalculator_CalculateMeanAnomaly (gc : GenericCalculator)
    (body : CelestialBody) (currentTime : Time.Time) : float64 :=
  let seed := (SemimajorAxis body + SideralOrbit body + MeanRadius body)%f64 in
  let initialAngle := F64.Mod (seed * Fin 0.01745329)%f64 TwoPi in
  let daysSinceEpoch :=
    (Time.Hours (Time.Sub currentTime (gc_epochTime gc)) / Fin 24.0)%f64 in
  if (SideralOrbit body <=? Fin 0)%f64 then initialAngle
  else
    let meanMotionPerDay := (TwoPi / SideralOrbit body)%f64 in
    let currentMeanAnomaly :=
      (initialAngle + meanMotionPerDay * daysSinceEpoch)%f64 in
    F64.Mod currentMeanAnomaly TwoPi.

Definition SolarSystemCalculator_CalculateMeanAnomaly
    (sc : SolarSystemCalculator) (body : CelestialBody)
    (currentTime : Time.Time) : float64 :=
  match lookup j2000MeanAnomalies (EnglishName body) with
  | None =>
      let generic := NewGenericCalculator (sc_epochTime sc) in
      GenericCalculator_CalculateMeanAnomaly generic body currentTime
  | Some j2000MeanAnomaly =>
      let daysSinceJ2000 :=
        (Time.Hours (Time.Sub currentTime Time.j2000) / Fin 24.0)%f64 in
      if (SideralOrbit body <=? Fin 0)%f64 then j2000MeanAnomaly
      else
        let meanMotionPerDay := (TwoPi / SideralOrbit body)%f64 in
        let currentMeanAnomaly :=
          (j2000MeanAnomaly + meanMotionPerDay * daysSinceJ2000)%f64 in
        F64.Mod currentMeanAnomaly TwoPi
  end.

Definition ExactCalculator_CalculateMeanAnomaly (ec : ExactCalculator)
    (body : CelestialBody) (currentTime : Time.Time) : float64 :=
  match OrbitalElements body with
  | None => Fin 0
  | Some elements =>
      let epochTime := Epoch elements in
      let daysSinceEpoch :=
        (Time.Hours (Time.Sub currentTime epochTime) / Fin 24.0)%f64 in
      if (SideralOrbit body <=? Fin 0)%f64
      then F64.Mod (MeanAnomaly elements * F64.Pi / Fin 180.0)%f64 TwoPi
      else
        let meanMotionPerDay := (TwoPi / SideralOrbit body)%f64 in
        let epochMeanAnomaly :=
          (MeanAnomaly elements * F64.Pi / Fin 180.0)%f64 in
        let currentMeanAnomaly :=
          (epochMeanAnomaly + meanMotionPerDay * daysSinceEpoch)%f64 in
        F64.Mod currentMeanAnomaly TwoPi
  end.

(** The interface [Calculator] and its three implementations. *)
Class Calculator (C : Type) : Type := {
  CalculateMeanAnomaly : C -> CelestialBody -> Time.Time -> float64;
  GetSystemType : C -> SystemType
}.

#[export] Instance SolarSystemCalculator_Calculator
    : Calculator SolarSystemCalculator := {
  CalculateMeanAnomaly := SolarSystemCalculator_CalculateMeanAnomaly;
  GetSystemType := fun _ => SystemTypeSolar
}.

#[export] Instance GenericCalculator_Calculator
    : Calculator GenericCalculator := {
  CalculateMeanAnomaly := GenericCalculator_CalculateMeanAnomaly;
  GetSystemType := fun _ => SystemTypeGeneric
}.

#[export] Instance ExactCalculator_Calculator
    : Calculator ExactCalculator := {
  CalculateMeanAnomaly := ExactCalculator_CalculateMeanAnomaly;
  GetSystemType := fun _ => SystemTypeExact
}.

(** A value of interface type: an implementation with its method table. *)
Inductive AnyCalculator : Type :=
| AsCalculator (C : Type) (methods : Calculator C) (c : C).

Definition knownSolarSystemBodies : list (string * bool) :=
  [ ("Mercury", true); ("Venus", true); ("Earth", true); ("Mars", true);
    ("Jupiter", true); ("Saturn", true); ("Uranus", true);
    ("Neptune", true); ("Pluto", true) ].

(** Indexing a [map[string]bool] gives [false] at an absent key. *)
Definition isSolarSystemBody (body : CelestialBody) : bool :=
  match lookup knownSolarSystemBodies (EnglishName body) with
  | Some b => b
  | None => false
  end.

Definition CreateCalculator (body : CelestialBody) (epochTime : Time.Time)
    : AnyCalculator :=
  if isSolarSystemBody body
  then AsCalculator _ _ (NewSolarSystemCalculator epochTime)
  else match OrbitalElements body with
       | Some _ => AsCalculator _ _ NewExactCalculator
       | None => AsCalculator _ _ (NewGenericCalculator epochTime)
       end.

(** The method call [calc.CalculateMeanAnomaly(body, currentTime)]. *)
Definition call_CalculateMeanAnomaly (calc : AnyCalculator)
    (body : CelestialBody) (currentTime : Time.Time) : float64 :=
  match calc with
  | AsCalculator _ methods c => CalculateMeanAnomaly c body currentTime
  end.

End Orbital.

(** ** Slices, grids and panics *)

(** A computation that may panic. *)
Notation "x <- e ;; k" :=
  (match e with Some x => k | None => None end)
  (at level 61, e at next level, right associativity, only parsing).

(** [for _, a := range l { s = body a s }], stopping at a panic. *)
Fixpoint forEach {A S : Type} (l : list A) (body : A -> S -> option S)
    (s : S) : option S :=
  match l with
  | [] => Some s
  | a :: rest => s' <- body a s ;; forEach rest body s'
  end.

Definition len {A : Type} (l : list A) : Z := Z.of_nat (List.length l).

(** [l[i]]: a panic when [i] is out of range. *)
Definition index {A : Type} (l : list A) (i : Z) : option A :=
  if (i <? 0)%Z then None else nth_error l (Z.to_nat i).

Fixpoint update {A : Type} (l : list A) (n : nat) (v : A)
    : option (list A) :=
  match l, n with
  | [], _ => None
  | _ :: rest, O => Some (v :: rest)
  | a :: rest, S n' => rest' <- update rest n' v ;; Some (a :: rest')
  end.

(** [l[i] = v]: a panic when [i] is out of range. *)
Definition store {A : Type} (l : list A) (i : Z) (v : A)
    : option (list A) :=
  if (i <? 0)%Z then None else update l (Z.to_nat i) v.

Definition rune : Type := Z.

(** The rune [' ']. *)
Definition blank : rune := 32%Z.

(** A [[][]rune]: the rows of the grid, top row first. *)
Definition Grid : Type := list (list rune).

(** [grid[y][x]] *)
Definition Grid_get (grid : Grid) (y x : Z) : option rune :=
  row <- index grid y ;; index row x.

(** [grid[y][x] = symbol] *)
Definition Grid_set (grid : Grid) (y x : Z) (symbol : rune) : option Grid :=
  row <- index grid y ;;
  row' <- store row x symbol ;;
  store grid y row'.

(** [len(grid[0])] *)
Definition Grid_width (grid : Grid) : option Z :=
  row <- index grid 0%Z ;; Some (len row).

(** ** [visualization.CircleDrawer] *)

Record CircleDrawer : Type := { aspectRatio : float64 }.

Definition NewCircleDrawer (aspectRatio : float64) : CircleDrawer :=
  {| aspectRatio := aspectRatio |}.

(** [constants.AspectRatio] *)
Definition AspectRatio : float64 := Fin 2.0.

Definition isInBounds (x y width height : Z) : bool :=
  ((x >=? 0) && (x <? width) && (y >=? 0) && (y <? height))%Z.

(** The statement
    [if cd.isInBounds(x, y, len(grid[0]), len(grid)) && grid[y][x] == ' '
       { grid[y][x] = symbol }] of [DrawCircle] and [renderDebrisBelt]. *)
Definition plotIfBlank (grid : Grid) (x y : Z) (symbol : rune)
    : option Grid :=
  width <- Grid_width grid ;;
  if isInBounds x y width (len grid) then
    c <- Grid_get grid y x ;;
    if (c =? blank)%Z then Grid_set grid y x symbol else Some grid
  else Some grid.

(** The statement
    [if cd.isInBounds(x, y, len(grid[0]), len(grid))
       { grid[y][x] = symbol }] of [DrawFilledCircle], [RenderStars] and
    [RenderPlanet]. *)
Definition plot (grid : Grid) (x y : Z) (symbol : rune) : option Grid :=
  width <- Grid_width grid ;;
  if isInBounds x y width (len grid) then Grid_set grid y x symbol
  else Some grid.

Definition CalculatePosition (cd : CircleDrawer) (centerX centerY : Z)
    (radius angle : float64) : Z * Z :=
  let x := Int.add centerX
             (F64.to_int (radius * F64.Cos angle * aspectRatio cd)%f64) in
  let y := Int.add centerY (F64.to_int (radius * F64.Sin angle)%f64) in
  (x, y).

(** The number of sampled angles of [DrawCircle]. *)
Definition DrawCircle_steps (radius : float64) : Z :=
  let circumference := (Orbital.TwoPi * radius)%f64 in
  let steps := F64.to_int (circumference * Fin 4)%f64 in
  if (steps <? 720)%Z then 720%Z else steps.

Definition DrawCircle (cd : CircleDrawer) (grid : Grid)
    (centerX centerY : Z) (radius : float64) (symbol : rune) : option Grid :=
  let steps := DrawCircle_steps radius in
  forEach (Int.range 0 (steps - 1)%Z) (fun i grid =>
    let angle :=
      (F64.of_int i * Fin 2 * F64.Pi / F64.of_int steps)%f64 in
    let x := Int.add centerX
               (F64.to_int (radius * F64.Cos angle * aspectRatio cd)%f64) in
    let y := Int.add centerY (F64.to_int (radius * F64.Sin angle)%f64) in
    plotIfBlank grid x y symbol) grid.

(** The row loop runs [dy] from [-radius] to [radius], the column loop
    [dx] from [-maxDx] to [maxDx].  (At the bound [2^63 - 1] the Go loops
    do not stop; no caller comes near it.) *)
Definition DrawFilledCircle (cd : CircleDrawer) (grid : Grid)
    (centerX centerY radius : Z) (symbol : rune) : option Grid :=
  forEach (Int.range (Int.neg radius) radius) (fun dy grid =>
    let rowWidth :=
      F64.Sqrt (F64.of_int
                  (Int.sub (Int.mul radius radius) (Int.mul dy dy))) in
    let maxDx := F64.to_int (rowWidth * aspectRatio cd)%f64 in
    forEach (Int.range (Int.neg maxDx) maxDx) (fun dx grid =>
      let x := Int.add centerX dx in
      let y := Int.add centerY dy in
      plot grid x y symbol) grid) grid.

(** ** [visualization.DebrisBeltRenderer] *)

Record DebrisBeltRenderer : Type := {
  dbr_circleDrawer : CircleDrawer;
  dbr_scaler : DistanceScaler
}.

Definition NewDebrisBeltRenderer (circleDrawer : CircleDrawer)
    (scaler : DistanceScaler) : DebrisBeltRenderer :=
  {| dbr_circleDrawer := circleDrawer; dbr_scaler := scaler |}.

Definition belt_defaults : list (string * float64) :=
  [ ("Mars", Fin 1.5); ("Jupiter", Fin 5.2); ("Neptune", Fin 30.0) ].

(** Indexing a [map[string]float64] gives 0 at an absent key. *)
Definition default_of (m : list (string * float64)) (key : string)
    : float64 :=
  match Orbital.lookup m key with Some v => v | None => Fin 0 end.

Fixpoint findPlanetDistances_loop (planets : list CelestialBody)
    (planet1 planet2 : string) (dist1 dist2 : float64)
    : float64 * float64 :=
  match planets with
  | [] => (dist1, dist2)
  | planet :: rest =>
      let dist1' :=
        if (EnglishName planet =? planet1)
           && negb (EnglishName planet =? "Sun")
        then SemimajorAxis planet else dist1 in
      let dist2' :=
        if (EnglishName planet =? planet2)
           && negb (EnglishName planet =? "Sun")
        then SemimajorAxis planet else dist2 in
      findPlanetDistances_loop rest planet1 planet2 dist1' dist2'
  end.

Definition findPlanetDistances (planets : list CelestialBody)
    (planet1 planet2 : string) : float64 * float64 :=
  let '(dist1, dist2) :=
    findPlanetDistances_loop planets planet1 planet2 (Fin 0) (Fin 0) in
  let dist1 :=
    if (dist1 =? Fin 0)%f64 then default_of belt_defaults planet1
    else dist1 in
  let dist2 :=
    if (dist2 =? Fin 0)%f64 then default_of belt_defaults planet2
    else dist2 in
  (dist1, dist2).

Fixpoint findPlanetDistance (planets : list CelestialBody)
    (planetName : string) : float64 :=
  match planets with
  | [] => default_of [("Neptune", Fin 30.0)] planetName
  | planet :: rest =>
      if (EnglishName planet =? planetName)
         && negb (EnglishName planet =? "Sun")
      then SemimajorAxis planet
      else findPlanetDistance rest planetName
  end.

(** The values of [angle] in [for angle := 0; angle < 360; angle +=
    angleStep], for a positive [angleStep] (both callers pass a positive
    constant; the Go loop does not stop on [angleStep = 0]). *)
Definition belt_angles (angleStep : Z) : list Z :=
  if (angleStep <=? 0)%Z then []
  else map (fun k => Z.of_nat k * angleStep)%Z
           (seq 0 (Z.to_nat ((359 + angleStep) / angleStep))).

Definition renderDebrisBelt (dbr : DebrisBeltRenderer) (grid : Grid)
    (centerX centerY : Z) (innerRadius outerRadius : float64)
    (angleStep rings : Z) (symbol : rune) : option Grid :=
  forEach (belt_angles angleStep) (fun angle grid =>
    let radians := (F64.of_int angle * Fin 3.14159 / Fin 180)%f64 in
    forEach (Int.range 0 (rings - 1)%Z) (fun i grid =>
      let radius :=
        (innerRadius
         + F64.of_int i * (outerRadius - innerRadius) / F64.of_int rings)%f64
      in
      let '(x, y) :=
        CalculatePosition (dbr_circleDrawer dbr) centerX centerY
          radius radians in
      plotIfBlank grid x y symbol) grid) grid.

(** The rune U+2217 and the rune U+25E6. *)
Definition asteroid_glyph : rune := 0x2217%Z.
Definition kuiper_glyph : rune := 0x25E6%Z.

Definition RenderAsteroidBelt (dbr : DebrisBeltRenderer) (grid : Grid)
    (centerX centerY : Z) (planets : list CelestialBody) : option Grid :=
  let '(marsDistance, jupiterDistance) :=
    findPlanetDistances planets "Mars" "Jupiter" in
  let innerRadius :=
    ScaleDistance (dbr_scaler dbr) (marsDistance * Fin 1.5)%f64 planets in
  let outerRadius :=
    ScaleDistance (dbr_scaler dbr) (jupiterDistance * Fin 0.6)%f64 planets in
  renderDebrisBelt dbr grid centerX centerY innerRadius outerRadius 10%Z 3%Z
    asteroid_glyph.

Definition RenderKuiperBelt (dbr : DebrisBeltRenderer) (grid : Grid)
    (centerX centerY : Z) (planets : list CelestialBody) : option Grid :=
  let neptuneDistance := findPlanetDistance planets "Neptune" in
  let innerRadius :=
    ScaleDistance (dbr_scaler dbr) (neptuneDistance * Fin 1.2)%f64 planets in
  let outerRadius :=
    ScaleDistance (dbr_scaler dbr) (neptuneDistance * Fin 1.7)%f64 planets in
  renderDebrisBelt dbr grid centerX centerY innerRadius outerRadius 12%Z 4%Z
    kuiper_glyph.

(** ** Strings and runes *)

Module Utf8.

Open Scope Z_scope.

Definition bytes (s : string) : list Z :=
  map (fun c => Z.of_N (N_of_ascii c)) (list_ascii_of_string s).

Definition RuneError : rune := 0xFFFD.

Definition continuation (b : Z) : bool := (0x80 <=? b) && (b <=? 0xBF).

(** [utf8.DecodeRuneInString] on a non-empty string: the rune and its
    width in bytes.  An invalid or truncated encoding is [RuneError] of
    width 1. *)
Definition DecodeRune (s : list Z) : rune * nat :=
  match s with
  | [] => (RuneError, 0%nat)
  | s0 :: rest =>
      if s0 <? 0x80 then (s0, 1%nat)
      else
        (* size of the encoding and accepted range of the second byte *)
        let '(sz, lo, hi) :=
          if (0xC2 <=? s0) && (s0 <=? 0xDF) then (2, 0x80, 0xBF)
          else if s0 =? 0xE0 then (3, 0xA0, 0xBF)
          else if s0 =? 0xED then (3, 0x80, 0x9F)
          else if (0xE1 <=? s0) && (s0 <=? 0xEF) then (3, 0x80, 0xBF)
          else if s0 =? 0xF0 then (4, 0x90, 0xBF)
          else if (0xF1 <=? s0) && (s0 <=? 0xF3) then (4, 0x80, 0xBF)
          else if s0 =? 0xF4 then (4, 0x80, 0x8F)
          else (0, 0, 0) in
        if sz =? 0 then (RuneError, 1%nat)
        else if len s <? sz then (RuneError, 1%nat)
        else match rest with
        | s1 :: rest1 =>
            if (s1 <? lo) || (hi <? s1) then (RuneError, 1%nat)
            else if sz <=? 2
            then (Z.lor (Z.shiftl (Z.land s0 0x1F) 6) (Z.land s1 0x3F),
                  2%nat)
            else match rest1 with
            | s2 :: rest2 =>
                if negb (continuation s2) then (RuneError, 1%nat)
                else if sz <=? 3
                then (Z.lor (Z.lor (Z.shiftl (Z.land s0 0x0F) 12)
                                   (Z.shiftl (Z.land s1 0x3F) 6))
                            (Z.land s2 0x3F), 3%nat)
                else match rest2 with
                | s3 :: _ =>
                    if negb (continuation s3) then (RuneError, 1%nat)
                    else (Z.lor (Z.lor (Z.lor
                            (Z.shiftl (Z.land s0 0x07) 18)
                            (Z.shiftl (Z.land s1 0x3F) 12))
                            (Z.shiftl (Z.land s2 0x3F) 6))
                            (Z.land s3 0x3F), 4%nat)
                | [] => (RuneError, 1%nat)
                end
            | [] => (RuneError, 1%nat)
            end
        | [] => (RuneError, 1%nat)
        end
  end.

(** The runes of [for _, char := range s]; every step consumes at least
    one byte, so [fuel = len(s)] steps reach the end. *)
Fixpoint decode (fuel : nat) (s : list Z) : list rune :=
  match fuel, s with
  | S fuel', _ :: _ =>
      let '(r, size) := DecodeRune s in r :: decode fuel' (skipn size s)
  | _, _ => []
  end.

Definition runes (s : string) : list rune :=
  decode (String.length s) (bytes s).

End Utf8.

(** ** [visualization.CelestialObjectRenderer] *)

Record StarPosition : Type := { X : Z; Y : Z }.

Record CelestialObjectRenderer : Type := {
  circleDrawer : CircleDrawer;
  startTime : Time.Time;
  epochTime : Time.Time;
  width : Z;
  height : Z
}.

(** [NewCelestialObjectRenderer] reads the clock for both times. *)
Definition NewCelestialObjectRenderer (circleDrawer : CircleDrawer)
    (width height : Z) (now : Time.Time) : CelestialObjectRenderer :=
  {| circleDrawer := circleDrawer; startTime := now; epochTime := now;
     width := width; height := height |}.

Definition UpdateDimensions (cor : CelestialObjectRenderer)
    (width height : Z) : CelestialObjectRenderer :=
  {| circleDrawer := circleDrawer cor; startTime := startTime cor;
     epochTime := epochTime cor; width := width; height := height |}.

(** [time.Since(t)] at the instant [now]. *)
Definition Since (now t : Time.Time) : Time.Duration := Time.Sub now t.

Definition getTerminalSizeFactor (cor : CelestialObjectRenderer) : float64 :=
  let minDimension :=
    F64.Min (F64.of_int (width cor)) (F64.of_int (height cor)) in
  let baseDimension := Fin 36.0 in
  let sizeFactor := (minDimension / baseDimension)%f64 in
  if (sizeFactor <? Fin 0.5)%f64 then Fin 0.5
  else if (sizeFactor >? Fin 2.5)%f64 then Fin 2.5
  else sizeFactor.

Definition scalePlanetSize (cor : CelestialObjectRenderer)
    (meanRadius : float64) : Z :=
  if (meanRadius <=? Fin 0)%f64 then 1%Z
  else
    let terminalSizeFactor := getTerminalSizeFactor cor in
    let logRadius := F64.Log10 meanRadius in
    let baseSize :=
      if (logRadius >=? Fin 4.8)%f64 then 3%Z
      else if (logRadius >=? Fin 4.7)%f64 then 2%Z
      else if (logRadius >=? Fin 4.3)%f64 then 2%Z
      else if (logRadius >=? Fin 3.7)%f64 then 1%Z
      else if (logRadius >=? Fin 3.3)%f64 then 1%Z
      else 1%Z in
    let scaledSize :=
      F64.to_int (F64.of_int baseSize * terminalSizeFactor)%f64 in
    let scaledSize := if (scaledSize <? 1)%Z then 1%Z else scaledSize in
    (* maxSizes is the map {3: 3, 2: 2, 1: 1} *)
    let maxSize := baseSize in
    if (scaledSize >? maxSize)%Z then maxSize else scaledSize.

Definition scaleSunSize (cor : CelestialObjectRenderer) : Z :=
  let terminalSizeFactor := getTerminalSizeFactor cor in
  let baseSize := Fin 3.0 in
  let scaledSize := F64.to_int (baseSize * terminalSizeFactor)%f64 in
  let scaledSize := if (scaledSize <? 2)%Z then 2%Z else scaledSize in
  if (scaledSize >? 4)%Z then 4%Z else scaledSize.

Definition scaleStarSize (cor : CelestialObjectRenderer)
    (meanRadius : float64) (numStars : Z) : Z :=
  if (numStars =? 1)%Z then scaleSunSize cor else 2%Z.

(** *** Glyphs *)

Definition sun_glyph : rune := 0x2609%Z.

Definition knownSymbols : list (string * rune) :=
  [ ("Sun", 0x2609); ("Mercury", 0x263F); ("Venus", 0x2640);
    ("Earth", 0x2641); ("Mars", 0x2642); ("Jupiter", 0x2643);
    ("Saturn", 0x2644); ("Uranus", 0x2645); ("Neptune", 0x2646);
    ("Pluto", 0x2647) ]%Z.

Definition genericSymbols : list rune :=
  [ 0x25CF; 0x25C9; 0x25CE; 0x25CB; 0x25EF; 0x2B24; 0x26AB; 0x26AA;
    0x1FA90; 0x1F30D; 0x1F30E; 0x1F30F; 0x1F311; 0x1F312; 0x1F313;
    0x1F314; 0x1F315; 0x1F316; 0x1F317; 0x1F318 ]%Z.

(** The loop [hash = (hash + int(char)) % len(genericSymbols)]. *)
Definition symbol_hash (name : string) : Z :=
  fold_left (fun hash char => Int.rem (Int.add hash char) (len genericSymbols))
            (Utf8.runes name) 0%Z.

Definition generateGenericSymbol (name : string) : option rune :=
  index genericSymbols (symbol_hash name).

Definition GetPlanetSymbol (name : string) : option rune :=
  match Orbital.lookup knownSymbols name with
  | Some symbol => Some symbol
  | None => generateGenericSymbol name
  end.

(** *** Stars: mass, class and glyph *)

Definition solarMass : float64 := Fin 1.989e30.

Definition getStarMass (star : CelestialBody) : float64 :=
  if (MassValue (BodyMass star) >? Fin 0)%f64
  then (MassValue (BodyMass star)
        * F64.Pow (Fin 10) (F64.of_int (MassExponent (BodyMass star))))%f64
  else if (MeanRadius star >? Fin 0)%f64
  then
    let sunRadius := Fin 695700.0 in
    let radiusRatio := (MeanRadius star / sunRadius)%f64 in
    (F64.Pow radiusRatio (Fin 2.5) * Fin 1.989e30)%f64
  else Fin 1.989e30.

Definition getStellarClassField (star : CelestialBody) : string :=
  StellarClass star.

Definition getTemperature (star : CelestialBody) : float64 * bool :=
  if (Temperature star >? Fin 0)%f64 then (Temperature star, true)
  else (Fin 0, false).

Definition classifyByTemperature (temp : float64) : string :=
  if (temp >=? Fin 30000)%f64 then "O5V"
  else if (temp >=? Fin 10000)%f64 then "B5V"
  else if (temp >=? Fin 7500)%f64 then "A5V"
  else if (temp >=? Fin 6000)%f64 then "F5V"
  else if (temp >=? Fin 5200)%f64 then "G5V"
  else if (temp >=? Fin 3700)%f64 then "K5V"
  else "M5V".

Definition getStellarClass (star : CelestialBody) : string :=
  let stellarClass := getStellarClassField star in
  if negb (stellarClass =? "") then stellarClass
  else
    let '(temp, ok) := getTemperature star in
    if ok then classifyByTemperature temp
    else
      let mass := getStarMass star in
      let massRatio := (mass / solarMass)%f64 in
      if (massRatio >? Fin 16)%f64 then "O5V"
      else if (massRatio >? Fin 2.1)%f64 then "B5V"
      else if (massRatio >? Fin 1.4)%f64 then "A5V"
      else if (massRatio >? Fin 1.04)%f64 then "F5V"
      else if (massRatio >? Fin 0.8)%f64 then "G5V"
      else if (massRatio >? Fin 0.45)%f64 then "K5V"
      else "M5V".

Definition blue_star_glyph : rune := 0x2726%Z.
Definition white_star_glyph : rune := 0x2727%Z.
Definition orange_star_glyph : rune := 0x2729%Z.
Definition red_star_glyph : rune := 0x272A%Z.
Definition generic_star_glyph : rune := 0x2B50%Z.

(** [s[0]]: the first byte, a panic on the empty string. *)
Definition first_byte (s : string) : option ascii :=
  match s with
  | EmptyString => None
  | String c _ => Some c
  end.

Definition getStarSymbol (star : CelestialBody) : option rune :=
  let stellarClass := getStellarClass star in
  c <- first_byte stellarClass ;;
  if (c =? "O")%char || (c =? "B")%char then Some blue_star_glyph
  else if (c =? "A")%char || (c =? "F")%char then Some white_star_glyph
  else if (c =? "G")%char then Some sun_glyph
  else if (c =? "K")%char then Some orange_star_glyph
  else if (c =? "M")%char then Some red_star_glyph
  else if EnglishName star =? "Sun" then Some sun_glyph
  else Some generic_star_glyph.

(** *** Orbital angle *)

Definition isOurSolarSystem (planet : CelestialBody) : bool :=
  match Orbital.lookup Orbital.knownSolarSystemBodies (EnglishName planet)
  with
  | Some b => b
  | None => false
  end.

Definition calculateGenericMeanAnomaly (cor : CelestialObjectRenderer)
    (planet : CelestialBody) (now : Time.Time) : float64 :=
  let seed :=
    (SemimajorAxis planet + SideralOrbit planet + MeanRadius planet)%f64 in
  let initialAngle := F64.Mod (seed * Fin 0.01745329)%f64 Orbital.TwoPi in
  let daysSinceEpoch :=
    (Time.Hours (Since now (epochTime cor)) / Fin 24.0)%f64 in
  if (SideralOrbit planet <=? Fin 0)%f64 then initialAngle
  else
    let meanMotionPerDay := (Orbital.TwoPi / SideralOrbit planet)%f64 in
    let currentMeanAnomaly :=
      (initialAngle + meanMotionPerDay * daysSinceEpoch)%f64 in
    F64.Mod currentMeanAnomaly Orbital.TwoPi.

Definition calculateSolarSystemMeanAnomaly (cor : CelestialObjectRenderer)
    (planet : CelestialBody) (now : Time.Time) : float64 :=
  match Orbital.lookup Orbital.j2000MeanAnomalies (EnglishName planet) with
  | None => calculateGenericMeanAnomaly cor planet now
  | Some j2000MeanAnomaly =>
      let currentDate := now in
      let daysSinceJ2000 :=
        (Time.Hours (Time.Sub currentDate Time.j2000) / Fin 24.0)%f64 in
      if (SideralOrbit planet <=? Fin 0)%f64 then j2000MeanAnomaly
      else
        let meanMotionPerDay := (Orbital.TwoPi / SideralOrbit planet)%f64 in
        let currentMeanAnomaly :=
          (j2000MeanAnomaly + meanMotionPerDay * daysSinceJ2000)%f64 in
        F64.Mod currentMeanAnomaly Orbital.TwoPi
  end.

Definition calculateCurrentMeanAnomaly (cor : CelestialObjectRenderer)
    (planet : CelestialBody) (now : Time.Time) : float64 :=
  if isOurSolarSystem planet
  then calculateSolarSystemMeanAnomaly cor planet now
  else
    let seed :=
      (SemimajorAxis planet + SideralOrbit planet + MeanRadius planet)%f64 in
    let initialAngle := F64.Mod (seed * Fin 0.01745329)%f64 Orbital.TwoPi in
    let daysSinceEpoch :=
      (Time.Hours (Since now (epochTime cor)) / Fin 24.0)%f64 in
    if (SideralOrbit planet <=? Fin 0)%f64 then initialAngle
    else
      let meanMotionPerDay := (Orbital.TwoPi / SideralOrbit planet)%f64 in
      let currentMeanAnomaly :=
        (initialAngle + meanMotionPerDay * daysSinceEpoch)%f64 in
      F64.Mod currentMeanAnomaly Orbital.TwoPi.

Definition calculateMeanAnomaly (cor : CelestialObjectRenderer)
    (planet : CelestialBody) (now : Time.Time) : float64 :=
  let currentMeanAnomaly := calculateCurrentMeanAnomaly cor planet now in
  let elapsed := Time.Seconds (Since now (startTime cor)) in
  let orbitalPeriodSeconds := (SideralOrbit planet * Fin 24 * Fin 3600)%f64 in
  let meanMotion := (Orbital.TwoPi / orbitalPeriodSeconds)%f64 in
  let animationSpeedFactor := Fin 864000.0 in
  (currentMeanAnomaly + meanMotion * elapsed * animationSpeedFactor)%f64.

Definition getOrbitalAngle (cor : CelestialObjectRenderer)
    (planet : CelestialBody) (now : Time.Time) : float64 :=
  if (SideralOrbit planet <=? Fin 0)%f64 then Fin 0
  else
    let meanAnomaly := calculateMeanAnomaly cor planet now in
    if (Eccentricity planet >? Fin 0)%f64
    then
      let trueAnomaly :=
        (meanAnomaly
         + Fin 2 * Eccentricity planet * F64.Sin meanAnomaly)%f64 in
      F64.Mod trueAnomaly Orbital.TwoPi
    else F64.Mod meanAnomaly Orbital.TwoPi.

(** *** Star positions *)

Definition calculateBinarySeparation (cor : CelestialObjectRenderer)
    (stars : list CelestialBody) : float64 :=
  let terminalSizeFactor := getTerminalSizeFactor cor in
  let baseSeparation := (Fin 6.0 * terminalSizeFactor)%f64 in
  let minSeparation := Fin 6.0 in
  F64.Max baseSeparation minSeparation.

Definition calculateMultiStarRadius (cor : CelestialObjectRenderer)
    (numStars : Z) : float64 :=
  let terminalSizeFactor := getTerminalSizeFactor cor in
  let baseRadius := (Fin 3.0 * terminalSizeFactor)%f64 in
  if (numStars >? 3)%Z then (baseRadius * Fin 1.3)%f64 else baseRadius.

Definition calculateBinaryOrbitalPeriod (cor : CelestialObjectRenderer)
    (stars : list CelestialBody) (separation : float64) : float64 :=
  match stars with
  | [star1; star2] =>
      let mass1 := getStarMass star1 in
      let mass2 := getStarMass star2 in
      let totalMass := (mass1 + mass2)%f64 in
      let totalMassRatio := (totalMass / solarMass)%f64 in
      let basePeriod := Fin 20.0 in
      let periodScaling :=
        (F64.Pow (separation / Fin 10.0) (Fin 1.5)
         / F64.Sqrt totalMassRatio)%f64 in
      let period := (basePeriod * periodScaling)%f64 in
      if (period <? Fin 10.0)%f64 then Fin 10.0
      else if (period >? Fin 120.0)%f64 then Fin 120.0
      else period
  | _ => Fin 30.0
  end.

Definition calculateMultiStarRotationPeriod (cor : CelestialObjectRenderer)
    (numStars : Z) : float64 :=
  let basePeriod := Fin 30.0 in
  let period :=
    (basePeriod
     * (Fin 1.0 + F64.of_int (Int.sub numStars 3) * Fin 0.5))%f64 in
  if (period <? Fin 20.0)%f64 then Fin 20.0
  else if (period >? Fin 90.0)%f64 then Fin 90.0
  else period.

(** The local variables [r1] and [r2] of [calculateBinaryStarPositions]:
    the distance of each star from the barycenter. *)
Definition binaryStarRadii (cor : CelestialObjectRenderer)
    (star1 star2 : CelestialBody) : float64 * float64 :=
  let mass1 := getStarMass star1 in
  let mass2 := getStarMass star2 in
  let totalMass := (mass1 + mass2)%f64 in
  let baseSeparation := calculateBinarySeparation cor [star1; star2] in
  let r1 := (baseSeparation * (mass2 / totalMass))%f64 in
  let r2 := (baseSeparation * (mass1 / totalMass))%f64 in
  (r1, r2).

Definition calculateBinaryStarPositions (cor : CelestialObjectRenderer)
    (stars : list CelestialBody) (centerX centerY : Z) (now : Time.Time)
    : list StarPosition :=
  match stars with
  | [star1; star2] =>
      let baseSeparation := calculateBinarySeparation cor stars in
      let '(r1, r2) := binaryStarRadii cor star1 star2 in
      let elapsed := Time.Seconds (Since now (startTime cor)) in
      let orbitalPeriod :=
        calculateBinaryOrbitalPeriod cor stars baseSeparation in
      let angle := (Orbital.TwoPi * elapsed / orbitalPeriod)%f64 in
      let x1 := Int.add centerX (F64.to_int (r1 * F64.Cos angle)%f64) in
      let y1 :=
        Int.add centerY (F64.to_int (r1 * F64.Sin angle * Fin 0.5)%f64) in
      let x2 := Int.sub centerX (F64.to_int (r2 * F64.Cos angle)%f64) in
      let y2 :=
        Int.sub centerY (F64.to_int (r2 * F64.Sin angle * Fin 0.5)%f64) in
      [ {| X := x1; Y := y1 |}; {| X := x2; Y := y2 |} ]
  | _ => [ {| X := centerX; Y := centerY |} ]
  end.

Definition calculateMultipleStarPositions (cor : CelestialObjectRenderer)
    (stars : list CelestialBody) (centerX centerY : Z) (now : Time.Time)
    : list StarPosition :=
  let ringRadius := calculateMultiStarRadius cor (len stars) in
  map (fun i =>
         let angle :=
           (Orbital.TwoPi * F64.of_int i / F64.of_int (len stars))%f64 in
         let elapsed := Time.Seconds (Since now (startTime cor)) in
         let rotationPeriod :=
           calculateMultiStarRotationPeriod cor (len stars) in
         let rotationAngle :=
           (Orbital.TwoPi * elapsed / rotationPeriod)%f64 in
         let angle := (angle + rotationAngle)%f64 in
         let x :=
           Int.add centerX (F64.to_int (ringRadius * F64.Cos angle)%f64) in
         let y :=
           Int.add centerY
             (F64.to_int (ringRadius * F64.Sin angle * Fin 0.5)%f64) in
         {| X := x; Y := y |})
      (Int.range 0 (len stars - 1)%Z).

Definition calculateStarPositions (cor : CelestialObjectRenderer)
    (stars : list CelestialBody) (centerX centerY : Z) (now : Time.Time)
    : list StarPosition :=
  if (len stars <=? 1)%Z then [ {| X := centerX; Y := centerY |} ]
  else if (len stars =? 2)%Z
  then calculateBinaryStarPositions cor stars centerX centerY now
  else calculateMultipleStarPositions cor stars centerX centerY now.

(** *** Rendering of the bodies *)

Definition orbit_glyph : rune := 0xB7%Z.

Definition RenderSun (cor : CelestialObjectRenderer) (grid : Grid)
    (centerX centerY : Z) : option Grid :=
  let sunRadius := scaleSunSize cor in
  DrawFilledCircle (circleDrawer cor) grid centerX centerY sunRadius
    sun_glyph.

Definition RenderStars (cor : CelestialObjectRenderer) (grid : Grid)
    (centerX centerY : Z) (stars : list CelestialBody) (now : Time.Time)
    : option Grid :=
  match stars with
  | [star] =>
      let starRadius := scaleStarSize cor (MeanRadius star) (len stars) in
      symbol <- getStarSymbol star ;;
      DrawFilledCircle (circleDrawer cor) grid centerX centerY starRadius
        symbol
  | _ =>
      let positions :=
        calculateStarPositions cor stars centerX centerY now in
      (* the stars [i] with [i < len(positions)], with their positions *)
      forEach (combine stars positions) (fun '(star, position) grid =>
        let starRadius := scaleStarSize cor (MeanRadius star) (len stars) in
        symbol <- getStarSymbol star ;;
        let px := X position in
        let py := Y position in
        if (starRadius <=? 1)%Z then plot grid px py symbol
        else DrawFilledCircle (circleDrawer cor) grid px py starRadius
               symbol) grid
  end.

Definition RenderPlanet (cor : CelestialObjectRenderer) (grid : Grid)
    (centerX centerY : Z) (planet : CelestialBody) (radius : float64)
    (now : Time.Time) : option Grid :=
  let angle := getOrbitalAngle cor planet now in
  let '(px, py) :=
    CalculatePosition (circleDrawer cor) centerX centerY radius angle in
  let planetRadius := scalePlanetSize cor (MeanRadius planet) in
  symbol <- GetPlanetSymbol (EnglishName planet) ;;
  if (planetRadius <=? 1)%Z then plot grid px py symbol
  else DrawFilledCircle (circleDrawer cor) grid px py planetRadius symbol.

Definition RenderOrbit (cor : CelestialObjectRenderer) (grid : Grid)
    (centerX centerY : Z) (radius : float64) : option Grid :=
  DrawCircle (circleDrawer cor) grid centerX centerY radius orbit_glyph.

(** ** [visualization.Renderer] *)

Record PlanetPosition : Type := {
  pos_X : Z;
  pos_Y : Z;
  pos_Radius : Z;
  pos_Planet : CelestialBody
}.

(** A [map[string]PlanetPosition]: the assignments made, latest first. *)
Definition PositionIndex : Type := list (string * PlanetPosition).

Record Renderer : Type := {
  r_width : Z;
  r_height : Z;
  r_centerX : Z;
  r_centerY : Z;
  r_circleDrawer : CircleDrawer;
  celestialRenderer : CelestialObjectRenderer;
  debrisBeltRenderer : DebrisBeltRenderer;
  distanceScaler : DistanceScaler
}.

Definition NewRendererWithDefaults (width height : Z) (now : Time.Time)
    : Renderer :=
  let circleDrawer := NewCircleDrawer AspectRatio in
  let celestialRenderer :=
    NewCelestialObjectRenderer circleDrawer width height now in
  let distanceScaler := NewDistanceScaler width height in
  let debrisBeltRenderer :=
    NewDebrisBeltRenderer circleDrawer distanceScaler in
  {| r_width := width; r_height := height;
     r_centerX := Int.quot width 2; r_centerY := Int.quot height 2;
     r_circleDrawer := circleDrawer;
     celestialRenderer := celestialRenderer;
     debrisBeltRenderer := debrisBeltRenderer;
     distanceScaler := distanceScaler |}.

(** [make] panics on a negative length. *)
Definition createGrid (width height : Z) : option Grid :=
  if (height <? 0)%Z then None
  else if (0 <? height)%Z && (width <? 0)%Z then None
  else Some (repeat (repeat blank (Z.to_nat width)) (Z.to_nat height)).

Definition isStar (body : CelestialBody) : bool :=
  (BodyType body =? "Star") || (EnglishName body =? "Sun")
  || ((SemimajorAxis body =? Fin 0)%f64 && negb (IsPlanet body)).

Definition separateStarsAndPlanets (bodies : list CelestialBody)
    : list CelestialBody * list CelestialBody :=
  fold_left (fun '(stars, planets) body =>
               if isStar body then (stars ++ [body], planets)
               else (stars, planets ++ [body]))%list
            bodies ([], []).

(** The body of [for _, planet := range actualPlanets] in
    [RenderSolarSystemData]. *)
Definition renderOrbitingPlanet (r : Renderer)
    (cor : CelestialObjectRenderer) (centerX centerY : Z)
    (actualPlanets : list CelestialBody) (now : Time.Time)
    (planet : CelestialBody) (grid : Grid) : option Grid :=
  if (SemimajorAxis planet <=? Fin 0)%f64 then Some grid
  else
    let radius :=
      ScaleDistance (distanceScaler r) (SemimajorAxis planet) actualPlanets in
    grid <- RenderOrbit cor grid centerX centerY radius ;;
    RenderPlanet cor grid centerX centerY planet radius now.

(** The part of the render pass before the loop over the planets: the
    grid with the stars and the two belts. *)
Definition renderBackground (r : Renderer) (cor : CelestialObjectRenderer)
    (stars actualPlanets : list CelestialBody) (width height : Z)
    (now : Time.Time) : option Grid :=
  let centerX := Int.quot width 2 in
  let centerY := Int.quot height 2 in
  grid <- createGrid width height ;;
  grid <- (if (len stars >? 0)%Z
           then RenderStars cor grid centerX centerY stars now
           else RenderSun cor grid centerX centerY) ;;
  grid <- RenderAsteroidBelt (debrisBeltRenderer r) grid centerX centerY
            actualPlanets ;;
  RenderKuiperBelt (debrisBeltRenderer r) grid centerX centerY actualPlanets.

Definition RenderSolarSystemData (r : Renderer)
    (planets : list CelestialBody) (width height : Z) (now : Time.Time)
    : option Grid :=
  let centerX := Int.quot width 2 in
  let centerY := Int.quot height 2 in
  let cor := UpdateDimensions (celestialRenderer r) (r_width r) (r_height r) in
  let '(stars, actualPlanets) := separateStarsAndPlanets planets in
  grid <- renderBackground r cor stars actualPlanets width height now ;;
  forEach actualPlanets
    (renderOrbitingPlanet r cor centerX centerY actualPlanets now) grid.

(** The body of the loop over the planets in
    [RenderSolarSystemDataWithPositions]. *)
Definition renderOrbitingPlanetWithPosition (r : Renderer)
    (cor : CelestialObjectRenderer) (centerX centerY : Z)
    (actualPlanets : list CelestialBody) (now : Time.Time)
    (planet : CelestialBody) (state : Grid * PositionIndex)
    : option (Grid * PositionIndex) :=
  let '(grid, planetPositions) := state in
  if (SemimajorAxis planet <=? Fin 0)%f64 then Some state
  else
    let radius :=
      ScaleDistance (distanceScaler r) (SemimajorAxis planet) actualPlanets in
    grid <- RenderOrbit cor grid centerX centerY radius ;;
    let angle := getOrbitalAngle cor planet now in
    let '(px, py) :=
      CalculatePosition (r_circleDrawer r) centerX centerY radius angle in
    let planetRadius := scalePlanetSize cor (MeanRadius planet) in
    let planetPositions :=
      (EnglishName planet,
       {| pos_X := px; pos_Y := py; pos_Radius := planetRadius;
          pos_Planet := planet |}) :: planetPositions in
    grid <- RenderPlanet cor grid centerX centerY planet radius now ;;
    Some (grid, planetPositions).

Definition RenderSolarSystemDataWithPositions (r : Renderer)
    (planets : list CelestialBody)
    (width height screenWidth screenHeight : Z) (now : Time.Time)
    : option (Grid * PositionIndex) :=
  let centerX := Int.quot width 2 in
  let centerY := Int.quot height 2 in
  let cor := UpdateDimensions (celestialRenderer r) screenWidth screenHeight in
  let '(stars, actualPlanets) := separateStarsAndPlanets planets in
  grid <- renderBackground r cor stars actualPlanets width height now ;;
  let planetPositions :=
    fold_left (fun planetPositions star =>
                 (EnglishName star,
                  {| pos_X := centerX; pos_Y := centerY;
                     pos_Radius := scaleSunSize cor;
                     pos_Planet := star |}) :: planetPositions)
              stars [] in
  forEach actualPlanets
    (renderOrbitingPlanetWithPosition r cor centerX centerY actualPlanets now)
    (grid, planetPositions).

(** ** Relations between the grid before and after a drawing *)

(** The same number of rows, and row by row the same number of cells. *)
Definition same_shape (grid grid' : Grid) : Prop :=
  map (@List.length rune) grid = map (@List.length rune) grid'.

(** [(x, y)] lies in [[0, width) x [0, height)], where [width] is the
    length of the first row. *)
Definition in_grid (grid : Grid) (x y : Z) : bool :=
  match Grid_width grid with
  | Some width => isInBounds x y width (len grid)
  | None => false
  end.

(** No cell outside [[0, width) x [0, height)] is touched. *)
Definition writes_inside (grid grid' : Grid) : Prop :=
  same_shape grid grid' /\
  forall x y : Z, in_grid grid x y = false ->
                  Grid_get grid' y x = Grid_get grid y x.

(** Every cell that holds a glyph keeps it. *)
Definition keeps_glyphs (grid grid' : Grid) : Prop :=
  same_shape grid grid' /\
  forall (x y : Z) (c : rune),
    Grid_get grid y x = Some c -> c <> blank -> Grid_get grid' y x = Some c.

(** A rectangular grid of at least one row, as [createGrid] makes them. *)
Definition well_formed (grid : Grid) : Prop :=
  grid <> [] /\
  exists width : Z, Forall (fun row => len row = width) grid.

(** ** Ranges of an angle *)

(** A number of magnitude less than 2 pi. *)
Definition signed_angle (x : float64) : Prop :=
  exists r : R, x = Fin r /\ (- (2 * PI) < r < 2 * PI)%R.

(** A number of the interval [[0, 2 pi)]. *)
Definition angle (x : float64) : Prop :=
  exists r : R, x = Fin r /\ (0 <= r < 2 * PI)%R.

(** A float that is a positive number or +Inf. *)
Definition is_positive (x : float64) : Prop :=
  x = Inf false \/ exists m : R, x = Fin m /\ (0 < m)%R.

(** ** Glyph tables of the specification *)

(** The seven spectral classes of the fallback classification. *)
Definition fallback_classes : list string :=
  ["O5V"; "B5V"; "A5V"; "F5V"; "G5V"; "K5V"; "M5V"].

(** The first characters of the spectral classes. *)
Definition spectral_letters : list ascii :=
  ["O"; "B"; "A"; "F"; "G"; "K"; "M"]%char.

(** The glyphs of the five spectral groups, and the six star glyphs. *)
Definition class_glyphs : list rune :=
  [blue_star_glyph; white_star_glyph; sun_glyph; orange_star_glyph;
   red_star_glyph].

Definition star_glyphs : list rune := class_glyphs ++ [generic_star_glyph].

(** A drawing step that neither panics on a well-formed grid nor changes
    its shape. *)
Definition draws_safely (f : Grid -> option Grid) : Prop :=
  forall grid : Grid,
    well_formed grid ->
    exists grid', f grid = Some grid' /\ well_formed grid'
                  /\ same_shape grid grid'.

(** The planets that the render pass draws: those that do not satisfy the
    guard [planet.SemimajorAxis <= 0]. *)
Definition orbiting (planet : CelestialBody) : bool :=
  negb (SemimajorAxis planet <=? Fin 0)%f64.

(** ** Package [ui]: the selection of a star system *)

(** The keys that [HandleNavigation] tells apart. *)
Inductive Key : Type := KeyUp | KeyDown | KeyOther.

(** The fields of [SystemModal], and of the [Modal] it embeds, that the
    list and its navigation read and write. *)
Record SystemModal : Type := {
  sm_x : Z;
  sm_y : Z;
  sm_height : Z;
  sm_selectedIndex : Z;
  sm_scrollIndex : Z;
  sm_systemInfo : list string
}.

(** [screenWidth] is the width that [screen.Size()] gives to [NewModal],
    [systemInfo] the list that [ListSystemsWithInfo] returns; the modal
    is 80 by 20 at the top right. *)
Definition NewSystemModal (screenWidth : Z) (systemInfo : list string)
    : SystemModal :=
  {| sm_x := Int.sub (Int.sub screenWidth 80) 2;
     sm_y := 1;
     sm_height := 20;
     sm_selectedIndex := 0;
     sm_scrollIndex := 0;
     sm_systemInfo := systemInfo |}.

Definition set_selection (sm : SystemModal) (selectedIndex scrollIndex : Z)
    : SystemModal :=
  {| sm_x := sm_x sm;
     sm_y := sm_y sm;
     sm_height := sm_height sm;
     sm_selectedIndex := selectedIndex;
     sm_scrollIndex := scrollIndex;
     sm_systemInfo := sm_systemInfo sm |}.

Definition HandleNavigation (sm : SystemModal) (key : Key) : SystemModal :=
  match key with
  | KeyUp =>
      if (sm_selectedIndex sm >? 0)%Z then
        let selectedIndex := Int.sub (sm_selectedIndex sm) 1 in
        let scrollIndex :=
          if (selectedIndex <? sm_scrollIndex sm)%Z then selectedIndex
          else sm_scrollIndex sm in
        set_selection sm selectedIndex scrollIndex
      else sm
  | KeyDown =>
      if (sm_selectedIndex sm <? Int.sub (len (sm_systemInfo sm)) 1)%Z then
        let selectedIndex := Int.add (sm_selectedIndex sm) 1 in
        let visibleLines := Int.sub (sm_height sm) 6 in
        let scrollIndex :=
          if (selectedIndex >=? Int.add (sm_scrollIndex sm) visibleLines)%Z
          then Int.add (Int.sub selectedIndex visibleLines) 1
          else sm_scrollIndex sm in
        set_selection sm selectedIndex scrollIndex
      else sm
  | KeyOther => sm
  end.

(** One call of [drawTextAt]: the cell, whether the style is the reversed
    bold one, and the text. *)
Record DrawnLine : Type := {
  dl_x : Z;
  dl_y : Z;
  dl_highlight : bool;
  dl_text : string
}.

(** The loop of [renderSystemList] from the counter [i] on; it makes at
    most [visibleLines] rounds, which [rounds] counts down. *)
Fixpoint renderSystemList_loop (sm : SystemModal) (rounds : nat) (i : Z)
    : option (list DrawnLine) :=
  match rounds with
  | O => Some []
  | S rounds' =>
      let visibleLines := Int.sub (sm_height sm) 6 in
      if (i <? visibleLines)%Z
         && (Int.add i (sm_scrollIndex sm) <? len (sm_systemInfo sm))%Z
      then
        let lineIndex := Int.add i (sm_scrollIndex sm) in
        line <- index (sm_systemInfo sm) lineIndex ;;
        rest <- renderSystemList_loop sm rounds' (Int.add i 1) ;;
        Some ({| dl_x := Int.add (sm_x sm) 2;
                 dl_y := Int.add (Int.add (sm_y sm) 3) i;
                 dl_highlight := (lineIndex =? sm_selectedIndex sm)%Z;
                 dl_text := line |} :: rest)
      else Some []
  end.

Definition renderSystemList (sm : SystemModal) : option (list DrawnLine) :=
  renderSystemList_loop sm (Z.to_nat (Int.sub (sm_height sm) 6)) 0.

(** [availableSystems] is what [GetAvailableSystems] returns. *)
Definition GetSelectedSystem (sm : SystemModal)
    (availableSystems : list string) : option string :=
  if (sm_selectedIndex sm <? len availableSystems)%Z
  then index availableSystems (sm_selectedIndex sm)
  else Some "".

(** What [HandleNavigation] keeps true of a modal with the list [info]. *)
Definition selection_in_window (info : list string) (sm : SystemModal)
    : Prop :=
  sm_systemInfo sm = info /\ (sm_height sm = 20)%Z /\ (sm_y sm = 1)%Z /\
  (0 <= sm_scrollIndex sm <= sm_selectedIndex sm)%Z /\
  (sm_selectedIndex sm < sm_scrollIndex sm + 14)%Z /\
  (sm_selectedIndex sm <= Z.max 0 (len info - 1))%Z.

(** The bodies that [findDistanceRange] takes into account: not named
    Sun, and not of a semimajor axis [<= 0]. *)
Definition in_range_search (planet : CelestialBody) : bool :=
  negb ((EnglishName planet =? "Sun")
        || (SemimajorAxis planet <=? Fin 0)%f64).

(** ** Sample data

    Bodies as the data loader produces them from a system file; absent
    JSON fields are zero values. *)

Module Samples.

Definition noMass : Mass := {| MassValue := Fin 0; MassExponent := 0 |}.

Definition planet (name : string) (semimajorAxis sideralOrbit : R)
    : CelestialBody :=
  {| EnglishName := name; IsPlanet := true;
     SemimajorAxis := Fin semimajorAxis; Eccentricity := Fin 0;
     BodyMass := noMass; MeanRadius := Fin 0;
     SideralOrbit := Fin sideralOrbit; BodyType := "Planet";
     Temperature := Fin 0; StellarClass := "";
     OrbitalElements := None |}.

(** The first planet of [systems/kepler-452.json]. *)
Definition kepler452b : CelestialBody :=
  planet "Kepler-452b" 156400000 384.843.

(** A star as the loader produces it from a record that gives a name and
    a stellar class only. *)
Definition star (name class : string) : CelestialBody :=
  {| EnglishName := name; IsPlanet := false;
     SemimajorAxis := Fin 0; Eccentricity := Fin 0;
     BodyMass := noMass; MeanRadius := Fin 0;
     SideralOrbit := Fin 0; BodyType := "Star";
     Temperature := Fin 0; StellarClass := class;
     OrbitalElements := None |}.

(** A star with no stellar class, temperature, mass or radius recorded. *)
Definition unclassified : CelestialBody := star "Tabby" "".

(** A star of spectral class A. *)
Definition sirius : CelestialBody := star "Sirius A" "A1V".

(** A brown dwarf of spectral class L. *)
Definition brown_dwarf : CelestialBody := star "Luhman 16A" "L7.5".

(** The Earth, with its orbital period and eccentricity. *)
Definition earth : CelestialBody :=
  {| EnglishName := "Earth"; IsPlanet := true;
     SemimajorAxis := Fin 149598023; Eccentricity := Fin 0.0167;
     BodyMass := {| MassValue := Fin 5.97237; MassExponent := 24 |};
     MeanRadius := Fin 6371.0084;
     SideralOrbit := Fin 365.256; BodyType := "Planet";
     Temperature := Fin 0; StellarClass := "";
     OrbitalElements := None |}.

(** A body with recorded orbital elements. *)
Definition tracked : CelestialBody :=
  {| EnglishName := "Tracked"; IsPlanet := true;
     SemimajorAxis := Fin 5000; Eccentricity := Fin 0;
     BodyMass := noMass; MeanRadius := Fin 0;
     SideralOrbit := Fin 40; BodyType := "Planet";
     Temperature := Fin 0; StellarClass := "";
     OrbitalElements :=
       Some {| MeanAnomaly := Fin 90; Epoch := Time.j2000 |} |}.

(** An instant of the year 2025, and a renderer started one minute
    before it. *)
Definition instant : Time.Time := (1750000000 * Time.Second)%Z.

Definition renderer_at_start : CelestialObjectRenderer :=
  NewCelestialObjectRenderer (NewCircleDrawer AspectRatio) 80 24
    (instant - 60 * Time.Second)%Z.

(** Two planets, at 1 and at 100 distance units. *)
Definition inner : CelestialBody := planet "Inner" 1 10.
Definition outer : CelestialBody := planet "Outer" 100 1000.

End Samples.

(* ================================================================= *)
(** * Part II: properties                                             *)
(* ================================================================= *)

(** ** Facts about the numeric model *)

(** Simplification treats the real numbers as atoms. *)
#[global] Arguments IZR : simpl never.
#[global] Arguments Rlt_dec : simpl never.
#[global] Arguments Rle_dec : simpl never.
#[global] Arguments Req_dec_T : simpl never.
#[global] Arguments ln : simpl never.
#[global] Arguments sqrt : simpl never.
#[global] Arguments sin : simpl never.
#[global] Arguments cos : simpl never.
#[global] Arguments Rpower : simpl never.
#[global] Arguments Int_part : simpl never.
#[global] Arguments Rmin : simpl never.

Module F64Facts.

Import F64.
Open Scope R_scope.

Lemma Rltb_true (x y : R) : Rltb x y = true <-> x < y.
Proof. unfold Rltb; destruct (Rlt_dec x y); split; intros; try easy. Qed.

Lemma Rltb_false (x y : R) : Rltb x y = false <-> y <= x.
Proof.
  unfold Rltb; destruct (Rlt_dec x y); split; intros; try easy; lra.
Qed.

Lemma Reqb_true (x y : R) : Reqb x y = true <-> x = y.
Proof. unfold Reqb; destruct (Req_dec_T x y); split; intros; try easy. Qed.

Lemma Reqb_false (x y : R) : Reqb x y = false <-> x <> y.
Proof. unfold Reqb; destruct (Req_dec_T x y); split; intros; try easy. Qed.

Lemma Reqb_refl (x : R) : Reqb x x = true.
Proof. now apply Reqb_true. Qed.

(** Case analysis on every real comparison of the goal, closing the
    impossible cases by linear arithmetic. *)
Ltac rdec :=
  unfold Rltb, Rleb, Reqb in *;
  repeat match goal with
  | |- context [Rlt_dec ?a ?b] => destruct (Rlt_dec a b); try lra
  | |- context [Rle_dec ?a ?b] => destruct (Rle_dec a b); try lra
  | |- context [Req_dec_T ?a ?b] => destruct (Req_dec_T a b); try lra
  | H : context [Rlt_dec ?a ?b] |- _ => destruct (Rlt_dec a b); try lra
  | H : context [Rle_dec ?a ?b] |- _ => destruct (Rle_dec a b); try lra
  | H : context [Req_dec_T ?a ?b] |- _ => destruct (Req_dec_T a b); try lra
  end.

Lemma lt_Fin (a b : R) : lt (Fin a) (Fin b) = true <-> a < b.
Proof. apply Rltb_true. Qed.

Lemma lt_Fin_false (a b : R) : lt (Fin a) (Fin b) = false <-> b <= a.
Proof. apply Rltb_false. Qed.

Lemma le_Fin (a b : R) : le (Fin a) (Fin b) = true <-> a <= b.
Proof.
  unfold le; cbn. rewrite orb_true_iff, Rltb_true, Reqb_true. lra.
Qed.

Lemma le_Fin_false (a b : R) : le (Fin a) (Fin b) = false <-> b < a.
Proof.
  unfold le; cbn. rewrite orb_false_iff, Rltb_false, Reqb_false. lra.
Qed.

(** Decides the comparisons of two given numbers in the goal. *)
Ltac fcmp :=
  unfold gt, ge;
  repeat match goal with
  | |- context [lt (Fin ?a) (Fin ?b)] =>
      first [ replace (lt (Fin a) (Fin b)) with true
                by (symmetry; apply lt_Fin; lra)
            | replace (lt (Fin a) (Fin b)) with false
                by (symmetry; apply lt_Fin_false; lra) ]
  | |- context [le (Fin ?a) (Fin ?b)] =>
      first [ replace (le (Fin a) (Fin b)) with true
                by (symmetry; apply le_Fin; lra)
            | replace (le (Fin a) (Fin b)) with false
                by (symmetry; apply le_Fin_false; lra) ]
  end.

(** Arithmetic on numbers. *)
Lemma add_Fin (a b : R) : add (Fin a) (Fin b) = Fin (a + b).
Proof. reflexivity. Qed.

Lemma sub_Fin (a b : R) : sub (Fin a) (Fin b) = Fin (a - b).
Proof. reflexivity. Qed.

Lemma mul_Fin (a b : R) : mul (Fin a) (Fin b) = Fin (a * b).
Proof. reflexivity. Qed.

Lemma div_Fin (a b : R) : b <> 0 -> div (Fin a) (Fin b) = Fin (a / b).
Proof. intros Hb; cbn. now rdec. Qed.

Lemma Log_Fin (r : R) : 0 < r -> Log (Fin r) = Fin (ln r).
Proof. intros Hr; cbn. now rdec. Qed.

(** Truncation of an integer. *)
Lemma Int_part_IZR (z : Z) : Int_part (IZR z) = z.
Proof. symmetry. apply Int_part_spec. lra. Qed.

Lemma Rtrunc_IZR (z : Z) : Rtrunc (IZR z) = z.
Proof.
  unfold Rtrunc. destruct (Rle_dec 0 (IZR z)); [apply Int_part_IZR|].
  rewrite <- opp_IZR, Int_part_IZR. lia.
Qed.

Lemma to_int_of_int (z : Z) :
  Int.in_range z = true -> to_int (of_int z) = z.
Proof. intros H. unfold to_int, of_int. now rewrite Rtrunc_IZR, H. Qed.

Lemma Rtrunc_nonneg (r : R) :
  0 <= r -> IZR (Rtrunc r) <= r < IZR (Rtrunc r) + 1.
Proof.
  intros Hr. unfold Rtrunc. destruct (Rle_dec 0 r); [|contradiction].
  pose proof (base_Int_part r). lra.
Qed.

Lemma Rtrunc_neg (r : R) :
  r < 0 -> r <= IZR (Rtrunc r) < r + 1.
Proof.
  intros Hr. unfold Rtrunc. destruct (Rle_dec 0 r); [lra|].
  rewrite opp_IZR. pose proof (base_Int_part (- r)). lra.
Qed.

(** The remainder has the sign of the dividend and a magnitude below the
    divisor. *)
Lemma Mod_range (a b : R) :
  0 < b ->
  exists r : R,
    Mod (Fin a) (Fin b) = Fin r /\ - b < r < b /\
    (0 <= a -> 0 <= r) /\ (a <= 0 -> r <= 0).
Proof.
  intros Hb. unfold Mod.
  replace (Reqb b 0) with false by (symmetry; apply Reqb_false; lra).
  eexists; split; [reflexivity|].
  destruct (Req_dec_T a 0) as [->|Hne].
  - replace (0 / b) with (IZR 0) by (unfold Rdiv; cbn; lra).
    rewrite Rtrunc_IZR. repeat split; intros; lra.
  - pose proof (Rinv_0_lt_compat b Hb) as Hib.
    assert (Ha : a = b * (a / b)) by (field; lra).
    destruct (Rle_dec 0 a) as [Hpos|Hneg].
    + assert (Hq : 0 <= a / b) by (apply Rmult_le_pos; lra).
      pose proof (Rtrunc_nonneg (a / b) Hq) as Ht.
      revert Ha Ht. generalize (IZR (Rtrunc (a / b))), (a / b).
      intros t q -> Ht. repeat split; intros; nra.
    + assert (Hq : a / b < 0).
      { unfold Rdiv. rewrite <- (Rmult_0_l (/ b)).
        apply Rmult_lt_compat_r; lra. }
      pose proof (Rtrunc_neg (a / b) Hq) as Ht.
      revert Ha Ht Hq. generalize (IZR (Rtrunc (a / b))), (a / b).
      intros t q -> Ht Hq. repeat split; intros; nra.
Qed.

Lemma Hours_Fin (d : Z) :
  exists h : R, Time.Hours d = Fin h /\ ((0 <= d)%Z -> 0 <= h).
Proof.
  unfold Time.Hours, of_int. rewrite div_Fin, add_Fin by lra.
  eexists; split; [reflexivity|]. intros Hd.
  assert (H1 : (0 <= Z.quot d Time.Hour)%Z)
    by (apply Z.quot_pos; [exact Hd|now vm_compute]).
  assert (H2 : (0 <= Z.rem d Time.Hour)%Z)
    by (apply Z.rem_nonneg; [now vm_compute|exact Hd]).
  apply IZR_le in H1, H2.
  apply Rplus_le_le_0_compat; [exact H1|].
  apply Rmult_le_pos; [exact H2|]. left. apply Rinv_0_lt_compat. lra.
Qed.

Lemma Seconds_Fin (d : Z) :
  exists h : R, Time.Seconds d = Fin h /\ ((0 <= d)%Z -> 0 <= h).
Proof.
  unfold Time.Seconds, of_int. rewrite div_Fin, add_Fin by lra.
  eexists; split; [reflexivity|]. intros Hd.
  assert (H1 : (0 <= Z.quot d Time.Second)%Z)
    by (apply Z.quot_pos; [exact Hd|now vm_compute]).
  assert (H2 : (0 <= Z.rem d Time.Second)%Z)
    by (apply Z.rem_nonneg; [now vm_compute|exact Hd]).
  apply IZR_le in H1, H2.
  apply Rplus_le_le_0_compat; [exact H1|].
  apply Rmult_le_pos; [exact H2|]. left. apply Rinv_0_lt_compat. lra.
Qed.

Lemma Sub_nonneg (t u : Time.Time) : (u <= t)%Z -> (0 <= Time.Sub t u)%Z.
Proof. unfold Time.Sub, Int.min_int, Int.max_int. lia. Qed.

(** [x - x] is zero or NaN. *)
Lemma sub_diag (x : float64) : sub x x = Fin 0 \/ sub x x = NaN.
Proof.
  destruct x as [|[]|r]; cbn; auto. left; f_equal; lra.
Qed.

(** Nothing divided by zero is a number. *)
Lemma div_zero_not_finite (x : float64) : is_finite (div x (Fin 0)) = false.
Proof.
  destruct x as [|s|r]; cbn; auto.
  rewrite Reqb_refl. now destruct (Reqb r 0).
Qed.

Lemma div_NaN (x : float64) : div x NaN = NaN.
Proof. now destruct x. Qed.

Lemma mul_not_finite (x y : float64) :
  is_finite x = false -> is_finite (mul x y) = false.
Proof.
  destruct x as [|s|r]; cbn; try easy; intros _.
  destruct y as [|s'|r']; cbn; auto. now destruct (Reqb r' 0).
Qed.

Lemma add_not_finite_r (x y : float64) :
  is_finite y = false -> is_finite (add x y) = false.
Proof.
  destruct y as [|s|r]; cbn; try easy; intros _.
  - now destruct x.
  - destruct x as [|s'|r']; cbn; auto. now destruct (Bool.eqb s' s).
Qed.

End F64Facts.

(** ** Slices and grids *)

Module GridFacts.

Open Scope Z_scope.

Lemma update_length {A : Type} (l : list A) :
  forall (n : nat) (v : A) (l' : list A),
  update l n v = Some l' -> List.length l' = List.length l.
Proof.
  induction l as [|a l IH]; intros [|n] v l' H; cbn in H; try discriminate.
  - now injection H as <-.
  - destruct (update l n v) as [r|] eqn:E; [|discriminate].
    injection H as <-. cbn. f_equal. eapply IH, E.
Qed.

Lemma update_nth_eq {A : Type} (l : list A) :
  forall (n : nat) (v : A) (l' : list A),
  update l n v = Some l' -> nth_error l' n = Some v.
Proof.
  induction l as [|a l IH]; intros [|n] v l' H; cbn in H; try discriminate.
  - now injection H as <-.
  - destruct (update l n v) as [r|] eqn:E; [|discriminate].
    injection H as <-. cbn. eapply IH, E.
Qed.

Lemma update_nth_neq {A : Type} (l : list A) :
  forall (n m : nat) (v : A) (l' : list A),
  update l n v = Some l' -> m <> n -> nth_error l' m = nth_error l m.
Proof.
  induction l as [|a l IH]; intros [|n] m v l' H Hm; cbn in H;
    try discriminate.
  - injection H as <-. destruct m; [easy|reflexivity].
  - destruct (update l n v) as [r|] eqn:E; [|discriminate].
    injection H as <-. destruct m; [reflexivity|]. cbn.
    eapply IH; [exact E|lia].
Qed.

Lemma update_some {A : Type} (l : list A) :
  forall (n : nat) (v : A),
  (n < List.length l)%nat -> exists l', update l n v = Some l'.
Proof.
  induction l as [|a l IH]; intros [|n] v H; cbn in *; try lia.
  - eauto.
  - destruct (IH n v ltac:(lia)) as [l' ->]. eauto.
Qed.

Lemma update_map_length {A : Type} (l : list (list A)) :
  forall (n : nat) (row row' : list A) (l' : list (list A)),
  nth_error l n = Some row -> List.length row' = List.length row ->
  update l n row' = Some l' ->
  map (@List.length A) l' = map (@List.length A) l.
Proof.
  induction l as [|a l IH]; intros [|n] row row' l' Hn Hlen H; cbn in *;
    try discriminate.
  - injection H as <-. injection Hn as ->. cbn. now rewrite Hlen.
  - destruct (update l n row') as [r|] eqn:E; [|discriminate].
    injection H as <-. cbn. f_equal. eapply IH; eauto.
Qed.

Lemma index_some {A : Type} (l : list A) (i : Z) (a : A) :
  index l i = Some a -> 0 <= i < len l.
Proof.
  unfold index, len. destruct (i <? 0) eqn:E; [discriminate|].
  intros H. apply Z.ltb_ge in E.
  assert (Hn : nth_error l (Z.to_nat i) <> None) by congruence.
  apply nth_error_Some in Hn. lia.
Qed.

Lemma index_in_range {A : Type} (l : list A) (i : Z) :
  0 <= i < len l -> exists a, index l i = Some a.
Proof.
  unfold index, len. intros H.
  destruct (i <? 0) eqn:E; [apply Z.ltb_lt in E; lia|].
  destruct (nth_error l (Z.to_nat i)) as [a|] eqn:Hn; [eauto|].
  apply nth_error_None in Hn. lia.
Qed.

Lemma store_len {A : Type} (l l' : list A) (i : Z) (v : A) :
  store l i v = Some l' -> len l' = len l.
Proof.
  unfold store, len. destruct (i <? 0); [discriminate|].
  intros H. now rewrite (update_length _ _ _ _ H).
Qed.

Lemma store_index_eq {A : Type} (l l' : list A) (i : Z) (v : A) :
  store l i v = Some l' -> index l' i = Some v.
Proof.
  unfold store, index. destruct (i <? 0); [discriminate|].
  apply update_nth_eq.
Qed.

Lemma store_index_neq {A : Type} (l l' : list A) (i j : Z) (v : A) :
  store l i v = Some l' -> j <> i -> index l' j = index l j.
Proof.
  unfold store, index. destruct (i <? 0) eqn:Ei; [discriminate|].
  intros H Hj. destruct (j <? 0) eqn:Ej; [reflexivity|].
  apply Z.ltb_ge in Ei, Ej. eapply update_nth_neq; [exact H|lia].
Qed.

Lemma store_some {A : Type} (l : list A) (i : Z) (a v : A) :
  index l i = Some a -> exists l', store l i v = Some l'.
Proof.
  intros H. pose proof (index_some _ _ _ H) as Hi. unfold store, len in *.
  destruct (i <? 0) eqn:E; [apply Z.ltb_lt in E; lia|].
  apply update_some. lia.
Qed.

Lemma same_shape_refl (g : Grid) : same_shape g g.
Proof. reflexivity. Qed.

Lemma same_shape_trans (g1 g2 g3 : Grid) :
  same_shape g1 g2 -> same_shape g2 g3 -> same_shape g1 g3.
Proof. unfold same_shape; congruence. Qed.

Lemma same_shape_len (g g' : Grid) : same_shape g g' -> len g' = len g.
Proof.
  unfold same_shape, len. intros H.
  now rewrite <- (length_map (@List.length rune) g), H, length_map.
Qed.

Lemma same_shape_width (g g' : Grid) :
  same_shape g g' -> Grid_width g' = Grid_width g.
Proof.
  unfold same_shape. destruct g as [|r g], g' as [|r' g']; cbn;
    try discriminate; [reflexivity|].
  intros [= H _]. unfold len. now rewrite H.
Qed.

Lemma same_shape_in_grid (g g' : Grid) (x y : Z) :
  same_shape g g' -> in_grid g' x y = in_grid g x y.
Proof.
  intros H. unfold in_grid.
  now rewrite (same_shape_width _ _ H), (same_shape_len _ _ H).
Qed.

Lemma same_shape_well_formed (g g' : Grid) :
  same_shape g g' -> well_formed g -> well_formed g'.
Proof.
  unfold same_shape, well_formed. intros H [Hne [w Hw]]. split.
  - intros ->. destruct g; [easy|discriminate].
  - exists w. clear Hne. revert g' H. induction Hw as [|r g Hr Hg IH];
      intros [|r' g'] H; try discriminate; constructor.
    + injection H as H _. unfold len in *. now rewrite <- H.
    + apply IH. now injection H.
Qed.

(** *** Writing one cell *)

Lemma Grid_set_shape (g g' : Grid) (x y : Z) (s : rune) :
  Grid_set g y x s = Some g' -> same_shape g g'.
Proof.
  unfold Grid_set, same_shape.
  destruct (index g y) as [row|] eqn:Hrow; [|discriminate].
  destruct (store row x s) as [row'|] eqn:Hrow'; [|discriminate].
  intros H. symmetry.
  pose proof (store_len _ _ _ _ Hrow') as Hlen.
  unfold store, index, len in *.
  destruct (y <? 0); [discriminate|].
  eapply update_map_length; [exact Hrow| |exact H]. lia.
Qed.

Lemma Grid_set_get_eq (g g' : Grid) (x y : Z) (s : rune) :
  Grid_set g y x s = Some g' -> Grid_get g' y x = Some s.
Proof.
  unfold Grid_set, Grid_get.
  destruct (index g y) as [row|] eqn:Hrow; [|discriminate].
  destruct (store row x s) as [row'|] eqn:Hrow'; [|discriminate].
  intros H. rewrite (store_index_eq _ _ _ _ H).
  apply (store_index_eq _ _ _ _ Hrow').
Qed.

Lemma Grid_set_get_other (g g' : Grid) (x y x' y' : Z) (s : rune) :
  Grid_set g y x s = Some g' -> (x', y') <> (x, y) ->
  Grid_get g' y' x' = Grid_get g y' x'.
Proof.
  unfold Grid_set, Grid_get.
  destruct (index g y) as [row|] eqn:Hrow; [|discriminate].
  destruct (store row x s) as [row'|] eqn:Hrow'; [|discriminate].
  intros H Hne. destruct (Z.eq_dec y' y) as [->|Hy].
  - rewrite (store_index_eq _ _ _ _ H), Hrow.
    apply (store_index_neq _ _ _ _ _ Hrow'). congruence.
  - now rewrite (store_index_neq _ _ _ _ _ H Hy).
Qed.

Lemma Grid_set_some (g : Grid) (x y : Z) (c s : rune) :
  Grid_get g y x = Some c -> exists g', Grid_set g y x s = Some g'.
Proof.
  unfold Grid_set, Grid_get.
  destruct (index g y) as [row|] eqn:Hrow; [|discriminate]. intros Hc.
  destruct (store_some _ _ _ s Hc) as [row' ->].
  apply (store_some _ _ _ row' Hrow).
Qed.

(** In a well-formed grid every cell in bounds exists. *)
Lemma well_formed_get (g : Grid) (x y : Z) :
  well_formed g -> in_grid g x y = true -> exists c, Grid_get g y x = Some c.
Proof.
  intros [Hne [w Hw]]. unfold in_grid, Grid_width, Grid_get, isInBounds.
  destruct (index g 0) as [row0|] eqn:H0; [|discriminate].
  assert (Hw0 : len row0 = w).
  { unfold index in H0. cbn in H0. destruct g; [easy|].
    injection H0 as <-. now inversion Hw. }
  rewrite Hw0. intros Hb.
  repeat (apply andb_prop in Hb; destruct Hb as [Hb ?]).
  destruct (index_in_range g y ltac:(lia)) as [row Hrow]. rewrite Hrow.
  assert (Hwr : len row = w).
  { rewrite Forall_forall in Hw. apply Hw.
    unfold index in Hrow. destruct (y <? 0); [discriminate|].
    eapply nth_error_In, Hrow. }
  apply index_in_range. lia.
Qed.

Lemma well_formed_width (g : Grid) :
  well_formed g -> exists w, Grid_width g = Some w.
Proof.
  intros [Hne _]. destruct g; [easy|]. unfold Grid_width; cbn. eauto.
Qed.

End GridFacts.

(** ** [CircleDrawer] and [DebrisBeltRenderer] *)

Module DrawingFacts.

Import GridFacts.
Open Scope Z_scope.

(** A loop keeps every reflexive and transitive relation that its body
    keeps. *)
Lemma forEach_preserves {A : Type} (R : Grid -> Grid -> Prop) :
  (forall g, R g g) ->
  (forall g1 g2 g3, R g1 g2 -> R g2 g3 -> R g1 g3) ->
  forall (l : list A) (body : A -> Grid -> option Grid),
  (forall a g g', body a g = Some g' -> R g g') ->
  forall g g', forEach l body g = Some g' -> R g g'.
Proof.
  intros Hrefl Htrans l body Hbody.
  induction l as [|a l IH]; intros g g' H; cbn in H.
  - injection H as <-. apply Hrefl.
  - destruct (body a g) as [g1|] eqn:Ha; [|discriminate].
    eapply Htrans; [eapply Hbody, Ha | apply IH, H].
Qed.

(** A loop does not panic when its body does not, under an invariant. *)
Lemma forEach_total {A : Type} (Inv : Grid -> Prop)
    (l : list A) (body : A -> Grid -> option Grid) :
  (forall a g, Inv g -> exists g', body a g = Some g' /\ Inv g') ->
  forall g, Inv g -> exists g', forEach l body g = Some g' /\ Inv g'.
Proof.
  intros Hbody. induction l as [|a l IH]; intros g Hg; cbn.
  - eauto.
  - destruct (Hbody a g Hg) as [g1 [-> Hg1]]. apply IH, Hg1.
Qed.

Lemma writes_inside_refl (g : Grid) : writes_inside g g.
Proof. split; [reflexivity|auto]. Qed.

Lemma writes_inside_trans (g1 g2 g3 : Grid) :
  writes_inside g1 g2 -> writes_inside g2 g3 -> writes_inside g1 g3.
Proof.
  intros [S12 H12] [S23 H23]. split.
  - eapply same_shape_trans; eauto.
  - intros x y Hout. rewrite H23, H12; auto.
    now rewrite (same_shape_in_grid _ _ x y S12).
Qed.

Lemma keeps_glyphs_refl (g : Grid) : keeps_glyphs g g.
Proof. split; [reflexivity|auto]. Qed.

Lemma keeps_glyphs_trans (g1 g2 g3 : Grid) :
  keeps_glyphs g1 g2 -> keeps_glyphs g2 g3 -> keeps_glyphs g1 g3.
Proof.
  intros [S12 H12] [S23 H23]. split.
  - eapply same_shape_trans; eauto.
  - intros x y c Hc Hnb. apply H23, Hnb. apply H12; auto.
Qed.

(** *** The two guarded writes *)

Lemma plot_writes_inside (g g' : Grid) (x y : Z) (s : rune) :
  plot g x y s = Some g' -> writes_inside g g'.
Proof.
  unfold plot. destruct (Grid_width g) as [w|] eqn:Hw; [|discriminate].
  destruct (isInBounds x y w (len g)) eqn:Hb.
  - intros H. split; [eapply Grid_set_shape, H|].
    intros x' y' Hout. eapply Grid_set_get_other; [exact H|].
    intros [= -> ->]. unfold in_grid in Hout. rewrite Hw in Hout. congruence.
  - intros [= <-]. apply writes_inside_refl.
Qed.

Lemma plotIfBlank_writes_inside (g g' : Grid) (x y : Z) (s : rune) :
  plotIfBlank g x y s = Some g' -> writes_inside g g'.
Proof.
  unfold plotIfBlank. destruct (Grid_width g) as [w|] eqn:Hw; [|discriminate].
  destruct (isInBounds x y w (len g)) eqn:Hb.
  - destruct (Grid_get g y x) as [c|]; [|discriminate].
    destruct (c =? blank).
    + intros H. split; [eapply Grid_set_shape, H|].
      intros x' y' Hout. eapply Grid_set_get_other; [exact H|].
      intros [= -> ->]. unfold in_grid in Hout. rewrite Hw in Hout.
      congruence.
    + intros [= <-]. apply writes_inside_refl.
  - intros [= <-]. apply writes_inside_refl.
Qed.

Lemma plotIfBlank_keeps_glyphs (g g' : Grid) (x y : Z) (s : rune) :
  plotIfBlank g x y s = Some g' -> keeps_glyphs g g'.
Proof.
  unfold plotIfBlank. destruct (Grid_width g) as [w|] eqn:Hw; [|discriminate].
  destruct (isInBounds x y w (len g)) eqn:Hb.
  - destruct (Grid_get g y x) as [c|] eqn:Hc; [|discriminate].
    destruct (c =? blank) eqn:Hblank.
    + apply Z.eqb_eq in Hblank. subst c.
      intros H. split; [eapply Grid_set_shape, H|].
      intros x' y' c' Hc' Hnb.
      rewrite (Grid_set_get_other _ _ _ _ x' y' _ H); [exact Hc'|].
      intros [= -> ->]. congruence.
    + intros [= <-]. apply keeps_glyphs_refl.
  - intros [= <-]. apply keeps_glyphs_refl.
Qed.

Lemma plot_total (g : Grid) (x y : Z) (s : rune) :
  well_formed g -> exists g', plot g x y s = Some g' /\ well_formed g'.
Proof.
  intros Hwf. unfold plot.
  destruct (well_formed_width _ Hwf) as [w Hw]. rewrite Hw.
  destruct (isInBounds x y w (len g)) eqn:Hb; [|eauto].
  destruct (well_formed_get g x y Hwf) as [c Hc].
  { unfold in_grid. now rewrite Hw. }
  destruct (Grid_set_some _ _ _ _ s Hc) as [g' Hg']. exists g'.
  split; [exact Hg'|].
  eapply same_shape_well_formed; [eapply Grid_set_shape, Hg'|exact Hwf].
Qed.

Lemma plotIfBlank_total (g : Grid) (x y : Z) (s : rune) :
  well_formed g -> exists g', plotIfBlank g x y s = Some g' /\ well_formed g'.
Proof.
  intros Hwf. unfold plotIfBlank.
  destruct (well_formed_width _ Hwf) as [w Hw]. rewrite Hw.
  destruct (isInBounds x y w (len g)) eqn:Hb; [|eauto].
  destruct (well_formed_get g x y Hwf) as [c Hc].
  { unfold in_grid. now rewrite Hw. }
  rewrite Hc. destruct (c =? blank); [|eauto].
  destruct (Grid_set_some _ _ _ _ s Hc) as [g' Hg']. exists g'.
  split; [exact Hg'|].
  eapply same_shape_well_formed; [eapply Grid_set_shape, Hg'|exact Hwf].
Qed.

(** *** The drawing procedures *)

Lemma DrawCircle_writes_inside (cd : CircleDrawer) (g g' : Grid)
    (cx cy : Z) (radius : float64) (s : rune) :
  DrawCircle cd g cx cy radius s = Some g' -> writes_inside g g'.
Proof.
  apply (forEach_preserves writes_inside writes_inside_refl
           writes_inside_trans).
  intros i g1 g2. apply plotIfBlank_writes_inside.
Qed.

Lemma DrawCircle_keeps_glyphs (cd : CircleDrawer) (g g' : Grid)
    (cx cy : Z) (radius : float64) (s : rune) :
  DrawCircle cd g cx cy radius s = Some g' -> keeps_glyphs g g'.
Proof.
  apply (forEach_preserves keeps_glyphs keeps_glyphs_refl
           keeps_glyphs_trans).
  intros i g1 g2. apply plotIfBlank_keeps_glyphs.
Qed.

Lemma DrawCircle_total (cd : CircleDrawer) (g : Grid)
    (cx cy : Z) (radius : float64) (s : rune) :
  well_formed g ->
  exists g', DrawCircle cd g cx cy radius s = Some g' /\ well_formed g'.
Proof.
  apply (forEach_total well_formed). intros i g1. apply plotIfBlank_total.
Qed.

Lemma DrawFilledCircle_writes_inside (cd : CircleDrawer) (g g' : Grid)
    (cx cy radius : Z) (s : rune) :
  DrawFilledCircle cd g cx cy radius s = Some g' -> writes_inside g g'.
Proof.
  apply (forEach_preserves writes_inside writes_inside_refl
           writes_inside_trans).
  intros dy g1 g2.
  apply (forEach_preserves writes_inside writes_inside_refl
           writes_inside_trans).
  intros dx g3 g4. apply plot_writes_inside.
Qed.

Lemma DrawFilledCircle_total (cd : CircleDrawer) (g : Grid)
    (cx cy radius : Z) (s : rune) :
  well_formed g ->
  exists g', DrawFilledCircle cd g cx cy radius s = Some g'
             /\ well_formed g'.
Proof.
  apply (forEach_total well_formed). intros dy g1.
  apply (forEach_total well_formed). intros dx g2. apply plot_total.
Qed.

Lemma renderDebrisBelt_keeps_glyphs (dbr : DebrisBeltRenderer)
    (g g' : Grid) (cx cy : Z) (innerRadius outerRadius : float64)
    (angleStep rings : Z) (s : rune) :
  renderDebrisBelt dbr g cx cy innerRadius outerRadius angleStep rings s
  = Some g' ->
  keeps_glyphs g g'.
Proof.
  apply (forEach_preserves keeps_glyphs keeps_glyphs_refl
           keeps_glyphs_trans).
  intros angle g1 g2.
  apply (forEach_preserves keeps_glyphs keeps_glyphs_refl
           keeps_glyphs_trans).
  intros i g3 g4.
  cbv zeta. destruct (CalculatePosition _ _ _ _ _) as [x y].
  apply plotIfBlank_keeps_glyphs.
Qed.

Lemma renderDebrisBelt_total (dbr : DebrisBeltRenderer)
    (g : Grid) (cx cy : Z) (innerRadius outerRadius : float64)
    (angleStep rings : Z) (s : rune) :
  well_formed g ->
  exists g',
    renderDebrisBelt dbr g cx cy innerRadius outerRadius angleStep rings s
    = Some g' /\ well_formed g'.
Proof.
  apply (forEach_total well_formed). intros angle g1.
  apply (forEach_total well_formed). intros i g2.
  cbv zeta. destruct (CalculatePosition _ _ _ _ _) as [x y].
  apply plotIfBlank_total.
Qed.

Lemma RenderAsteroidBelt_keeps_glyphs (dbr : DebrisBeltRenderer)
    (g g' : Grid) (cx cy : Z) (planets : list CelestialBody) :
  RenderAsteroidBelt dbr g cx cy planets = Some g' -> keeps_glyphs g g'.
Proof.
  unfold RenderAsteroidBelt.
  destruct (findPlanetDistances planets "Mars" "Jupiter") as [d1 d2].
  apply renderDebrisBelt_keeps_glyphs.
Qed.

Lemma RenderKuiperBelt_keeps_glyphs (dbr : DebrisBeltRenderer)
    (g g' : Grid) (cx cy : Z) (planets : list CelestialBody) :
  RenderKuiperBelt dbr g cx cy planets = Some g' -> keeps_glyphs g g'.
Proof. apply renderDebrisBelt_keeps_glyphs. Qed.

Lemma RenderAsteroidBelt_total (dbr : DebrisBeltRenderer)
    (g : Grid) (cx cy : Z) (planets : list CelestialBody) :
  well_formed g ->
  exists g', RenderAsteroidBelt dbr g cx cy planets = Some g'
             /\ well_formed g'.
Proof.
  unfold RenderAsteroidBelt.
  destruct (findPlanetDistances planets "Mars" "Jupiter") as [d1 d2].
  apply renderDebrisBelt_total.
Qed.

Lemma RenderKuiperBelt_total (dbr : DebrisBeltRenderer)
    (g : Grid) (cx cy : Z) (planets : list CelestialBody) :
  well_formed g ->
  exists g', RenderKuiperBelt dbr g cx cy planets = Some g'
             /\ well_formed g'.
Proof. apply renderDebrisBelt_total. Qed.

Lemma well_formed_one_cell (c : rune) : well_formed [[c]].
Proof.
  split; [discriminate|]. exists 1. repeat constructor.
Qed.

(** A disc of radius 0 is the one cell of its center. *)
Lemma DrawFilledCircle_radius_0 (g : Grid) (cx cy : Z) (s : rune) :
  DrawFilledCircle (NewCircleDrawer AspectRatio) g cx cy 0 s
  = plot g (Int.add cx 0) (Int.add cy 0) s.
Proof.
  unfold DrawFilledCircle.
  change (Int.range (Int.neg 0) 0) with [0].
  cbn [forEach].
  change (Int.sub (Int.mul 0 0) (Int.mul 0 0)) with 0.
  replace (F64.Sqrt (F64.of_int 0)
           * aspectRatio (NewCircleDrawer AspectRatio))%f64
    with (F64.of_int 0).
  - rewrite F64Facts.to_int_of_int by reflexivity.
    change (Int.range (Int.neg 0) 0) with [0]. cbn [forEach].
    now destruct (plot g (Int.add cx 0) (Int.add cy 0) s).
  - unfold F64.Sqrt, F64.of_int, AspectRatio; cbn.
    F64Facts.rdec. cbn. f_equal. rewrite sqrt_0. lra.
Qed.



(** C6: the circle outline of an orbit path and the stippling of the two
    debris belts leave every glyph of the grid where it is (they write
    into blank cells only) and do not panic on a rectangular grid;
    whereas a filled disc overwrites the glyph at its center. *)
Theorem orbit_paths_and_belts_keep_glyphs
    (cd : CircleDrawer) (dbr : DebrisBeltRenderer) (grid : Grid)
    (centerX centerY : Z) (radius : float64)
    (planets : list CelestialBody) (symbol : rune) :
  (forall grid',
     DrawCircle cd grid centerX centerY radius symbol = Some grid' ->
     keeps_glyphs grid grid') /\
  (forall grid',
     RenderAsteroidBelt dbr grid centerX centerY planets = Some grid' ->
     keeps_glyphs grid grid') /\
  (forall grid',
     RenderKuiperBelt dbr grid centerX centerY planets = Some grid' ->
     keeps_glyphs grid grid') /\
  (forall (innerRadius outerRadius : float64) (angleStep rings : Z) grid',
     renderDebrisBelt dbr grid centerX centerY innerRadius outerRadius
       angleStep rings symbol = Some grid' ->
     keeps_glyphs grid grid') /\
  (well_formed grid ->
   (exists grid',
      DrawCircle cd grid centerX centerY radius symbol = Some grid') /\
   (exists grid',
      RenderAsteroidBelt dbr grid centerX centerY planets = Some grid') /\
   (exists grid',
      RenderKuiperBelt dbr grid centerX centerY planets = Some grid')) /\
  DrawFilledCircle (NewCircleDrawer AspectRatio) [[orbit_glyph]] 0 0 0
    sun_glyph = Some [[sun_glyph]].
Proof.
  split; [intros g'; apply DrawCircle_keeps_glyphs|].
  split; [intros g'; apply RenderAsteroidBelt_keeps_glyphs|].
  split; [intros g'; apply RenderKuiperBelt_keeps_glyphs|].
  split; [intros i o a r g'; apply renderDebrisBelt_keeps_glyphs|].
  split.
  - intros Hwf. repeat split.
    + destruct (DrawCircle_total cd grid centerX centerY radius symbol Hwf)
        as [g' [H _]]. eauto.
    + destruct (RenderAsteroidBelt_total dbr grid centerX centerY planets
                  Hwf) as [g' [H _]]. eauto.
    + destruct (RenderKuiperBelt_total dbr grid centerX centerY planets
                  Hwf) as [g' [H _]]. eauto.
  - rewrite DrawFilledCircle_radius_0. reflexivity.
Qed.

Lemma orbit_paths_and_belts_keep_glyphs_witness :
  well_formed [[sun_glyph]] /\
  exists grid',
    RenderKuiperBelt
      (NewDebrisBeltRenderer (NewCircleDrawer AspectRatio)
         (NewDistanceScaler 80 24))
      [[sun_glyph]] 0 0 [] = Some grid'
    /\ Grid_get grid' 0 0 = Some sun_glyph.
Proof.
  split; [apply well_formed_one_cell|].
  destruct (orbit_paths_and_belts_keep_glyphs (NewCircleDrawer AspectRatio)
              (NewDebrisBeltRenderer (NewCircleDrawer AspectRatio)
                 (NewDistanceScaler 80 24))
              [[sun_glyph]] 0 0 (Fin 9) [] orbit_glyph)
    as (_ & _ & Hkeep & _ & Htotal & _).
  destruct (Htotal (well_formed_one_cell sun_glyph)) as (_ & _ & [g' Hg']).
  exists g'. split; [exact Hg'|].
  apply (Hkeep g' Hg'); [reflexivity|discriminate].
Defined.

End DrawingFacts.

(** ** Orbital angles *)

Module AngleFacts.

Import F64 F64Facts Orbital.
Open Scope R_scope.

Lemma two_pi_pos : 0 < 2 * PI.
Proof. pose proof PI_RGT_0. lra. Qed.

Lemma Mod_TwoPi_Fin (x : R) :
  exists r : R,
    Mod (Fin x) TwoPi = Fin r /\ - (2 * PI) < r < 2 * PI /\
    (0 <= x -> 0 <= r).
Proof.
  destruct (Mod_range x (2 * PI) two_pi_pos) as (r & Hr & Hb & Hpos & _).
  exists r. auto.
Qed.

(** Case analysis on the guard [period <= 0]. *)
Lemma period_guard (P : R) :
  ((Fin P <=? Fin 0)%f64 = true /\ P <= 0) \/
  ((Fin P <=? Fin 0)%f64 = false /\ 0 < P).
Proof.
  destruct (Rle_dec P 0) as [H|H].
  - left. split; [apply le_Fin|]; lra.
  - right. split; [apply le_Fin_false|]; lra.
Qed.

(** An angle advanced by the mean motion over [d] nanoseconds. *)
Lemma advanced_angle (a0 P : R) (d : Z) :
  0 < P ->
  exists r : R,
    Mod (Fin a0 + TwoPi / Fin P * (Time.Hours d / Fin 24.0))%f64 TwoPi
    = Fin r /\
    - (2 * PI) < r < 2 * PI /\ (0 <= a0 -> (0 <= d)%Z -> 0 <= r).
Proof.
  intros HP. destruct (Hours_Fin d) as (h & -> & Hh).
  unfold TwoPi at 1. rewrite !div_Fin, mul_Fin, add_Fin by lra.
  destruct (Mod_TwoPi_Fin (a0 + 2 * PI / P * (h / 24.0)))
    as (r & Hr & Hb & Hpos).
  exists r. split; [exact Hr|]. split; [exact Hb|]. intros Ha Hd.
  apply Hpos. pose proof two_pi_pos. pose proof (Hh Hd).
  pose proof (Rinv_0_lt_compat P HP).
  assert (0 <= 2 * PI / P * (h / 24.0)); [|lra].
  apply Rmult_le_pos; [apply Rmult_le_pos|]; lra.
Qed.

(** The generic strategy, as it is written in [GenericCalculator],
    [calculateGenericMeanAnomaly] and [calculateCurrentMeanAnomaly]. *)
Lemma generic_strategy (a P rad : R) (d : Z) :
  exists r : R,
    (if (Fin P <=? Fin 0)%f64
     then Mod ((Fin a + Fin P + Fin rad) * Fin 0.01745329)%f64 TwoPi
     else Mod (Mod ((Fin a + Fin P + Fin rad) * Fin 0.01745329)%f64 TwoPi
               + TwoPi / Fin P * (Time.Hours d / Fin 24.0))%f64 TwoPi)
    = Fin r /\
    - (2 * PI) < r < 2 * PI /\
    (0 <= a + P + rad -> (0 <= d)%Z -> 0 <= r).
Proof.
  rewrite !add_Fin, mul_Fin.
  destruct (Mod_TwoPi_Fin ((a + P + rad) * 0.01745329))
    as (r0 & Hr0 & Hb0 & Hpos0). rewrite Hr0.
  destruct (period_guard P) as [[-> HP]|[-> HP]].
  - exists r0. split; [reflexivity|]. split; [exact Hb0|].
    intros Hseed _. apply Hpos0. nra.
  - destruct (advanced_angle r0 P d HP) as (r & Hr & Hb & Hpos).
    exists r. split; [exact Hr|]. split; [exact Hb|].
    intros Hseed Hd. apply Hpos; [apply Hpos0; nra|exact Hd].
Qed.

(** A strategy that starts from a tabulated or recorded angle. *)
Lemma epoch_strategy (a0 P : R) (d : Z) :
  0 <= a0 < 2 * PI ->
  exists r : R,
    (if (Fin P <=? Fin 0)%f64 then Fin a0
     else Mod (Fin a0 + TwoPi / Fin P * (Time.Hours d / Fin 24.0))%f64
            TwoPi)
    = Fin r /\
    - (2 * PI) < r < 2 * PI /\ ((0 <= d)%Z -> 0 <= r).
Proof.
  intros Ha0. destruct (period_guard P) as [[-> HP]|[-> HP]].
  - exists a0. split; [reflexivity|]. split; [lra|]. intros _; lra.
  - destruct (advanced_angle a0 P d HP) as (r & Hr & Hb & Hpos).
    exists r. split; [exact Hr|]. split; [exact Hb|].
    intros Hd. apply Hpos; [lra|exact Hd].
Qed.

(** Every tabulated anomaly lies in [[0, 2 pi)]. *)
Lemma j2000MeanAnomalies_range (name : string) (v : float64) :
  lookup j2000MeanAnomalies name = Some v ->
  exists a0 : R, v = Fin a0 /\ 0 <= a0 < 2 * PI.
Proof.
  pose proof PI_RGT_0 as Hpi. unfold j2000MeanAnomalies. cbn [lookup].
  repeat match goal with
         | |- context [if ?b then _ else _] => destruct b
         end; intros [= <-]; eexists; (split; [reflexivity|lra]).
Qed.

Lemma generic_anomaly_range
    (gc : GenericCalculator) (body : CelestialBody) (t : Time.Time)
    (a P rad : R) :
  SemimajorAxis body = Fin a -> SideralOrbit body = Fin P ->
  MeanRadius body = Fin rad ->
  signed_angle (GenericCalculator_CalculateMeanAnomaly gc body t) /\
  (0 <= a + P + rad -> (gc_epochTime gc <= t)%Z ->
   angle (GenericCalculator_CalculateMeanAnomaly gc body t)).
Proof.
  intros Ha HP Hrad. unfold GenericCalculator_CalculateMeanAnomaly.
  rewrite Ha, HP, Hrad. cbv zeta.
  destruct (generic_strategy a P rad (Time.Sub t (gc_epochTime gc)))
    as (r & -> & Hb & Hpos).
  split; [exists r; auto|]. intros Hseed Ht. exists r.
  split; [reflexivity|]. split; [|lra].
  apply Hpos; [exact Hseed|apply Sub_nonneg, Ht].
Qed.







(** *** The renderer's angle *)

Lemma calculateGenericMeanAnomaly_Fin
    (cor : CelestialObjectRenderer) (planet : CelestialBody)
    (now : Time.Time) (a P rad : R) :
  SemimajorAxis planet = Fin a -> SideralOrbit planet = Fin P ->
  MeanRadius planet = Fin rad ->
  exists c : R,
    calculateGenericMeanAnomaly cor planet now = Fin c /\
    - (2 * PI) < c < 2 * PI /\
    (0 <= a + P + rad -> (epochTime cor <= now)%Z -> 0 <= c).
Proof.
  intros Ha HP Hrad. unfold calculateGenericMeanAnomaly, Since.
  rewrite Ha, HP, Hrad. cbv zeta.
  destruct (generic_strategy a P rad (Time.Sub now (epochTime cor)))
    as (r & -> & Hb & Hpos).
  exists r. split; [reflexivity|]. split; [exact Hb|].
  intros Hseed Ht. apply Hpos; [exact Hseed|apply Sub_nonneg, Ht].
Qed.

Lemma calculateCurrentMeanAnomaly_Fin
    (cor : CelestialObjectRenderer) (planet : CelestialBody)
    (now : Time.Time) (a P rad : R) :
  SemimajorAxis planet = Fin a -> SideralOrbit planet = Fin P ->
  MeanRadius planet = Fin rad ->
  exists c : R,
    calculateCurrentMeanAnomaly cor planet now = Fin c /\
    - (2 * PI) < c < 2 * PI /\
    (0 <= a + P + rad -> (epochTime cor <= now)%Z ->
     (Time.j2000 <= now)%Z -> 0 <= c).
Proof.
  intros Ha HP Hrad. unfold calculateCurrentMeanAnomaly.
  destruct (isOurSolarSystem planet).
  - unfold calculateSolarSystemMeanAnomaly.
    destruct (lookup j2000MeanAnomalies (EnglishName planet))
      as [v|] eqn:Hv.
    + destruct (j2000MeanAnomalies_range _ _ Hv) as (a0 & -> & Ha0).
      rewrite HP. cbv zeta.
      destruct (epoch_strategy a0 P (Time.Sub now Time.j2000) Ha0)
        as (r & -> & Hb & Hpos).
      exists r. split; [reflexivity|]. split; [exact Hb|].
      intros _ _ Ht. apply Hpos, Sub_nonneg, Ht.
    + destruct (calculateGenericMeanAnomaly_Fin cor planet now a P rad
                  Ha HP Hrad) as (c & Hc & Hb & Hpos).
      exists c. split; [exact Hc|]. split; [exact Hb|]. auto.
  - unfold Since. rewrite Ha, HP, Hrad. cbv zeta.
    destruct (generic_strategy a P rad (Time.Sub now (epochTime cor)))
      as (r & -> & Hb & Hpos).
    exists r. split; [reflexivity|]. split; [exact Hb|].
    intros Hseed Ht _. apply Hpos; [exact Hseed|apply Sub_nonneg, Ht].
Qed.

(** The eccentricity correction keeps a non-negative anomaly
    non-negative, for an eccentricity of at most 1. *)
Lemma true_anomaly_nonneg (M e : R) :
  0 <= M -> 0 <= e <= 1 -> 0 <= M + 2 * e * sin M.
Proof.
  intros HM He. destruct (Rle_dec M PI) as [Hle|Hgt].
  - pose proof (sin_ge_0 M HM Hle). nra.
  - pose proof (SIN_bound M) as [Hs _]. pose proof PI2_3_2. nra.
Qed.

(** The animated mean anomaly of a body with a positive period. *)
Lemma calculateMeanAnomaly_Fin
    (cor : CelestialObjectRenderer) (planet : CelestialBody)
    (now : Time.Time) (a P rad : R) :
  SemimajorAxis planet = Fin a -> SideralOrbit planet = Fin P ->
  MeanRadius planet = Fin rad -> 0 < P ->
  exists M : R,
    calculateMeanAnomaly cor planet now = Fin M /\
    (0 <= a + P + rad -> (epochTime cor <= now)%Z ->
     (startTime cor <= now)%Z -> (Time.j2000 <= now)%Z -> 0 <= M).
Proof.
  intros Ha HP Hrad HP0. unfold calculateMeanAnomaly, Since.
  destruct (calculateCurrentMeanAnomaly_Fin cor planet now a P rad
              Ha HP Hrad) as (c & -> & _ & Hc).
  destruct (Seconds_Fin (Time.Sub now (startTime cor))) as (sec & -> & Hsec).
  rewrite HP. cbv zeta. unfold TwoPi.
  rewrite !mul_Fin, div_Fin, !mul_Fin, add_Fin by lra.
  eexists; split; [reflexivity|]. intros Hseed He Hs Hj.
  pose proof (Hc Hseed He Hj). pose proof (Hsec (Sub_nonneg _ _ Hs)).
  pose proof two_pi_pos.
  assert (0 < / (P * 24 * 3600)) by (apply Rinv_0_lt_compat; lra).
  assert (0 <= 2 * PI / (P * 24 * 3600) * sec * 864000.0); [|lra].
  apply Rmult_le_pos; [apply Rmult_le_pos; [|assumption]|lra].
  unfold Rdiv. apply Rmult_le_pos; lra.
Qed.



(** *** Bodies without a positive period *)

(** For a body whose period is [<= 0], no strategy advances the angle:
    the calculators return the same value at any two instants (the
    reduced seed angle, the tabulated anomaly, the reduced recorded
    anomaly) and the renderer draws the body at angle 0. *)
Theorem nonpositive_period_angle_is_constant
    (gc : GenericCalculator) (sc : SolarSystemCalculator)
    (ec : ExactCalculator) (cor : CelestialObjectRenderer)
    (body : CelestialBody) (t1 t2 : Time.Time) :
  (SideralOrbit body <=? Fin 0)%f64 = true ->
  GenericCalculator_CalculateMeanAnomaly gc body t1
  = GenericCalculator_CalculateMeanAnomaly gc body t2 /\
  SolarSystemCalculator_CalculateMeanAnomaly sc body t1
  = SolarSystemCalculator_CalculateMeanAnomaly sc body t2 /\
  ExactCalculator_CalculateMeanAnomaly ec body t1
  = ExactCalculator_CalculateMeanAnomaly ec body t2 /\
  calculateCurrentMeanAnomaly cor body t1
  = calculateCurrentMeanAnomaly cor body t2 /\
  getOrbitalAngle cor body t1 = Fin 0 /\
  (forall v : float64,
     lookup j2000MeanAnomalies (EnglishName body) = Some v ->
     SolarSystemCalculator_CalculateMeanAnomaly sc body t1 = v).
Proof.
  intros HP.
  unfold SolarSystemCalculator_CalculateMeanAnomaly,
    ExactCalculator_CalculateMeanAnomaly, calculateCurrentMeanAnomaly,
    calculateSolarSystemMeanAnomaly, calculateGenericMeanAnomaly,
    GenericCalculator_CalculateMeanAnomaly, getOrbitalAngle.
  rewrite !HP.
  repeat split; try reflexivity;
    try (destruct (OrbitalElements body); reflexivity).
  intros v Hv. rewrite Hv. reflexivity.
Qed.

Lemma nonpositive_period_angle_is_constant_witness :
  (SideralOrbit Samples.unclassified <=? Fin 0)%f64 = true /\
  getOrbitalAngle Samples.renderer_at_start Samples.unclassified
    Samples.instant = Fin 0.
Proof.
  assert (H : (SideralOrbit Samples.unclassified <=? Fin 0)%f64 = true)
    by (apply le_Fin; lra).
  split; [exact H|].
  apply (nonpositive_period_angle_is_constant
           (NewGenericCalculator 0%Z) (NewSolarSystemCalculator 0%Z)
           NewExactCalculator Samples.renderer_at_start
           Samples.unclassified Samples.instant 0%Z H).
Defined.

(** *** The choice of the strategy *)

(** The table of the known bodies and the table of the J2000.0 anomalies
    have the same keys: a body gets the known-ephemeris calculator
    exactly when its anomaly is tabulated, so that calculator never takes
    its generic fallback when the factory chose it. *)
Theorem solar_tables_have_the_same_keys (body : CelestialBody) :
  (isSolarSystemBody body = true <->
   lookup j2000MeanAnomalies (EnglishName body) <> None) /\
  isOurSolarSystem body = isSolarSystemBody body /\
  (lookup knownSymbols (EnglishName body) = None ->
   isSolarSystemBody body = false).
Proof.
  unfold isSolarSystemBody, isOurSolarSystem, knownSolarSystemBodies,
    j2000MeanAnomalies, knownSymbols.
  cbn [lookup].
  repeat match goal with
         | |- context [if ?b then _ else _] => destruct b
         end;
    (split; [split; [intros; discriminate|intros H; congruence]
            |split; [reflexivity|intros; congruence]]).
Qed.

(** The renderer computes the anomaly of a body without recorded
    elements as the calculator that the factory chooses for the body
    does, with the renderer's epoch. *)
Theorem renderer_agrees_with_calculator
    (cor : CelestialObjectRenderer) (planet : CelestialBody)
    (now : Time.Time) :
  OrbitalElements planet = None ->
  calculateCurrentMeanAnomaly cor planet now
  = call_CalculateMeanAnomaly (CreateCalculator planet (epochTime cor))
      planet now.
Proof.
  intros Hel.
  unfold calculateCurrentMeanAnomaly, CreateCalculator, isOurSolarSystem,
    isSolarSystemBody.
  destruct (lookup knownSolarSystemBodies (EnglishName planet)) as [[|]|];
    rewrite ?Hel; cbn [call_CalculateMeanAnomaly CalculateMeanAnomaly
                        SolarSystemCalculator_Calculator
                        GenericCalculator_Calculator];
    reflexivity.
Qed.

Lemma renderer_agrees_with_calculator_witness :
  OrbitalElements Samples.kepler452b = None /\
  calculateCurrentMeanAnomaly Samples.renderer_at_start Samples.kepler452b
    Samples.instant
  = GenericCalculator_CalculateMeanAnomaly
      (NewGenericCalculator (epochTime Samples.renderer_at_start))
      Samples.kepler452b Samples.instant.
Proof.
  split; [reflexivity|].
  apply (renderer_agrees_with_calculator Samples.renderer_at_start
           Samples.kepler452b Samples.instant eq_refl).
Defined.

(** The renderer never consults the recorded orbital elements: two
    bodies with the same name, semimajor axis, period, radius and
    eccentricity are drawn at the same angle. *)
Theorem getOrbitalAngle_ignores_orbital_elements
    (cor : CelestialObjectRenderer) (p q : CelestialBody)
    (now : Time.Time) :
  EnglishName p = EnglishName q -> SemimajorAxis p = SemimajorAxis q ->
  SideralOrbit p = SideralOrbit q -> MeanRadius p = MeanRadius q ->
  Eccentricity p = Eccentricity q ->
  getOrbitalAngle cor p now = getOrbitalAngle cor q now.
Proof.
  intros Hn Ha HP Hr He.
  unfold getOrbitalAngle, calculateMeanAnomaly, calculateCurrentMeanAnomaly,
    calculateSolarSystemMeanAnomaly, calculateGenericMeanAnomaly,
    isOurSolarSystem.
  now rewrite Hn, Ha, HP, Hr, He.
Qed.

Lemma getOrbitalAngle_ignores_orbital_elements_witness :
  getOrbitalAngle Samples.renderer_at_start Samples.tracked Samples.instant
  = getOrbitalAngle Samples.renderer_at_start
      (Samples.planet "Tracked" 5000 40) Samples.instant.
Proof.
  apply (getOrbitalAngle_ignores_orbital_elements
           Samples.renderer_at_start Samples.tracked
           (Samples.planet "Tracked" 5000 40) Samples.instant);
    reflexivity.
Defined.

End AngleFacts.

(** ** Runes of a string *)

Module Utf8Facts.

Import Utf8.
Open Scope Z_scope.

Lemma lor_bound (n a b : Z) :
  0 < n -> 0 <= a < 2 ^ n -> 0 <= b < 2 ^ n -> 0 <= Z.lor a b < 2 ^ n.
Proof.
  intros Hn Ha Hb.
  assert (H0 : 0 <= Z.lor a b) by (apply Z.lor_nonneg; lia).
  split; [exact H0|].
  destruct (Z.eq_dec (Z.lor a b) 0) as [->|Hne];
    [apply Z.pow_pos_nonneg; lia|].
  apply Z.log2_lt_pow2; [lia|].
  rewrite Z.log2_lor by lia.
  assert (Hla : Z.log2 a < n).
  { destruct (Z.eq_dec a 0) as [->|]; [cbn; lia|].
    apply Z.log2_lt_pow2; lia. }
  assert (Hlb : Z.log2 b < n).
  { destruct (Z.eq_dec b 0) as [->|]; [cbn; lia|].
    apply Z.log2_lt_pow2; lia. }
  lia.
Qed.

(** A continuation byte's payload, shifted into place. *)
Lemma payload_bound (s k : Z) :
  0 <= k <= 12 -> 0 <= Z.shiftl (Z.land s 0x3F) k < 2 ^ 21.
Proof.
  intros Hk. change 0x3F with (Z.ones 6).
  rewrite Z.land_ones, Z.shiftl_mul_pow2 by lia.
  pose proof (Z.mod_pos_bound s (2 ^ 6) ltac:(lia)) as Hs.
  assert (Hp : 0 < 2 ^ k <= 2 ^ 12).
  { split; [apply Z.pow_pos_nonneg; lia|apply Z.pow_le_mono_r; lia]. }
  change (2 ^ 6) with 64 in *. change (2 ^ 12) with 4096 in *.
  change (2 ^ 21) with 2097152. nia.
Qed.

Lemma payload0_bound (s : Z) : 0 <= Z.land s 0x3F < 2 ^ 21.
Proof. apply (payload_bound s 0). lia. Qed.

Lemma lead_bound (s m k : Z) :
  (m = 5 /\ k = 6) \/ (m = 4 /\ k = 12) \/ (m = 3 /\ k = 18) ->
  0 <= Z.shiftl (Z.land s (Z.ones m)) k < 2 ^ 21.
Proof.
  intros Hm. rewrite Z.land_ones, Z.shiftl_mul_pow2 by lia.
  pose proof (Z.mod_pos_bound s (2 ^ m) ltac:(apply Z.pow_pos_nonneg; lia))
    as Hs.
  destruct Hm as [[-> ->]|[[-> ->]|[-> ->]]];
    change (2 ^ 21) with 2097152; cbn in *; lia.
Qed.

Lemma DecodeRune_bound (s : list Z) :
  Forall (fun b => 0 <= b) s -> 0 <= fst (DecodeRune s) < 2 ^ 21.
Proof.
  intros Hs. unfold DecodeRune, RuneError.
  destruct s as [|s0 rest]; [cbn; lia|].
  assert (H0 : 0 <= s0) by now inversion Hs.
  destruct (s0 <? 0x80) eqn:Hascii; [apply Z.ltb_lt in Hascii; cbn; lia|].
  match goal with
  | |- context [match ?t with (_, _) => _ end] =>
      destruct t as [[sz lo] hi]
  end.
  destruct (sz =? 0); [cbn; lia|].
  destruct (len (s0 :: rest) <? sz); [cbn; lia|].
  destruct rest as [|s1 rest]; [cbn; lia|].
  destruct ((s1 <? lo) || (hi <? s1)); [cbn; lia|].
  destruct (sz <=? 2); [|destruct rest as [|s2 rest]; [cbn; lia|];
    destruct (negb (continuation s2)); [cbn; lia|];
    destruct (sz <=? 3); [|destruct rest as [|s3 rest]; [cbn; lia|];
      destruct (negb (continuation s3)); [cbn; lia|]]];
  cbn [fst];
  repeat apply lor_bound; try lia;
    match goal with
    | |- _ <= Z.land _ 63 < _ => apply payload0_bound
    | |- _ <= Z.shiftl (Z.land _ 63) _ < _ => apply payload_bound; lia
    | |- _ <= Z.shiftl (Z.land _ 31) _ < _ =>
        apply (lead_bound _ 5 6); tauto
    | |- _ <= Z.shiftl (Z.land _ 15) _ < _ =>
        apply (lead_bound _ 4 12); tauto
    | |- _ <= Z.shiftl (Z.land _ 7) _ < _ =>
        apply (lead_bound _ 3 18); tauto
    end.
Qed.

Lemma skipn_Forall {A : Type} (P : A -> Prop) (n : nat) (l : list A) :
  Forall P l -> Forall P (skipn n l).
Proof.
  revert l; induction n as [|n IH]; intros [|a l] H; cbn; auto.
  apply IH. now inversion H.
Qed.

Lemma decode_bound (fuel : nat) :
  forall s : list Z,
  Forall (fun b => 0 <= b) s ->
  Forall (fun r => 0 <= r < 2 ^ 21) (decode fuel s).
Proof.
  induction fuel as [|fuel IH]; intros s Hs; [constructor|].
  destruct s as [|s0 rest]; [constructor|]. cbn [decode].
  pose proof (DecodeRune_bound (s0 :: rest) Hs) as Hr.
  destruct (DecodeRune (s0 :: rest)) as [r size]. constructor; [exact Hr|].
  apply IH, skipn_Forall, Hs.
Qed.

Lemma runes_bound (name : string) :
  Forall (fun r => 0 <= r < 2 ^ 21) (runes name).
Proof.
  apply decode_bound. unfold bytes. apply Forall_map, Forall_forall.
  intros c _. lia.
Qed.

End Utf8Facts.

(** ** Glyphs *)

Module GlyphFacts.

Import F64 F64Facts.

Lemma classifyByTemperature_in (temp : float64) :
  In (classifyByTemperature temp) fallback_classes.
Proof.
  unfold classifyByTemperature, fallback_classes.
  repeat match goal with
         | |- context [if ?b then _ else _] => destruct b
         end; cbn; tauto.
Qed.

(** Without a recorded class, the class is one of the seven. *)
Lemma getStellarClass_fallback (star : CelestialBody) :
  StellarClass star = "" -> In (getStellarClass star) fallback_classes.
Proof.
  intros Hclass. unfold getStellarClass, getStellarClassField, getTemperature.
  rewrite Hclass. cbn [String.eqb negb].
  destruct (Temperature star >? Fin 0)%f64;
    [apply classifyByTemperature_in|].
  unfold fallback_classes.
  repeat match goal with
         | |- context [if ?b then _ else _] => destruct b
         end; cbn; tauto.
Qed.

Lemma getStellarClass_recorded (star : CelestialBody) :
  StellarClass star <> "" -> getStellarClass star = StellarClass star.
Proof.
  intros Hclass. unfold getStellarClass, getStellarClassField.
  destruct (String.eqb_spec (StellarClass star) ""); [contradiction|].
  reflexivity.
Qed.

Lemma getStellarClass_nonempty (star : CelestialBody) :
  getStellarClass star <> "".
Proof.
  destruct (string_dec (StellarClass star) "") as [He|Hne].
  - pose proof (getStellarClass_fallback star He) as Hin.
    unfold fallback_classes in Hin. cbn in Hin.
    intuition (try congruence).
  - now rewrite getStellarClass_recorded.
Qed.

Lemma getStarSymbol_star_glyph (star : CelestialBody) :
  exists glyph, getStarSymbol star = Some glyph /\ In glyph star_glyphs.
Proof.
  unfold getStarSymbol.
  destruct (getStellarClass star) as [|c rest] eqn:Hclass.
  - now apply getStellarClass_nonempty in Hclass.
  - cbn [first_byte]. unfold star_glyphs, class_glyphs.
    repeat match goal with
           | |- context [if ?b then _ else _] => destruct b
           end; eexists; (split; [reflexivity|cbn; tauto]).
Qed.

(** Without a recorded class, the glyph is that of the derived class. *)
Lemma getStarSymbol_unclassified (star : CelestialBody) :
  StellarClass star = "" ->
  exists glyph, getStarSymbol star = Some glyph /\ In glyph class_glyphs.
Proof.
  intros Hclass. pose proof (getStellarClass_fallback star Hclass) as Hin.
  unfold getStarSymbol, fallback_classes, class_glyphs in *. cbn in Hin.
  destruct Hin as [<-|[<-|[<-|[<-|[<-|[<-|[<-|[]]]]]]]]; cbn;
    eexists; (split; [reflexivity|cbn; tauto]).
Qed.

Lemma getStarSymbol_recorded (star : CelestialBody) (c : ascii)
    (rest : string) :
  StellarClass star = String c rest ->
  getStarSymbol star =
  Some (if (c =? "O")%char || (c =? "B")%char then blue_star_glyph
        else if (c =? "A")%char || (c =? "F")%char then white_star_glyph
        else if (c =? "G")%char then sun_glyph
        else if (c =? "K")%char then orange_star_glyph
        else if (c =? "M")%char then red_star_glyph
        else if EnglishName star =? "Sun" then sun_glyph
        else generic_star_glyph).
Proof.
  intros Hclass. unfold getStarSymbol.
  rewrite getStellarClass_recorded by (rewrite Hclass; discriminate).
  rewrite Hclass. cbn [first_byte].
  repeat match goal with
         | |- context [if ?b then _ else _] => destruct b
         end; reflexivity.
Qed.

(** *** The palette of the other bodies *)

Lemma symbol_hash_step (hash char : Z) :
  (0 <= hash < 20)%Z -> (0 <= char < 2 ^ 21)%Z ->
  (0 <= Int.rem (Int.add hash char) (len genericSymbols) < 20)%Z.
Proof.
  intros Hh Hc. unfold Int.rem, Int.add, Int.wrap64.
  change (len genericSymbols) with 20%Z.
  change (2 ^ 21)%Z with 2097152%Z in Hc.
  rewrite Z.mod_small by lia.
  apply Z.rem_bound_pos; lia.
Qed.

Lemma symbol_hash_bound (name : string) : (0 <= symbol_hash name < 20)%Z.
Proof.
  unfold symbol_hash. pose proof (Utf8Facts.runes_bound name) as Hr.
  assert (H : forall (l : list rune) (h : Z),
             Forall (fun r => 0 <= r < 2 ^ 21)%Z l -> (0 <= h < 20)%Z ->
             (0 <= fold_left
                     (fun hash char =>
                        Int.rem (Int.add hash char) (len genericSymbols))
                     l h < 20)%Z).
  { induction l as [|c l IH]; intros h Hl Hh; cbn; [exact Hh|].
    inversion Hl; subst. apply IH; [assumption|].
    now apply symbol_hash_step. }
  apply H; [exact Hr|lia].
Qed.

Lemma generateGenericSymbol_in_palette (name : string) :
  exists glyph,
    generateGenericSymbol name = Some glyph /\ In glyph genericSymbols.
Proof.
  unfold generateGenericSymbol.
  pose proof (symbol_hash_bound name) as Hb.
  destruct (GridFacts.index_in_range genericSymbols (symbol_hash name))
    as [glyph Hg]; [exact Hb|].
  exists glyph. split; [exact Hg|].
  unfold index in Hg. destruct (symbol_hash name <? 0)%Z; [discriminate|].
  eapply nth_error_In, Hg.
Qed.

Lemma GetPlanetSymbol_samples :
  GetPlanetSymbol "Earth" = Some 0x2641%Z /\
  symbol_hash "Kepler-452b" = 9%Z /\
  GetPlanetSymbol "Kepler-452b" = Some 0x1F30D%Z /\
  Utf8.runes "Cérès" = [0x43; 0xE9; 0x72; 0xE8; 0x73]%Z /\
  GetPlanetSymbol "Cérès" = Some 0x25C9%Z.
Proof. repeat split; vm_compute; reflexivity. Qed.

Lemma getStarMass_unclassified :
  getStarMass Samples.unclassified = Fin 1.989e30.
Proof.
  unfold getStarMass.
  change (MassValue (BodyMass Samples.unclassified)) with (Fin 0).
  change (MeanRadius Samples.unclassified) with (Fin 0).
  fcmp. reflexivity.
Qed.

Lemma getStarSymbol_unclassified_sample :
  getStellarClass Samples.unclassified = "G5V" /\
  getStarSymbol Samples.unclassified = Some sun_glyph.
Proof.
  assert (H : getStellarClass Samples.unclassified = "G5V").
  { unfold getStellarClass, getStellarClassField, getTemperature.
    rewrite getStarMass_unclassified.
    change (StellarClass Samples.unclassified) with "".
    change (Temperature Samples.unclassified) with (Fin 0).
    cbn [String.eqb negb]. fcmp. cbv iota beta.
    unfold solarMass. rewrite div_Fin by lra. fcmp. reflexivity. }
  split; [exact H|]. unfold getStarSymbol. now rewrite H.
Qed.

Lemma In_spectral_letters (c : ascii) :
  In c spectral_letters <->
  ((c =? "O") || (c =? "B") || (c =? "A") || (c =? "F") || (c =? "G")
   || (c =? "K") || (c =? "M"))%char = true.
Proof.
  unfold spectral_letters. split.
  - intros H. cbn [In] in H.
    destruct H as [<-|[<-|[<-|[<-|[<-|[<-|[<-|[]]]]]]]]; reflexivity.
  - intros H. repeat (apply orb_true_iff in H; destruct H as [H|H]);
      apply Ascii.eqb_eq in H; subst c; cbn; tauto.
Qed.

(** C10, as stated, fails at a star whose recorded class is not one of
    the seven letters: the class is returned as recorded. *)
Lemma getStellarClass_brown_dwarf :
  getStellarClass Samples.brown_dwarf = "L7.5" /\
  first_byte (getStellarClass Samples.brown_dwarf) = Some "L"%char /\
  ~ In "L"%char spectral_letters.
Proof.
  repeat split. rewrite In_spectral_letters. discriminate.
Qed.

(** C10 (amended): the classification of a star is never the empty
    string, so its first character exists; it is one of O, B, A, F, G, K,
    M when the body has no recorded stellar class (a recorded class is
    returned as it is); and the choice of the star glyph never panics and
    gives one of the six star glyphs. *)
Theorem getStarSymbol_total (star : CelestialBody) :
  getStellarClass star <> "" /\
  (exists c : ascii,
     first_byte (getStellarClass star) = Some c /\
     (StellarClass star = "" -> In c spectral_letters)) /\
  (StellarClass star <> "" -> getStellarClass star = StellarClass star) /\
  exists glyph : rune,
    getStarSymbol star = Some glyph /\ In glyph star_glyphs.
Proof.
  split; [apply getStellarClass_nonempty|].
  split; [|split; [apply getStellarClass_recorded
                  |apply getStarSymbol_star_glyph]].
  destruct (getStellarClass star) as [|c rest] eqn:Hclass.
  - now apply getStellarClass_nonempty in Hclass.
  - exists c. split; [reflexivity|]. intros Hempty.
    pose proof (getStellarClass_fallback star Hempty) as Hin.
    rewrite Hclass in Hin. unfold fallback_classes, spectral_letters in *.
    cbn [In] in Hin.
    destruct Hin as [H|[H|[H|[H|[H|[H|[H|[]]]]]]]];
      injection H as <- _; cbn; tauto.
Qed.

Lemma getStarSymbol_total_witness :
  StellarClass Samples.unclassified = "" /\
  exists c : ascii,
    first_byte (getStellarClass Samples.unclassified) = Some c /\
    In c spectral_letters.
Proof.
  split; [reflexivity|].
  destruct (getStarSymbol_total Samples.unclassified)
    as (_ & [c [Hc Hin]] & _).
  exists c. split; [exact Hc|]. apply Hin. reflexivity.
Defined.




End GlyphFacts.

(** ** [DistanceScaler] *)

Module DistanceScalerFacts.

Import F64 F64Facts.
Open Scope R_scope.

(** With equal bounds the interpolation divides by zero, whatever the
    viewport and the distance. *)
Lemma ScaleDistance_equal_bounds_not_finite
    (ds : DistanceScaler) (planets : list CelestialBody)
    (m distance : float64) :
  findDistanceRange planets = (m, m) ->
  (distance <=? Fin 0)%f64 = false ->
  is_finite (ScaleDistance ds distance planets) = false.
Proof.
  intros Hrange Hpos. unfold ScaleDistance. rewrite Hpos, Hrange.
  apply add_not_finite_r, mul_not_finite.
  destruct (sub_diag (Log m)) as [-> | ->].
  - apply div_zero_not_finite.
  - now rewrite div_NaN.
Qed.

(** The bounds found among the bodies passed the guard of the loop: they
    are not [<= 0]. *)
Lemma findDistanceRange_loop_guard (planets : list CelestialBody) :
  forall (mn mx : float64) (first : bool),
  (first = false ->
   (mn <=? Fin 0)%f64 = false /\ (mx <=? Fin 0)%f64 = false) ->
  forall mn' mx', findDistanceRange_loop planets mn mx first
                  = (mn', mx', false) ->
  (mn' <=? Fin 0)%f64 = false /\ (mx' <=? Fin 0)%f64 = false.
Proof.
  induction planets as [|p rest IH]; intros mn mx first Hinv mn' mx' Hloop.
  - cbn in Hloop. injection Hloop as -> -> ->. now apply Hinv.
  - cbn in Hloop.
    destruct (EnglishName p =? "Sun")%string; cbn in Hloop;
      [now apply (IH _ _ _ Hinv)|].
    destruct (SemimajorAxis p <=? Fin 0)%f64 eqn:Hle;
      [now apply (IH _ _ _ Hinv)|].
    destruct first.
    + apply (IH _ _ _ (fun _ => conj Hle Hle) _ _ Hloop).
    + destruct (Hinv eq_refl) as [Hmn Hmx].
      refine (IH _ _ _ _ _ _ Hloop). intros _.
      split; [destruct (_ <? mn)%f64 | destruct (_ >? mx)%f64]; assumption.
Qed.

Lemma findDistanceRange_positive (planets : list CelestialBody) (mn mx : R) :
  findDistanceRange planets = (Fin mn, Fin mx) -> 0 < mn /\ 0 < mx.
Proof.
  unfold findDistanceRange. destruct planets as [|p rest].
  - intros [= <- <-]; lra.
  - destruct (findDistanceRange_loop (p :: rest) (Fin 0) (Fin 0) true)
      as [[mn' mx'] first] eqn:Hloop.
    destruct first; [intros [= <- <-]; lra|]. intros [= -> ->].
    destruct (findDistanceRange_loop_guard (p :: rest) (Fin 0) (Fin 0)
                true ltac:(discriminate) _ _ Hloop) as [H1 H2].
    apply le_Fin_false in H1, H2. now split.
Qed.

Lemma Min_Fin (a b : R) : Min (Fin a) (Fin b) = Fin (Rmin a b).
Proof.
  cbn. unfold Rmin. rdec; f_equal; lra.
Qed.

Lemma maxRadius_Fin (ds : DistanceScaler) : maxRadius ds = Fin (maxRadiusR ds).
Proof. unfold maxRadius, of_int. now rewrite Min_Fin. Qed.

(** The log-linear interpolation, away from the special values. *)
Lemma ScaleDistance_Fin (ds : DistanceScaler) (planets : list CelestialBody)
    (mn mx d : R) :
  findDistanceRange planets = (Fin mn, Fin mx) -> mn < mx -> 0 < d ->
  ScaleDistance ds (Fin d) planets
  = Fin (8 + (ln d - ln mn) / (ln mx - ln mn) * (maxRadiusR ds - 8)).
Proof.
  intros Hrange Hlt Hd.
  destruct (findDistanceRange_positive _ _ _ Hrange) as [Hmn Hmx].
  pose proof (ln_increasing _ _ Hmn Hlt) as Hln.
  unfold ScaleDistance. rewrite Hrange, maxRadius_Fin.
  replace (Fin d <=? Fin 0)%f64 with false
    by (symmetry; apply le_Fin_false; lra).
  rewrite !Log_Fin, !sub_Fin, div_Fin by lra. reflexivity.
Qed.

Lemma ScaleDistance_at_min (ds : DistanceScaler)
    (planets : list CelestialBody) (mn mx : R) :
  findDistanceRange planets = (Fin mn, Fin mx) -> mn < mx ->
  ScaleDistance ds (Fin mn) planets = minRadius.
Proof.
  intros Hrange Hlt.
  destruct (findDistanceRange_positive _ _ _ Hrange) as [Hmn Hmx].
  pose proof (ln_increasing _ _ Hmn Hlt) as Hln.
  rewrite (ScaleDistance_Fin ds _ _ _ _ Hrange Hlt Hmn). unfold minRadius.
  f_equal. field. lra.
Qed.

Lemma ScaleDistance_at_max (ds : DistanceScaler)
    (planets : list CelestialBody) (mn mx : R) :
  findDistanceRange planets = (Fin mn, Fin mx) -> mn < mx ->
  ScaleDistance ds (Fin mx) planets = maxRadius ds.
Proof.
  intros Hrange Hlt.
  destruct (findDistanceRange_positive _ _ _ Hrange) as [Hmn Hmx].
  pose proof (ln_increasing _ _ Hmn Hlt) as Hln.
  rewrite (ScaleDistance_Fin ds _ _ _ _ Hrange Hlt Hmx), maxRadius_Fin.
  f_equal. field. lra.
Qed.

Lemma findDistanceRange_inner_outer :
  findDistanceRange [Samples.inner; Samples.outer] = (Fin 1, Fin 100).
Proof.
  unfold findDistanceRange; cbn.
  replace (Fin 1 <=? Fin 0)%f64 with false
    by (symmetry; apply le_Fin_false; lra).
  replace (Fin 100 <=? Fin 0)%f64 with false
    by (symmetry; apply le_Fin_false; lra).
  cbn. unfold gt; cbn. rdec. reflexivity.
Qed.

(** C1, at a system of one planet: the radius of the planet's own orbit
    is 0/0.  The claim asks for a fixed finite radius there; the code has
    no guard for equal bounds. *)
Theorem ScaleDistance_single_planet_NaN :
  findDistanceRange [Samples.kepler452b] = (Fin 156400000, Fin 156400000)
  /\ ScaleDistance (NewDistanceScaler 80 24) (Fin 156400000)
       [Samples.kepler452b] = NaN.
Proof.
  assert (Hr : findDistanceRange [Samples.kepler452b]
               = (Fin 156400000, Fin 156400000)).
  { unfold findDistanceRange; cbn.
    replace (Fin 156400000 <=? Fin 0)%f64 with false; [reflexivity|].
    symmetry; apply le_Fin_false; lra. }
  split; [exact Hr|].
  unfold ScaleDistance. rewrite Hr.
  replace (Fin 156400000 <=? Fin 0)%f64 with false
    by (symmetry; apply le_Fin_false; lra).
  cbn. rdec. cbn. rdec. reflexivity.
Qed.

Lemma maxRadiusR_80_60 : maxRadiusR (NewDistanceScaler 80 60) = 25.65.
Proof.
  unfold maxRadiusR; cbn -[IZR Rmin].
  change (Int.sub (Int.quot 80 2) 3) with 37%Z.
  change (Int.sub (Int.quot 60 2) 3) with 27%Z.
  unfold Rmin; destruct (Rle_dec 37 27); lra.
Qed.

Lemma maxRadiusR_80_20 : maxRadiusR (NewDistanceScaler 80 20) = 6.65.
Proof.
  unfold maxRadiusR; cbn -[IZR Rmin].
  change (Int.sub (Int.quot 80 2) 3) with 37%Z.
  change (Int.sub (Int.quot 20 2) 3) with 7%Z.
  unfold Rmin; destruct (Rle_dec 37 7); lra.
Qed.




End DistanceScalerFacts.

(** ** Sizes of the drawn bodies *)

Module SizeFacts.

Import F64 F64Facts.
Open Scope R_scope.

Lemma size_factor_range (cor : CelestialObjectRenderer) :
  exists f : R, getTerminalSizeFactor cor = Fin f /\ 0.5 <= f <= 2.5.
Proof.
  unfold getTerminalSizeFactor, of_int.
  rewrite DistanceScalerFacts.Min_Fin, div_Fin by lra.
  set (x := Rmin (IZR (width cor)) (IZR (height cor)) / 36.0).
  unfold gt. destruct (Rlt_dec x 0.5) as [H1|H1].
  - replace (Fin x <? Fin 0.5)%f64 with true
      by (symmetry; apply lt_Fin; exact H1).
    exists 0.5. split; [reflexivity|lra].
  - replace (Fin x <? Fin 0.5)%f64 with false
      by (symmetry; apply lt_Fin_false; lra).
    destruct (Rlt_dec 2.5 x) as [H2|H2].
    + replace (Fin 2.5 <? Fin x)%f64 with true
        by (symmetry; apply lt_Fin; exact H2).
      exists 2.5. split; [reflexivity|lra].
    + replace (Fin 2.5 <? Fin x)%f64 with false
        by (symmetry; apply lt_Fin_false; lra).
      exists x. split; [reflexivity|lra].
Qed.

(** The scaling factor of the terminal is clamped to [[0.5, 2.5]],
    whatever the dimensions of the terminal. *)
Theorem getTerminalSizeFactor_range (cor : CelestialObjectRenderer) :
  exists f : R, getTerminalSizeFactor cor = Fin f /\ 0.5 <= f <= 2.5.
Proof. exact (size_factor_range cor). Qed.

Lemma body_radii_range
    (cor : CelestialObjectRenderer) (meanRadius : float64) (numStars : Z) :
  (2 <= scaleSunSize cor <= 4)%Z /\
  (2 <= scaleStarSize cor meanRadius numStars <= 4)%Z /\
  (numStars <> 1%Z -> scaleStarSize cor meanRadius numStars = 2%Z) /\
  (1 <= scalePlanetSize cor meanRadius <= 3)%Z.
Proof.
  assert (Hsun : (2 <= scaleSunSize cor <= 4)%Z).
  { unfold scaleSunSize. cbv zeta.
    generalize (to_int (Fin 3.0 * getTerminalSizeFactor cor)%f64).
    intros z. rewrite !Z.gtb_ltb.
    destruct (Z.ltb_spec z 2); [cbn; lia|].
    destruct (Z.ltb_spec 4 z); lia. }
  split; [exact Hsun|]. unfold scaleStarSize. repeat split.
  - destruct (numStars =? 1)%Z; lia.
  - destruct (numStars =? 1)%Z; lia.
  - intros Hn. destruct (Z.eqb_spec numStars 1); [contradiction|reflexivity].
  - unfold scalePlanetSize.
    destruct (meanRadius <=? Fin 0)%f64; [lia|]. cbv zeta.
    repeat match goal with
           | |- context [if (?x >=? ?y)%f64 then _ else _] =>
               destruct (x >=? y)%f64
           end;
      match goal with
      | |- context [to_int ?e] => generalize (to_int e)
      end; intros z; rewrite !Z.gtb_ltb;
      destruct (Z.ltb_spec z 1); cbn;
      try lia;
      match goal with
      | |- context [(?b <? z)%Z] => destruct (Z.ltb_spec b z); lia
      end.
  - unfold scalePlanetSize.
    destruct (meanRadius <=? Fin 0)%f64; [lia|]. cbv zeta.
    repeat match goal with
           | |- context [if (?x >=? ?y)%f64 then _ else _] =>
               destruct (x >=? y)%f64
           end;
      match goal with
      | |- context [to_int ?e] => generalize (to_int e)
      end; intros z; rewrite !Z.gtb_ltb;
      destruct (Z.ltb_spec z 1); cbn;
      try lia;
      match goal with
      | |- context [(?b <? z)%Z] => destruct (Z.ltb_spec b z); lia
      end.
Qed.

(** The radii of the drawn bodies are bounded: the Sun and a single star
    by 2 and 4, a star of a multiple system is 2, and a planet by 1 and
    3, whatever the radius of the body and the size of the terminal. *)
Theorem body_radii_are_bounded
    (cor : CelestialObjectRenderer) (meanRadius : float64) (numStars : Z) :
  (2 <= scaleSunSize cor <= 4)%Z /\
  (2 <= scaleStarSize cor meanRadius numStars <= 4)%Z /\
  (numStars <> 1%Z -> scaleStarSize cor meanRadius numStars = 2%Z) /\
  (1 <= scalePlanetSize cor meanRadius <= 3)%Z.
Proof. exact (body_radii_range cor meanRadius numStars). Qed.

End SizeFacts.

(** ** Stars around their barycenter *)

Module StarFacts.

Import F64 F64Facts.
Open Scope R_scope.

Lemma Rpower_pos (x y : R) : 0 < Rpower x y.
Proof. unfold Rpower. apply exp_pos. Qed.

(** A positive power of a positive base is positive. *)
Lemma Pow_positive (a b : R) :
  0 < a -> exists p : R, Pow (Fin a) (Fin b) = Fin p /\ 0 < p.
Proof.
  intros Ha. unfold Pow.
  destruct (Reqb b 0); [exists 1; split; [reflexivity|lra]|].
  destruct (Reqb a 1); [exists 1; split; [reflexivity|lra]|].
  destruct (Reqb b 1); [exists a; split; [reflexivity|lra]|].
  replace (Reqb a 0) with false by (symmetry; apply Reqb_false; lra).
  replace (Rltb 0 a) with true by (symmetry; apply Rltb_true; lra).
  exists (Rpower a b). split; [reflexivity|apply Rpower_pos].
Qed.

Lemma gt_zero_positive (x : float64) :
  (x >? Fin 0)%f64 = true -> is_positive x.
Proof.
  unfold gt. destruct x as [|[]|m]; cbn; try discriminate.
  - intros _. now left.
  - intros H. right. exists m. split; [reflexivity|].
    now apply Rltb_true in H.
Qed.

Lemma positive_mul_Fin (x : float64) (p : R) :
  is_positive x -> 0 < p -> is_positive (x * Fin p)%f64.
Proof.
  intros [->|(m & -> & Hm)] Hp.
  - left. cbn.
    replace (Reqb p 0) with false by (symmetry; apply Reqb_false; lra).
    replace (Rltb p 0) with false by (symmetry; apply Rltb_false; lra).
    reflexivity.
  - right. exists (m * p). split; [reflexivity|].
    apply Rmult_lt_0_compat; assumption.
Qed.

Lemma star_mass_positive (star : CelestialBody) :
  is_positive (getStarMass star) /\
  (is_finite (MassValue (BodyMass star)) = true ->
   is_finite (MeanRadius star) = true ->
   is_finite (getStarMass star) = true).
Proof.
  unfold getStarMass.
  destruct (MassValue (BodyMass star) >? Fin 0)%f64 eqn:Hv.
  - apply gt_zero_positive in Hv.
    destruct (Pow_positive 10 (IZR (MassExponent (BodyMass star))))
      as (p & Hp & Hp0); [lra|].
    unfold of_int. rewrite Hp. split.
    + now apply positive_mul_Fin.
    + destruct Hv as [->|(m & -> & _)]; [discriminate|reflexivity].
  - destruct (MeanRadius star >? Fin 0)%f64 eqn:Hr.
    + apply gt_zero_positive in Hr.
      assert (Hpow : is_positive (Pow (MeanRadius star / Fin 695700.0)
                                   (Fin 2.5)) /\
                     (is_finite (MeanRadius star) = true ->
                      is_finite (Pow (MeanRadius star / Fin 695700.0)
                                     (Fin 2.5)) = true)).
      { destruct Hr as [->|(m & -> & Hm)].
        - split; [|discriminate]. left. cbn.
          replace (Rltb 695700.0 0) with false
            by (symmetry; apply Rltb_false; lra).
          replace (Reqb 2.5 0) with false
            by (symmetry; apply Reqb_false; lra).
          replace (Rltb 0 2.5) with true
            by (symmetry; apply Rltb_true; lra).
          reflexivity.
        - rewrite div_Fin by lra.
          destruct (Pow_positive (m / 695700.0) 2.5) as (p & -> & Hp).
          { apply Rmult_lt_0_compat; [exact Hm|].
            apply Rinv_0_lt_compat. lra. }
          split; [right; exists p; auto|reflexivity]. }
      destruct Hpow as [Hpos Hfin]. split.
      * apply positive_mul_Fin; [exact Hpos|lra].
      * intros _ Hrf. specialize (Hfin Hrf).
        destruct (Pow _ _); try discriminate. reflexivity.
    + split; [right; exists 1.989e30; split; [reflexivity|lra]|reflexivity].
Qed.



Lemma Max_Fin (a b : R) : Max (Fin a) (Fin b) = Fin (Rmax a b).
Proof.
  cbn. unfold Rmax. rdec; f_equal; lra.
Qed.

Lemma binary_separation_range
    (cor : CelestialObjectRenderer) (stars : list CelestialBody) :
  exists sep : R,
    calculateBinarySeparation cor stars = Fin sep /\ 6 <= sep <= 15.
Proof.
  unfold calculateBinarySeparation.
  destruct (SizeFacts.size_factor_range cor) as (f & -> & Hf).
  rewrite mul_Fin, Max_Fin. eexists; split; [reflexivity|].
  unfold Rmax. destruct (Rle_dec (6.0 * f) 6.0); lra.
Qed.

(** The separation of a binary is between 6 and 15 cells, whatever the
    size of the terminal. *)
Theorem calculateBinarySeparation_range
    (cor : CelestialObjectRenderer) (stars : list CelestialBody) :
  exists sep : R,
    calculateBinarySeparation cor stars = Fin sep /\ 6 <= sep <= 15.
Proof. exact (binary_separation_range cor stars). Qed.



(** Two stars of equal mass are drawn at opposite displacements from the
    center, at every instant. *)
Theorem equal_masses_opposite_positions
    (cor : CelestialObjectRenderer) (star1 star2 : CelestialBody)
    (centerX centerY : Z) (now : Time.Time) :
  getStarMass star1 = getStarMass star2 ->
  exists dx dy : Z,
    calculateBinaryStarPositions cor [star1; star2] centerX centerY now
    = [ {| X := Int.add centerX dx; Y := Int.add centerY dy |};
        {| X := Int.sub centerX dx; Y := Int.sub centerY dy |} ].
Proof.
  intros Hm. unfold calculateBinaryStarPositions, binaryStarRadii.
  rewrite Hm. cbv zeta. eexists. eexists. reflexivity.
Qed.

Lemma equal_masses_opposite_positions_witness :
  getStarMass Samples.unclassified = getStarMass Samples.unclassified /\
  exists dx dy : Z,
    calculateBinaryStarPositions Samples.renderer_at_start
      [Samples.unclassified; Samples.unclassified] 40 12 Samples.instant
    = [ {| X := Int.add 40 dx; Y := Int.add 12 dy |};
        {| X := Int.sub 40 dx; Y := Int.sub 12 dy |} ].
Proof.
  split; [reflexivity|].
  apply (equal_masses_opposite_positions Samples.renderer_at_start
           Samples.unclassified Samples.unclassified 40 12 Samples.instant
           eq_refl).
Defined.

(** The clamping of a number between two bounds. *)
Lemma clamp_Fin (x lo hi : R) :
  lo <= hi ->
  exists r : R,
    (if (Fin x <? Fin lo)%f64 then Fin lo
     else if (Fin x >? Fin hi)%f64 then Fin hi else Fin x) = Fin r /\
    lo <= r <= hi.
Proof.
  intros Hlh. unfold gt. destruct (Rlt_dec x lo) as [H1|H1].
  - replace (Fin x <? Fin lo)%f64 with true
      by (symmetry; apply lt_Fin; exact H1).
    exists lo. split; [reflexivity|lra].
  - replace (Fin x <? Fin lo)%f64 with false
      by (symmetry; apply lt_Fin_false; lra).
    destruct (Rlt_dec hi x) as [H2|H2].
    + replace (Fin hi <? Fin x)%f64 with true
        by (symmetry; apply lt_Fin; exact H2).
      exists hi. split; [reflexivity|lra].
    + replace (Fin hi <? Fin x)%f64 with false
        by (symmetry; apply lt_Fin_false; lra).
      exists x. split; [reflexivity|lra].
Qed.

Lemma positive_add (x y : float64) :
  is_positive x -> is_positive y -> is_positive (x + y)%f64.
Proof.
  intros [->|(a & -> & Ha)] [->|(b & -> & Hb)]; cbn.
  - now left.
  - now left.
  - now left.
  - right. exists (a + b). split; [reflexivity|lra].
Qed.

(** The revolution period of a binary, for the separation that the
    renderer passes, is always a number between 10 and 120 seconds (so
    the division of the elapsed time by the period is never a division
    by zero), whatever the masses of the two stars. *)
Theorem calculateBinaryOrbitalPeriod_range
    (cor : CelestialObjectRenderer) (star1 star2 : CelestialBody) :
  exists period : R,
    calculateBinaryOrbitalPeriod cor [star1; star2]
      (calculateBinarySeparation cor [star1; star2]) = Fin period /\
    10 <= period <= 120.
Proof.
  destruct (binary_separation_range cor [star1; star2])
    as (sep & -> & Hsep).
  unfold calculateBinaryOrbitalPeriod. cbv zeta.
  rewrite div_Fin by lra.
  destruct (Pow_positive (sep / 10.0) 1.5) as (p & -> & Hp); [lra|].
  assert (Hscale : exists q : R,
            (Fin p / Sqrt ((getStarMass star1 + getStarMass star2)
                           / solarMass))%f64 = Fin q).
  { destruct (positive_add _ _ (proj1 (star_mass_positive star1))
                (proj1 (star_mass_positive star2)))
      as [->|(m & -> & Hm)]; unfold solarMass.
    - exists 0. unfold div at 2.
      replace (Rltb 1.989e30 0) with false
        by (symmetry; apply Rltb_false; lra).
      reflexivity.
    - rewrite div_Fin by lra. unfold Sqrt.
      assert (Hr : 0 < m / 1.989e30)
        by (apply Rmult_lt_0_compat; [exact Hm|
            apply Rinv_0_lt_compat; lra]).
      replace (Rltb (m / 1.989e30) 0) with false
        by (symmetry; apply Rltb_false; lra).
      pose proof (sqrt_lt_R0 _ Hr).
      rewrite div_Fin by lra. eauto. }
  destruct Hscale as [q ->]. rewrite mul_Fin.
  destruct (clamp_Fin (20.0 * q) 10.0 120.0) as (r & Hr & Hb); [lra|].
  exists r. split; [exact Hr|lra].
Qed.

(** The rotation period of a ring of three or more stars is always a
    number between 20 and 90 seconds. *)
Theorem calculateMultiStarRotationPeriod_range
    (cor : CelestialObjectRenderer) (numStars : Z) :
  exists period : R,
    calculateMultiStarRotationPeriod cor numStars = Fin period /\
    20 <= period <= 90.
Proof.
  unfold calculateMultiStarRotationPeriod, of_int. cbv zeta.
  rewrite mul_Fin, add_Fin, mul_Fin.
  match goal with
  | |- context [(Fin ?x <? Fin 20.0)%f64] =>
      destruct (clamp_Fin x 20.0 90.0) as (r & Hr & Hb); [lra|]
  end.
  exists r. split; [exact Hr|lra].
Qed.

Lemma range_length (lo hi : Z) :
  List.length (Int.range lo hi) = Z.to_nat (hi - lo + 1).
Proof. unfold Int.range. now rewrite length_map, length_seq. Qed.

Lemma star_positions_length
    (cor : CelestialObjectRenderer) (stars : list CelestialBody)
    (centerX centerY : Z) (now : Time.Time) :
  List.length (calculateStarPositions cor stars centerX centerY now)
  = Nat.max 1 (List.length stars) /\
  List.length
    (combine stars (calculateStarPositions cor stars centerX centerY now))
  = List.length stars.
Proof.
  assert (H : List.length
                (calculateStarPositions cor stars centerX centerY now)
              = Nat.max 1 (List.length stars)).
  { unfold calculateStarPositions, len.
    destruct stars as [|s1 [|s2 [|s3 rest]]]; try reflexivity.
    cbn [List.length].
    destruct (Z.leb_spec (Z.of_nat (S (S (S (List.length rest))))) 1);
      [lia|].
    destruct (Z.eqb_spec (Z.of_nat (S (S (S (List.length rest))))) 2);
      [lia|].
    unfold calculateMultipleStarPositions, len.
    rewrite length_map, range_length. cbn [List.length]. lia. }
  split; [exact H|]. rewrite length_combine, H. lia.
Qed.

(** There are as many positions as stars (one position when there is no
    star), so that [RenderStars] draws every star it is given. *)
Theorem calculateStarPositions_length
    (cor : CelestialObjectRenderer) (stars : list CelestialBody)
    (centerX centerY : Z) (now : Time.Time) :
  List.length (calculateStarPositions cor stars centerX centerY now)
  = Nat.max 1 (List.length stars) /\
  List.length
    (combine stars (calculateStarPositions cor stars centerX centerY now))
  = List.length stars.
Proof. exact (star_positions_length cor stars centerX centerY now). Qed.

End StarFacts.

(** ** The render pass *)

Module RenderFacts.

Import F64 F64Facts GridFacts DrawingFacts.
Open Scope Z_scope.

(** *** The blank grid *)

Lemma index_repeat {A : Type} (a : A) (n i : Z) :
  0 <= i < n -> index (repeat a (Z.to_nat n)) i = Some a.
Proof.
  intros H. unfold index.
  destruct (Z.ltb_spec i 0); [lia|]. apply nth_error_repeat. lia.
Qed.

Lemma createGrid_cells (width height : Z) :
  (height < 0 -> createGrid width height = None) /\
  (0 < height -> width < 0 -> createGrid width height = None) /\
  (0 <= width -> 0 <= height ->
   exists grid : Grid,
     createGrid width height = Some grid /\
     len grid = height /\
     Forall (fun row => len row = width) grid /\
     (forall x y : Z,
        0 <= x < width -> 0 <= y < height ->
        Grid_get grid y x = Some blank) /\
     (0 < height -> well_formed grid)).
Proof.
  unfold createGrid. split; [|split].
  - intros H. destruct (Z.ltb_spec height 0); [reflexivity|lia].
  - intros Hh Hw. destruct (Z.ltb_spec height 0); [reflexivity|].
    destruct (Z.ltb_spec 0 height); [|lia].
    destruct (Z.ltb_spec width 0); [reflexivity|lia].
  - intros Hw Hh. destruct (Z.ltb_spec height 0); [lia|].
    destruct (Z.ltb_spec width 0); [lia|]. rewrite andb_false_r.
    eexists; split; [reflexivity|].
    assert (Hrows : Forall (fun row : list rune => len row = width)
                      (repeat (repeat blank (Z.to_nat width))
                         (Z.to_nat height))).
    { apply Forall_forall. intros row Hin. apply repeat_spec in Hin.
      subst row. unfold len. rewrite repeat_length. lia. }
    split; [unfold len; rewrite repeat_length; lia|].
    split; [exact Hrows|]. split.
    + intros x y Hx Hy. unfold Grid_get.
      rewrite (index_repeat _ height y Hy). now apply index_repeat.
    + intros Hpos. split; [|exists width; exact Hrows].
      destruct (Z.to_nat height) eqn:E; [lia|discriminate].
Qed.

(** [createGrid] panics on a negative height (and on a negative width
    when there is a row to make); otherwise it gives [height] rows of
    [width] cells, all of them blank. *)
Theorem createGrid_blank (width height : Z) :
  (height < 0 -> createGrid width height = None) /\
  (0 < height -> width < 0 -> createGrid width height = None) /\
  (0 <= width -> 0 <= height ->
   exists grid : Grid,
     createGrid width height = Some grid /\
     len grid = height /\
     Forall (fun row => len row = width) grid /\
     (forall x y : Z,
        0 <= x < width -> 0 <= y < height ->
        Grid_get grid y x = Some blank) /\
     (0 < height -> well_formed grid)).
Proof. exact (createGrid_cells width height). Qed.

Lemma createGrid_blank_witness :
  (0 <= 80) /\ (0 <= 24) /\
  exists grid : Grid,
    createGrid 80 24 = Some grid /\ len grid = 24 /\
    Grid_get grid 23 79 = Some blank.
Proof.
  assert (H1 : 0 <= 80) by lia. assert (H2 : 0 <= 24) by lia.
  split; [exact H1|]. split; [exact H2|].
  destruct (createGrid_blank 80 24) as (_ & _ & H).
  destruct (H H1 H2) as (grid & Hg & Hlen & _ & Hget & _).
  exists grid. split; [exact Hg|]. split; [exact Hlen|].
  apply Hget; lia.
Defined.

(** *** Stars and planets *)

Lemma separateStarsAndPlanets_fold (bodies : list CelestialBody) :
  forall stars planets : list CelestialBody,
  fold_left (fun '(stars, planets) body =>
               if isStar body then (stars ++ [body], planets)
               else (stars, planets ++ [body]))%list
            bodies (stars, planets)
  = ((stars ++ filter isStar bodies)%list,
     (planets ++ filter (fun body => negb (isStar body)) bodies)%list).
Proof.
  induction bodies as [|b bodies IH]; intros stars planets; cbn.
  - now rewrite !app_nil_r.
  - destruct (isStar b); cbn; rewrite IH, <- app_assoc; reflexivity.
Qed.

Lemma separateStarsAndPlanets_filter (bodies : list CelestialBody) :
  separateStarsAndPlanets bodies
  = (filter isStar bodies, filter (fun body => negb (isStar body)) bodies)
  /\ (forall body : CelestialBody,
        In body bodies <->
        In body (fst (separateStarsAndPlanets bodies))
        \/ In body (snd (separateStarsAndPlanets bodies)))
  /\ (List.length (fst (separateStarsAndPlanets bodies))
      + List.length (snd (separateStarsAndPlanets bodies))
      = List.length bodies)%nat.
Proof.
  assert (H : separateStarsAndPlanets bodies
              = (filter isStar bodies,
                 filter (fun body => negb (isStar body)) bodies)).
  { unfold separateStarsAndPlanets.
    now rewrite separateStarsAndPlanets_fold. }
  rewrite H. cbn [fst snd]. split; [reflexivity|]. split.
  - intros body. rewrite !filter_In.
    destruct (isStar body); cbn; intuition congruence.
  - clear H. induction bodies as [|b bodies IH]; [reflexivity|].
    cbn. destruct (isStar b); cbn; [|rewrite Nat.add_succ_r];
      f_equal; exact IH.
Qed.

(** The bodies are split in two without loss and in their order: the
    stars are the bodies that are of type Star, named Sun, or have a zero
    semimajor axis without being flagged as planets; the planets are all
    the others. *)
Theorem separateStarsAndPlanets_partition (bodies : list CelestialBody) :
  separateStarsAndPlanets bodies
  = (filter isStar bodies, filter (fun body => negb (isStar body)) bodies)
  /\ (forall body : CelestialBody,
        In body bodies <->
        In body (fst (separateStarsAndPlanets bodies))
        \/ In body (snd (separateStarsAndPlanets bodies)))
  /\ (List.length (fst (separateStarsAndPlanets bodies))
      + List.length (snd (separateStarsAndPlanets bodies))
      = List.length bodies)%nat.
Proof. exact (separateStarsAndPlanets_filter bodies). Qed.

(** *** The loop over the planets *)

Lemma forEach_filter {A S : Type} (keep : A -> bool)
    (body : A -> S -> option S) (l : list A) :
  (forall a s, keep a = false -> body a s = Some s) ->
  forall s : S, forEach l body s = forEach (filter keep l) body s.
Proof.
  intros Hskip. induction l as [|a l IH]; intros s; [reflexivity|].
  cbn. destruct (keep a) eqn:Hk.
  - cbn. destruct (body a s); [apply IH|reflexivity].
  - rewrite (Hskip a s Hk). apply IH.
Qed.

(** The render pass scales, traces and draws exactly the planets that
    fail the guard [SemimajorAxis <= 0] (for an axis that is a number:
    exactly the planets of positive axis): a planet with a zero or
    negative axis leaves the grid as it is, and the loop over all the
    planets is the loop over the orbiting ones. *)
Theorem planets_without_positive_axis_are_skipped
    (r : Renderer) (cor : CelestialObjectRenderer) (centerX centerY : Z)
    (actualPlanets : list CelestialBody) (now : Time.Time) :
  (forall (planet : CelestialBody) (grid : Grid),
     orbiting planet = false ->
     renderOrbitingPlanet r cor centerX centerY actualPlanets now
       planet grid = Some grid) /\
  (forall (planets : list CelestialBody) (grid : Grid),
     forEach planets
       (renderOrbitingPlanet r cor centerX centerY actualPlanets now) grid
     = forEach (filter orbiting planets)
         (renderOrbitingPlanet r cor centerX centerY actualPlanets now)
         grid) /\
  (forall (planet : CelestialBody) (a : R),
     SemimajorAxis planet = Fin a ->
     orbiting planet = true <-> (0 < a)%R).
Proof.
  assert (Hskip : forall planet grid,
             orbiting planet = false ->
             renderOrbitingPlanet r cor centerX centerY actualPlanets now
               planet grid = Some grid).
  { intros planet grid H. unfold orbiting in H.
    apply negb_false_iff in H. unfold renderOrbitingPlanet.
    now rewrite H. }
  split; [exact Hskip|]. split.
  - intros planets grid. now apply forEach_filter.
  - intros planet a Ha. unfold orbiting. rewrite Ha, negb_true_iff.
    apply le_Fin_false.
Qed.

Lemma planets_without_positive_axis_are_skipped_witness :
  orbiting Samples.unclassified = false /\
  forEach [Samples.unclassified]
    (renderOrbitingPlanet (NewRendererWithDefaults 80 24 Samples.instant)
       Samples.renderer_at_start 40 12 [Samples.unclassified]
       Samples.instant) [[blank]]
  = Some [[blank]].
Proof.
  assert (H : orbiting Samples.unclassified = false).
  { unfold orbiting. apply negb_false_iff. apply le_Fin. lra. }
  split; [exact H|].
  destruct (planets_without_positive_axis_are_skipped
              (NewRendererWithDefaults 80 24 Samples.instant)
              Samples.renderer_at_start 40 12 [Samples.unclassified]
              Samples.instant) as (Hskip & _ & _).
  cbn [forEach]. now rewrite (Hskip Samples.unclassified [[blank]] H).
Defined.

(** *** No panic on a well-formed grid *)

Lemma safely (f : Grid -> option Grid) :
  (forall g, well_formed g -> exists g', f g = Some g' /\ well_formed g') ->
  (forall g g', f g = Some g' -> same_shape g g') ->
  draws_safely f.
Proof.
  intros Htotal Hshape g Hwf. destruct (Htotal g Hwf) as (g' & Hg' & Hwf').
  exists g'. split; [exact Hg'|]. split; [exact Hwf'|].
  apply Hshape, Hg'.
Qed.

Lemma forEach_safely {A : Type} (l : list A)
    (body : A -> Grid -> option Grid) :
  (forall a, draws_safely (body a)) -> draws_safely (forEach l body).
Proof.
  intros Hbody. induction l as [|a l IH]; intros g Hwf; cbn.
  - exists g. split; [reflexivity|]. split; [exact Hwf|reflexivity].
  - destruct (Hbody a g Hwf) as (g1 & -> & Hwf1 & Hs1).
    destruct (IH g1 Hwf1) as (g2 & Hg2 & Hwf2 & Hs2).
    exists g2. split; [exact Hg2|]. split; [exact Hwf2|].
    eapply same_shape_trans; eassumption.
Qed.

Lemma plot_safely (x y : Z) (s : rune) :
  draws_safely (fun g => plot g x y s).
Proof.
  apply safely.
  - intros g. apply plot_total.
  - intros g g' H. apply (plot_writes_inside _ _ _ _ _ H).
Qed.

Lemma DrawFilledCircle_safely (cd : CircleDrawer) (cx cy radius : Z)
    (s : rune) :
  draws_safely (fun g => DrawFilledCircle cd g cx cy radius s).
Proof.
  apply safely.
  - intros g. apply DrawFilledCircle_total.
  - intros g g' H. apply (DrawFilledCircle_writes_inside _ _ _ _ _ _ _ H).
Qed.

Lemma DrawCircle_safely (cd : CircleDrawer) (cx cy : Z)
    (radius : float64) (s : rune) :
  draws_safely (fun g => DrawCircle cd g cx cy radius s).
Proof.
  apply safely.
  - intros g. apply DrawCircle_total.
  - intros g g' H. apply (DrawCircle_writes_inside _ _ _ _ _ _ _ H).
Qed.

Lemma RenderAsteroidBelt_safely (dbr : DebrisBeltRenderer) (cx cy : Z)
    (planets : list CelestialBody) :
  draws_safely (fun g => RenderAsteroidBelt dbr g cx cy planets).
Proof.
  apply safely.
  - intros g. apply RenderAsteroidBelt_total.
  - intros g g' H. apply (RenderAsteroidBelt_keeps_glyphs _ _ _ _ _ _ H).
Qed.

Lemma RenderKuiperBelt_safely (dbr : DebrisBeltRenderer) (cx cy : Z)
    (planets : list CelestialBody) :
  draws_safely (fun g => RenderKuiperBelt dbr g cx cy planets).
Proof.
  apply safely.
  - intros g. apply RenderKuiperBelt_total.
  - intros g g' H. apply (RenderKuiperBelt_keeps_glyphs _ _ _ _ _ _ H).
Qed.

Lemma RenderSun_safely (cor : CelestialObjectRenderer) (cx cy : Z) :
  draws_safely (fun g => RenderSun cor g cx cy).
Proof. apply DrawFilledCircle_safely. Qed.

Lemma RenderOrbit_safely (cor : CelestialObjectRenderer) (cx cy : Z)
    (radius : float64) :
  draws_safely (fun g => RenderOrbit cor g cx cy radius).
Proof. apply DrawCircle_safely. Qed.

Lemma GetPlanetSymbol_total (name : string) :
  exists symbol : rune, GetPlanetSymbol name = Some symbol.
Proof.
  unfold GetPlanetSymbol.
  destruct (Orbital.lookup knownSymbols name) as [symbol|]; [eauto|].
  destruct (GlyphFacts.generateGenericSymbol_in_palette name)
    as (symbol & H & _). eauto.
Qed.

Lemma getStarSymbol_some (star : CelestialBody) :
  exists symbol : rune, getStarSymbol star = Some symbol.
Proof.
  destruct (GlyphFacts.getStarSymbol_star_glyph star) as (symbol & H & _).
  eauto.
Qed.

Lemma RenderStars_safely (cor : CelestialObjectRenderer) (cx cy : Z)
    (stars : list CelestialBody) (now : Time.Time) :
  draws_safely (fun g => RenderStars cor g cx cy stars now).
Proof.
  assert (Hloop : draws_safely
            (forEach
               (combine stars (calculateStarPositions cor stars cx cy now))
               (fun '(star, position) grid =>
                  symbol <- getStarSymbol star ;;
                  if scaleStarSize cor (MeanRadius star) (len stars) <=? 1
                  then plot grid (X position) (Y position) symbol
                  else DrawFilledCircle (circleDrawer cor) grid
                         (X position) (Y position)
                         (scaleStarSize cor (MeanRadius star) (len stars))
                         symbol))).
  { apply forEach_safely. intros [star position].
    destruct (getStarSymbol_some star) as [symbol Hs]. intros g.
    rewrite Hs.
    destruct (scaleStarSize cor (MeanRadius star) (len stars) <=? 1);
      [apply plot_safely|apply DrawFilledCircle_safely]. }
  unfold RenderStars. destruct stars as [|s1 [|s2 rest]]; try exact Hloop.
  destruct (getStarSymbol_some s1) as [symbol Hs]. intros g. rewrite Hs.
  apply DrawFilledCircle_safely.
Qed.

Lemma RenderPlanet_safely (cor : CelestialObjectRenderer) (cx cy : Z)
    (planet : CelestialBody) (radius : float64) (now : Time.Time) :
  draws_safely (fun g => RenderPlanet cor g cx cy planet radius now).
Proof.
  intros g. unfold RenderPlanet.
  destruct (CalculatePosition _ _ _ _ _) as [px py].
  destruct (GetPlanetSymbol_total (EnglishName planet)) as [symbol ->].
  destruct (scalePlanetSize cor (MeanRadius planet) <=? 1);
    [apply plot_safely|apply DrawFilledCircle_safely].
Qed.

Lemma renderOrbitingPlanet_safely (r : Renderer)
    (cor : CelestialObjectRenderer) (cx cy : Z)
    (actualPlanets : list CelestialBody) (now : Time.Time)
    (planet : CelestialBody) :
  draws_safely (renderOrbitingPlanet r cor cx cy actualPlanets now planet).
Proof.
  intros g Hwf. unfold renderOrbitingPlanet.
  destruct (SemimajorAxis planet <=? Fin 0)%f64.
  - exists g. split; [reflexivity|]. split; [exact Hwf|reflexivity].
  - cbv zeta.
    destruct (RenderOrbit_safely cor cx cy
                (ScaleDistance (distanceScaler r) (SemimajorAxis planet)
                   actualPlanets) g Hwf) as (g1 & -> & Hwf1 & Hs1).
    destruct (RenderPlanet_safely cor cx cy planet
                (ScaleDistance (distanceScaler r) (SemimajorAxis planet)
                   actualPlanets) now g1 Hwf1) as (g2 & Hg2 & Hwf2 & Hs2).
    exists g2. split; [exact Hg2|]. split; [exact Hwf2|].
    eapply same_shape_trans; eassumption.
Qed.

Lemma same_shape_rows (g g' : Grid) (w : Z) :
  same_shape g g' ->
  Forall (fun row => len row = w) g -> Forall (fun row => len row = w) g'.
Proof.
  unfold same_shape. intros H Hw. revert g' H.
  induction Hw as [|row g Hrow Hg IH]; intros [|row' g'] H;
    try discriminate; constructor.
  - injection H as H _. unfold len in *. now rewrite <- H.
  - apply IH. now injection H.
Qed.

Lemma render_pass_total
    (r : Renderer) (planets : list CelestialBody) (width height : Z)
    (now : Time.Time) :
  0 <= width -> 0 < height ->
  exists grid : Grid,
    RenderSolarSystemData r planets width height now = Some grid /\
    len grid = height /\ Forall (fun row => len row = width) grid.
Proof.
  intros Hw Hh. unfold RenderSolarSystemData, renderBackground.
  destruct (separateStarsAndPlanets planets) as [stars actualPlanets].
  cbv zeta.
  destruct (createGrid_cells width height) as (_ & _ & Hgrid).
  destruct (Hgrid Hw ltac:(lia)) as (g0 & -> & Hlen & Hrows & _ & Hwf).
  specialize (Hwf Hh).
  set (cor := UpdateDimensions (celestialRenderer r) (r_width r)
                (r_height r)).
  assert (H1 : exists g1,
            (if len stars >? 0
             then RenderStars cor g0 (Int.quot width 2)
                    (Int.quot height 2) stars now
             else RenderSun cor g0 (Int.quot width 2) (Int.quot height 2))
            = Some g1 /\ well_formed g1 /\ same_shape g0 g1).
  { destruct (len stars >? 0);
      [apply RenderStars_safely|apply RenderSun_safely]; exact Hwf. }
  destruct H1 as (g1 & -> & Hwf1 & Hs1).
  destruct (RenderAsteroidBelt_safely (debrisBeltRenderer r)
              (Int.quot width 2) (Int.quot height 2) actualPlanets g1 Hwf1)
    as (g2 & -> & Hwf2 & Hs2).
  destruct (RenderKuiperBelt_safely (debrisBeltRenderer r)
              (Int.quot width 2) (Int.quot height 2) actualPlanets g2 Hwf2)
    as (g3 & -> & Hwf3 & Hs3).
  destruct (forEach_safely actualPlanets
              (renderOrbitingPlanet r cor (Int.quot width 2)
                 (Int.quot height 2) actualPlanets now)
              (renderOrbitingPlanet_safely r cor _ _ actualPlanets now)
              g3 Hwf3) as (g4 & Hg4 & Hwf4 & Hs4).
  exists g4. split; [exact Hg4|].
  assert (Hs : same_shape g0 g4).
  { eapply same_shape_trans; [exact Hs1|].
    eapply same_shape_trans; [exact Hs2|].
    eapply same_shape_trans; [exact Hs3|exact Hs4]. }
  split; [rewrite (same_shape_len _ _ Hs); exact Hlen|].
  eapply same_shape_rows; eassumption.
Qed.

(** In a viewport of at least one row and no negative width, the render
    pass never panics, whatever the bodies and the instant, and returns a
    grid of [height] rows of [width] cells. *)
Theorem RenderSolarSystemData_total
    (r : Renderer) (planets : list CelestialBody) (width height : Z)
    (now : Time.Time) :
  0 <= width -> 0 < height ->
  exists grid : Grid,
    RenderSolarSystemData r planets width height now = Some grid /\
    len grid = height /\ Forall (fun row => len row = width) grid.
Proof. exact (render_pass_total r planets width height now). Qed.

Lemma RenderSolarSystemData_total_witness :
  (0 <= 80) /\ (0 < 24) /\
  exists grid : Grid,
    RenderSolarSystemData (NewRendererWithDefaults 80 24 Samples.instant)
      [Samples.sirius; Samples.kepler452b] 80 24 Samples.instant
    = Some grid /\ len grid = 24.
Proof.
  assert (H1 : 0 <= 80) by lia. assert (H2 : 0 < 24) by lia.
  split; [exact H1|]. split; [exact H2|].
  destruct (RenderSolarSystemData_total
              (NewRendererWithDefaults 80 24 Samples.instant)
              [Samples.sirius; Samples.kepler452b] 80 24 Samples.instant
              H1 H2) as (grid & Hg & Hlen & _).
  exists grid. split; [exact Hg|exact Hlen].
Defined.

(** *** The viewport without rows *)

Lemma range_head (lo hi : Z) :
  lo <= hi -> exists rest, Int.range lo hi = lo :: rest.
Proof.
  intros H. unfold Int.range.
  destruct (Z.to_nat (hi - lo + 1)) as [|n] eqn:E; [lia|].
  cbn [seq map]. eexists. f_equal. apply Z.add_0_r.
Qed.

(** The half-width of the row [dy = -radius] of a disc is 0, or the
    indefinite integer when the aspect ratio is not a number. *)
Lemma top_row_half_width (aspect : float64) :
  to_int (Sqrt (of_int 0) * aspect)%f64 = 0
  \/ to_int (Sqrt (of_int 0) * aspect)%f64 = Int.min_int.
Proof.
  unfold Sqrt, of_int.
  replace (Rltb 0 0) with false by (symmetry; apply Rltb_false; lra).
  rewrite sqrt_0. destruct aspect as [| s | a].
  - right. reflexivity.
  - right. unfold mul. rewrite Reqb_refl. reflexivity.
  - left. rewrite mul_Fin, Rmult_0_l. apply (to_int_of_int 0). reflexivity.
Qed.

(** A disc drawn on the grid without rows panics at [len(grid[0])]. *)
Lemma DrawFilledCircle_no_rows (cd : CircleDrawer) (cx cy radius : Z)
    (s : rune) :
  0 <= radius <= Int.max_int ->
  DrawFilledCircle cd [] cx cy radius s = None.
Proof.
  intros Hr. unfold DrawFilledCircle.
  assert (Hneg : Int.neg radius = - radius).
  { unfold Int.neg, Int.wrap64, Int.max_int in *.
    rewrite Z.mod_small; lia. }
  rewrite Hneg. destruct (range_head (- radius) radius ltac:(lia))
    as [rest ->].
  cbn [forEach].
  replace (Int.sub (Int.mul radius radius) (Int.mul (- radius) (- radius)))
    with 0
    by (unfold Int.sub, Int.mul;
        replace (- radius * - radius) with (radius * radius) by ring;
        now rewrite Z.sub_diag).
  destruct (top_row_half_width (aspectRatio cd)) as [-> | ->].
  - change (Int.range (Int.neg 0) 0) with [0]. reflexivity.
  - change (Int.range (Int.neg Int.min_int) Int.min_int)
      with [Int.min_int]. reflexivity.
Qed.

(** In a viewport of height 0 the render pass panics, whatever the
    bodies: the grid has no row, and the first disc drawn (the star, or
    the default Sun) reads [grid[0]]. *)
Theorem RenderSolarSystemData_panics_without_rows
    (r : Renderer) (planets : list CelestialBody) (width : Z)
    (now : Time.Time) :
  RenderSolarSystemData r planets width 0 now = None.
Proof.
  unfold RenderSolarSystemData, renderBackground.
  destruct (separateStarsAndPlanets planets) as [stars actualPlanets].
  cbv zeta. set (cor := UpdateDimensions _ _ _).
  change (createGrid width 0) with (Some (@nil (list rune))).
  assert (Hdisc : forall cx cy radius s,
             2 <= radius <= 4 ->
             DrawFilledCircle (circleDrawer cor) [] cx cy radius s = None).
  { intros cx cy radius s Hr. apply DrawFilledCircle_no_rows.
    unfold Int.max_int. lia. }
  assert (Hsun : forall cx cy, RenderSun cor [] cx cy = None).
  { intros cx cy. apply Hdisc.
    apply (SizeFacts.body_radii_range cor (Fin 0) 1). }
  assert (Hstars : forall cx cy, stars <> [] ->
             RenderStars cor [] cx cy stars now = None).
  { intros cx cy Hne. unfold RenderStars.
    destruct stars as [|s1 [|s2 rest]]; [contradiction| |].
    - destruct (getStarSymbol_some s1) as [symbol ->].
      apply Hdisc.
      apply (SizeFacts.body_radii_range cor (MeanRadius s1) _).
    - pose proof (proj1 (StarFacts.star_positions_length cor
                           (s1 :: s2 :: rest) cx cy now)) as Hlen.
      destruct (calculateStarPositions cor (s1 :: s2 :: rest) cx cy now)
        as [|p1 positions]; [discriminate|].
      cbn [combine forEach].
      destruct (getStarSymbol_some s1) as [symbol ->].
      assert (Hn : len (s1 :: s2 :: rest) <> 1)
        by (unfold len; cbn [List.length]; lia).
      destruct (SizeFacts.body_radii_range cor (MeanRadius s1)
                  (len (s1 :: s2 :: rest))) as (_ & _ & H2 & _).
      rewrite (H2 Hn). cbn [Z.leb Z.compare Pos.compare Pos.compare_cont].
      rewrite Hdisc by lia. reflexivity. }
  destruct stars as [|s1 stars].
  - cbn [len List.length Z.of_nat Z.gtb Z.compare]. now rewrite Hsun.
  - replace (len (s1 :: stars) >? 0) with true
      by (symmetry; unfold len; cbn [List.length];
          apply Z.gtb_lt; lia).
    rewrite Hstars by discriminate. reflexivity.
Qed.

(** *** The position index *)

Lemma lookup_cons {V : Type} (k key : string) (v : V)
    (m : list (string * V)) :
  Orbital.lookup ((k, v) :: m) key <> None <->
  k = key \/ Orbital.lookup m key <> None.
Proof.
  cbn [Orbital.lookup]. destruct (String.eqb_spec k key).
  - split; [auto|discriminate].
  - tauto.
Qed.

Lemma step_with_position_grid (r : Renderer)
    (cor : CelestialObjectRenderer) (cx cy : Z)
    (actualPlanets : list CelestialBody) (now : Time.Time)
    (p : CelestialBody) (grid : Grid) (positions : PositionIndex) :
  option_map fst
    (renderOrbitingPlanetWithPosition r cor cx cy actualPlanets now p
       (grid, positions))
  = renderOrbitingPlanet r cor cx cy actualPlanets now p grid.
Proof.
  unfold renderOrbitingPlanetWithPosition, renderOrbitingPlanet.
  destruct (SemimajorAxis p <=? Fin 0)%f64; [reflexivity|]. cbv zeta.
  destruct (RenderOrbit cor grid cx cy _) as [g1|]; [|reflexivity].
  destruct (CalculatePosition (r_circleDrawer r) cx cy _ _) as [px py].
  destruct (RenderPlanet cor g1 cx cy p _ now) as [g2|]; reflexivity.
Qed.

Lemma step_with_position_keys (r : Renderer)
    (cor : CelestialObjectRenderer) (cx cy : Z)
    (actualPlanets : list CelestialBody) (now : Time.Time)
    (p : CelestialBody) (grid grid' : Grid)
    (positions positions' : PositionIndex) :
  renderOrbitingPlanetWithPosition r cor cx cy actualPlanets now p
    (grid, positions) = Some (grid', positions') ->
  (orbiting p = false /\ positions' = positions) \/
  (orbiting p = true /\
   exists v, positions' = (EnglishName p, v) :: positions).
Proof.
  unfold renderOrbitingPlanetWithPosition, orbiting.
  destruct (SemimajorAxis p <=? Fin 0)%f64.
  - intros [= <- <-]. now left.
  - cbv zeta.
    destruct (RenderOrbit cor grid cx cy _) as [g1|]; [|discriminate].
    destruct (CalculatePosition (r_circleDrawer r) cx cy _ _) as [px py].
    destruct (RenderPlanet cor g1 cx cy p _ now) as [g2|]; [|discriminate].
    intros [= <- <-]. right. split; [reflexivity|]. eauto.
Qed.

(** The loop with the position index draws what the loop without it
    draws. *)
Lemma loop_with_positions_grid (r : Renderer)
    (cor : CelestialObjectRenderer) (cx cy : Z)
    (actualPlanets : list CelestialBody) (now : Time.Time)
    (planets : list CelestialBody) :
  forall (grid : Grid) (positions : PositionIndex),
  option_map fst
    (forEach planets
       (renderOrbitingPlanetWithPosition r cor cx cy actualPlanets now)
       (grid, positions))
  = forEach planets (renderOrbitingPlanet r cor cx cy actualPlanets now)
      grid.
Proof.
  induction planets as [|p planets IH]; intros grid positions;
    [reflexivity|].
  cbn [forEach].
  rewrite <- (step_with_position_grid r cor cx cy actualPlanets now p grid
                positions).
  destruct (renderOrbitingPlanetWithPosition r cor cx cy actualPlanets now
              p (grid, positions)) as [[g1 positions1]|];
    [apply IH|reflexivity].
Qed.

Lemma render_pass_with_positions_grid
    (r : Renderer) (planets : list CelestialBody) (width height : Z)
    (now : Time.Time) :
  option_map fst
    (RenderSolarSystemDataWithPositions r planets width height
       (r_width r) (r_height r) now)
  = RenderSolarSystemData r planets width height now.
Proof.
  unfold RenderSolarSystemDataWithPositions, RenderSolarSystemData.
  destruct (separateStarsAndPlanets planets) as [stars actualPlanets].
  cbv zeta.
  destruct (renderBackground r _ stars actualPlanets width height now)
    as [grid|]; [|reflexivity].
  apply loop_with_positions_grid.
Qed.

(** The render pass with the position index returns the grid of the
    plain render pass, when it is given the dimensions of the renderer
    as those of the screen. *)
Theorem RenderSolarSystemDataWithPositions_grid
    (r : Renderer) (planets : list CelestialBody) (width height : Z)
    (now : Time.Time) :
  option_map fst
    (RenderSolarSystemDataWithPositions r planets width height
       (r_width r) (r_height r) now)
  = RenderSolarSystemData r planets width height now.
Proof. exact (render_pass_with_positions_grid r planets width height now). Qed.

Lemma loop_positions_keys (r : Renderer)
    (cor : CelestialObjectRenderer) (cx cy : Z)
    (actualPlanets : list CelestialBody) (now : Time.Time)
    (planets : list CelestialBody) :
  forall (grid grid' : Grid) (positions positions' : PositionIndex),
  forEach planets
    (renderOrbitingPlanetWithPosition r cor cx cy actualPlanets now)
    (grid, positions) = Some (grid', positions') ->
  forall name : string,
    Orbital.lookup positions' name <> None <->
    (Orbital.lookup positions name <> None \/
     exists p, In p planets /\ orbiting p = true /\ EnglishName p = name).
Proof.
  induction planets as [|p planets IH];
    intros grid grid' positions positions' H name.
  - cbn in H. injection H as <- <-. split; [auto|].
    intros [H|(q & [] & _)]. exact H.
  - cbn [forEach] in H.
    destruct (renderOrbitingPlanetWithPosition r cor cx cy actualPlanets
                now p (grid, positions)) as [[g1 positions1]|] eqn:Hstep;
      [|discriminate].
    rewrite (IH _ _ _ _ H name).
    destruct (step_with_position_keys _ _ _ _ _ _ _ _ _ _ _ Hstep)
      as [[Hp ->]|[Hp [v ->]]].
    + split.
      * intros [Hl|(q & Hq & Ho & Hn)]; [auto|].
        right. exists q. cbn [In]. auto.
      * intros [Hl|(q & [<-|Hq] & Ho & Hn)]; [auto|congruence|].
        right. exists q. auto.
    + rewrite lookup_cons. split.
      * intros [[Hn|Hl]|(q & Hq & Ho & Hn)].
        -- right. exists p. cbn [In]. auto.
        -- auto.
        -- right. exists q. cbn [In]. auto.
      * intros [Hl|(q & [<-|Hq] & Ho & Hn)]; [auto|auto|].
        right. exists q. auto.
Qed.

Lemma star_positions_keys (cx cy radius : Z) (stars : list CelestialBody) :
  forall (positions : PositionIndex) (name : string),
    Orbital.lookup
      (fold_left (fun planetPositions star =>
                    (EnglishName star,
                     {| pos_X := cx; pos_Y := cy; pos_Radius := radius;
                        pos_Planet := star |}) :: planetPositions)
                 stars positions) name <> None <->
    (Orbital.lookup positions name <> None \/
     exists s, In s stars /\ EnglishName s = name).
Proof.
  induction stars as [|s stars IH]; intros positions name; cbn [fold_left].
  - split; [auto|]. intros [H|(q & [] & _)]. exact H.
  - rewrite IH, lookup_cons. split.
    + intros [[Hn|Hl]|(q & Hq & Hn)].
      * right. exists s. cbn [In]. auto.
      * auto.
      * right. exists q. cbn [In]. auto.
    + intros [Hl|(q & [<-|Hq] & Hn)]; [auto|auto|].
      right. exists q. auto.
Qed.

(** The position index has an entry for a name exactly when the name is
    that of a star or of a planet that is drawn in orbit: a planet with a
    zero or negative semimajor axis contributes no entry. *)
Theorem position_index_keys
    (r : Renderer) (planets : list CelestialBody)
    (width height screenWidth screenHeight : Z) (now : Time.Time)
    (grid : Grid) (positions : PositionIndex) :
  RenderSolarSystemDataWithPositions r planets width height
    screenWidth screenHeight now = Some (grid, positions) ->
  forall name : string,
    Orbital.lookup positions name <> None <->
    exists body : CelestialBody,
      In body planets /\ EnglishName body = name /\
      (isStar body = true \/ orbiting body = true).
Proof.
  unfold RenderSolarSystemDataWithPositions.
  destruct (separateStarsAndPlanets_filter planets) as [Hsep _].
  rewrite Hsep. cbv zeta.
  destruct (renderBackground r _ _ _ width height now) as [g0|];
    [|discriminate].
  intros H name.
  rewrite (loop_positions_keys _ _ _ _ _ _ _ _ _ _ _ H name),
    star_positions_keys.
  split.
  - intros [[Hl|(s & Hs & Hn)]|(q & Hq & Ho & Hn)].
    + now contradiction Hl.
    + apply filter_In in Hs. exists s. tauto.
    + apply filter_In in Hq. exists q. tauto.
  - intros (body & Hin & Hn & Hkind).
    destruct (isStar body) eqn:Hstar.
    + left. right. exists body. split; [|exact Hn].
      apply filter_In. auto.
    + right. exists body. split; [apply filter_In; now rewrite Hstar|].
      destruct Hkind as [Hk|Hk]; [discriminate|auto].
Qed.

Lemma position_index_keys_witness :
  exists (grid : Grid) (positions : PositionIndex),
    RenderSolarSystemDataWithPositions
      (NewRendererWithDefaults 80 24 Samples.instant)
      [Samples.sirius; Samples.kepler452b; Samples.unclassified] 80 24 80 24
      Samples.instant = Some (grid, positions) /\
    Orbital.lookup positions "Sirius A" <> None.
Proof.
  destruct (render_pass_total
              (NewRendererWithDefaults 80 24 Samples.instant)
              [Samples.sirius; Samples.kepler452b; Samples.unclassified]
              80 24 Samples.instant ltac:(lia) ltac:(lia))
    as (grid & Hgrid & _).
  rewrite <- (render_pass_with_positions_grid
                (NewRendererWithDefaults 80 24 Samples.instant)) in Hgrid.
  change (r_width (NewRendererWithDefaults 80 24 Samples.instant))
    with 80 in Hgrid.
  change (r_height (NewRendererWithDefaults 80 24 Samples.instant))
    with 24 in Hgrid.
  destruct (RenderSolarSystemDataWithPositions
              (NewRendererWithDefaults 80 24 Samples.instant)
              [Samples.sirius; Samples.kepler452b; Samples.unclassified]
              80 24 80 24 Samples.instant)
    as [[grid' positions]|] eqn:Hrender; [|discriminate].
  exists grid', positions. split; [reflexivity|].
  apply (position_index_keys _ _ _ _ _ _ _ _ _ Hrender "Sirius A").
  exists Samples.sirius. split; [cbn [In]; auto|].
  split; [reflexivity|]. left. reflexivity.
Defined.

End RenderFacts.

(** ** The range of the distances *)

Module RangeFacts.

Import F64 F64Facts.
Open Scope R_scope.

(** The loop of [findDistanceRange] once a first body has been found. *)
Lemma findDistanceRange_loop_found (planets : list CelestialBody) :
  Forall (fun p => is_finite (SemimajorAxis p) = true) planets ->
  forall mn mx : R,
  0 < mn <= mx ->
  exists mn' mx' : R,
    findDistanceRange_loop planets (Fin mn) (Fin mx) false
    = (Fin mn', Fin mx', false) /\
    0 < mn' <= mn /\ mx <= mx' /\
    (forall (p : CelestialBody) (a : R),
       In p planets -> in_range_search p = true ->
       SemimajorAxis p = Fin a -> mn' <= a <= mx') /\
    (mn' = mn \/
     exists p, In p planets /\ in_range_search p = true
               /\ SemimajorAxis p = Fin mn') /\
    (mx' = mx \/
     exists p, In p planets /\ in_range_search p = true
               /\ SemimajorAxis p = Fin mx').
Proof.
  induction 1 as [|p planets Hp Hfin IH]; intros mn mx Hm.
  - exists mn, mx. cbn. repeat split; try lra; auto; intros p a [].
  - destruct (SemimajorAxis p) as [| |a] eqn:Ha; try discriminate.
    cbn [findDistanceRange_loop]. rewrite Ha.
    destruct ((EnglishName p =? "Sun")%string
              || (Fin a <=? Fin 0)%f64) eqn:Hskip.
    + destruct (IH mn mx Hm) as (mn' & mx' & Hl & H1 & H2 & H3 & H4 & H5).
      exists mn', mx'. split; [exact Hl|]. split; [exact H1|].
      split; [exact H2|]. split; [|split].
      * intros q b [<-|Hq] Hs Hb; [|eapply H3; eauto].
        unfold in_range_search in Hs. rewrite Ha, Hskip in Hs.
        discriminate.
      * destruct H4 as [H4|(q & Hq & Hs & Hb)]; [auto|].
        right. exists q. cbn [In]. auto.
      * destruct H5 as [H5|(q & Hq & Hs & Hb)]; [auto|].
        right. exists q. cbn [In]. auto.
    + assert (Hs : in_range_search p = true)
        by (unfold in_range_search; now rewrite Ha, Hskip).
      apply orb_false_iff in Hskip. destruct Hskip as [_ Hpos].
      apply le_Fin_false in Hpos. cbv zeta. unfold gt.
      destruct (IH (Rmin a mn) (Rmax a mx))
        as (mn' & mx' & Hl & H1 & H2 & H3 & H4 & H5).
      { unfold Rmin, Rmax.
        destruct (Rle_dec a mn), (Rle_dec a mx); lra. }
      exists mn', mx'.
      replace (if (Fin a <? Fin mn)%f64 then Fin a else Fin mn)
        with (Fin (Rmin a mn)).
      2:{ unfold Rmin. destruct (Rle_dec a mn) as [Hle|Hle].
          - destruct (Rlt_dec a mn) as [Hlt|Hlt].
            + replace (Fin a <? Fin mn)%f64 with true
                by (symmetry; apply lt_Fin; lra). reflexivity.
            + replace (Fin a <? Fin mn)%f64 with false
                by (symmetry; apply lt_Fin_false; lra).
              f_equal. lra.
          - replace (Fin a <? Fin mn)%f64 with false
              by (symmetry; apply lt_Fin_false; lra). reflexivity. }
      replace (if (Fin mx <? Fin a)%f64 then Fin a else Fin mx)
        with (Fin (Rmax a mx)).
      2:{ unfold Rmax. destruct (Rle_dec a mx) as [Hle|Hle].
          - replace (Fin mx <? Fin a)%f64 with false
              by (symmetry; apply lt_Fin_false; lra). reflexivity.
          - replace (Fin mx <? Fin a)%f64 with true
              by (symmetry; apply lt_Fin; lra). reflexivity. }
      split; [exact Hl|].
      pose proof (Rmin_l a mn). pose proof (Rmin_r a mn).
      pose proof (Rmax_l a mx). pose proof (Rmax_r a mx).
      split; [lra|]. split; [lra|]. split; [|split].
      * intros q b [<-|Hq] Hsq Hb; [|eapply H3; eauto].
        rewrite Ha in Hb. injection Hb as <-. lra.
      * destruct H4 as [H4|(q & Hq & Hsq & Hb)].
        -- unfold Rmin in H4. destruct (Rle_dec a mn).
           ++ right. exists p. cbn [In]. rewrite H4. auto.
           ++ auto.
        -- right. exists q. cbn [In]. auto.
      * destruct H5 as [H5|(q & Hq & Hsq & Hb)].
        -- unfold Rmax in H5. destruct (Rle_dec a mx).
           ++ auto.
           ++ right. exists p. cbn [In]. rewrite H5. auto.
        -- right. exists q. cbn [In]. auto.
Qed.

(** The loop of [findDistanceRange] from its start. *)
Lemma findDistanceRange_loop_start (planets : list CelestialBody) :
  Forall (fun p => is_finite (SemimajorAxis p) = true) planets ->
  forall m0 m1 : float64,
  (Forall (fun p => in_range_search p = false) planets /\
   findDistanceRange_loop planets m0 m1 true = (m0, m1, true)) \/
  (exists mn mx : R,
     findDistanceRange_loop planets m0 m1 true = (Fin mn, Fin mx, false) /\
     0 < mn <= mx /\
     (forall (p : CelestialBody) (a : R),
        In p planets -> in_range_search p = true ->
        SemimajorAxis p = Fin a -> mn <= a <= mx) /\
     (exists p, In p planets /\ in_range_search p = true
                /\ SemimajorAxis p = Fin mn) /\
     (exists p, In p planets /\ in_range_search p = true
                /\ SemimajorAxis p = Fin mx)).
Proof.
  induction 1 as [|p planets Hp Hfin IH]; intros m0 m1.
  - left. split; [constructor|reflexivity].
  - destruct (SemimajorAxis p) as [| |a] eqn:Ha; try discriminate.
    cbn [findDistanceRange_loop]. rewrite Ha.
    destruct ((EnglishName p =? "Sun")%string
              || (Fin a <=? Fin 0)%f64) eqn:Hskip.
    + assert (Hs : in_range_search p = false)
        by (unfold in_range_search; now rewrite Ha, Hskip).
      destruct (IH m0 m1) as [[Hnone Hl]|(mn & mx & Hl & H1 & H2 & H3 & H4)].
      * left. split; [now constructor|exact Hl].
      * right. exists mn, mx. split; [exact Hl|]. split; [exact H1|].
        split; [|split].
        -- intros q b [<-|Hq] Hsq Hb; [congruence|eapply H2; eauto].
        -- destruct H3 as (q & Hq & Hsq & Hb). exists q. cbn [In]. auto.
        -- destruct H4 as (q & Hq & Hsq & Hb). exists q. cbn [In]. auto.
    + right.
      assert (Hs : in_range_search p = true)
        by (unfold in_range_search; now rewrite Ha, Hskip).
      apply orb_false_iff in Hskip. destruct Hskip as [_ Hpos].
      apply le_Fin_false in Hpos.
      destruct (findDistanceRange_loop_found planets Hfin a a ltac:(lra))
        as (mn & mx & Hl & H1 & H2 & H3 & H4 & H5).
      exists mn, mx. split; [exact Hl|]. split; [lra|]. split; [|split].
      * intros q b [<-|Hq] Hsq Hb; [|eapply H3; eauto].
        rewrite Ha in Hb. injection Hb as <-. lra.
      * destruct H4 as [->|(q & Hq & Hsq & Hb)].
        -- exists p. cbn [In]. auto.
        -- exists q. cbn [In]. auto.
      * destruct H5 as [->|(q & Hq & Hsq & Hb)].
        -- exists p. cbn [In]. auto.
        -- exists q. cbn [In]. auto.
Qed.

(** The range of the distances is the default range 1..100 when no body
    counts (no body at all, or only bodies named Sun or of an axis
    [<= 0]); otherwise, on bodies whose axes are numbers, it is the least
    and the greatest axis of the bodies that count: two positive numbers,
    each the axis of such a body, with every such axis between them. *)
Theorem findDistanceRange_bounds (planets : list CelestialBody) :
  Forall (fun p => is_finite (SemimajorAxis p) = true) planets ->
  (Forall (fun p => in_range_search p = false) planets /\
   findDistanceRange planets = (Fin 1, Fin 100)) \/
  (exists mn mx : R,
     findDistanceRange planets = (Fin mn, Fin mx) /\
     0 < mn <= mx /\
     (forall (p : CelestialBody) (a : R),
        In p planets -> in_range_search p = true ->
        SemimajorAxis p = Fin a -> mn <= a <= mx) /\
     (exists p, In p planets /\ in_range_search p = true
                /\ SemimajorAxis p = Fin mn) /\
     (exists p, In p planets /\ in_range_search p = true
                /\ SemimajorAxis p = Fin mx)).
Proof.
  intros Hfin. unfold findDistanceRange.
  destruct planets as [|p planets]; [left; split; [constructor|reflexivity]|].
  destruct (findDistanceRange_loop_start (p :: planets) Hfin (Fin 0) (Fin 0))
    as [[Hnone ->]|(mn & mx & -> & H)].
  - left. split; [exact Hnone|reflexivity].
  - right. exists mn, mx. split; [reflexivity|exact H].
Qed.

Lemma findDistanceRange_bounds_witness :
  Forall (fun p => is_finite (SemimajorAxis p) = true)
    [Samples.inner; Samples.outer] /\
  ((Forall (fun p => in_range_search p = false)
      [Samples.inner; Samples.outer] /\
    findDistanceRange [Samples.inner; Samples.outer] = (Fin 1, Fin 100)) \/
   exists mn mx : R,
     findDistanceRange [Samples.inner; Samples.outer] = (Fin mn, Fin mx) /\
     0 < mn <= mx).
Proof.
  assert (H : Forall (fun p => is_finite (SemimajorAxis p) = true)
                [Samples.inner; Samples.outer])
    by (repeat constructor).
  split; [exact H|].
  destruct (findDistanceRange_bounds [Samples.inner; Samples.outer] H)
    as [Hd|(mn & mx & Hr & Hb & _)].
  - left. exact Hd.
  - right. exists mn, mx. split; [exact Hr|exact Hb].
Defined.

End RangeFacts.

(** ** The selection of a star system *)

Module ModalFacts.

Open Scope Z_scope.

Lemma wrap64_id (z : Z) :
  Int.min_int <= z <= Int.max_int -> Int.wrap64 z = z.
Proof.
  unfold Int.wrap64, Int.min_int, Int.max_int. intros H.
  rewrite Z.mod_small; lia.
Qed.

Lemma NewSystemModal_in_window (screenWidth : Z) (info : list string) :
  selection_in_window info (NewSystemModal screenWidth info).
Proof.
  unfold selection_in_window; cbn. repeat split; lia.
Qed.

Lemma HandleNavigation_in_window (info : list string) (sm : SystemModal)
    (key : Key) :
  len info < 2 ^ 62 ->
  selection_in_window info sm ->
  selection_in_window info (HandleNavigation sm key).
Proof.
  intros Hlen (Hinfo & Hh & Hy & Hs & Hw & Hl).
  assert (Hlen0 : 0 <= len info) by (unfold len; lia).
  destruct key; cbn [HandleNavigation]; [| |repeat split; auto; lia].
  - destruct (sm_selectedIndex sm >? 0) eqn:E;
      [|repeat split; auto; lia].
    apply Z.gtb_lt in E. unfold Int.sub.
    rewrite wrap64_id by (unfold Int.min_int, Int.max_int; lia).
    unfold selection_in_window; cbn.
    destruct (sm_selectedIndex sm - 1 <? sm_scrollIndex sm) eqn:E1;
      [apply Z.ltb_lt in E1|apply Z.ltb_ge in E1];
      repeat split; auto; lia.
  - rewrite Hinfo, Hh. unfold Int.sub, Int.add.
    rewrite (wrap64_id (len info - 1))
      by (unfold Int.min_int, Int.max_int; lia).
    destruct (sm_selectedIndex sm <? len info - 1) eqn:E;
      [|repeat split; auto; lia].
    apply Z.ltb_lt in E.
    rewrite (wrap64_id (20 - 6)) by now vm_compute.
    rewrite (wrap64_id (sm_selectedIndex sm + 1))
      by (unfold Int.min_int, Int.max_int; lia).
    rewrite (wrap64_id (sm_scrollIndex sm + (20 - 6)))
      by (unfold Int.min_int, Int.max_int; lia).
    rewrite (wrap64_id (sm_selectedIndex sm + 1 - (20 - 6)))
      by (unfold Int.min_int, Int.max_int; lia).
    rewrite (wrap64_id (sm_selectedIndex sm + 1 - (20 - 6) + 1))
      by (unfold Int.min_int, Int.max_int; lia).
    change (20 - 6) with 14. unfold selection_in_window; cbn.
    destruct (sm_selectedIndex sm + 1 >=? sm_scrollIndex sm + 14)
      eqn:E1; [apply Z.geb_le in E1|rewrite Z.geb_leb in E1;
                                     apply Z.leb_gt in E1];
      repeat split; auto; lia.
Qed.

Lemma navigation_in_window (info : list string) (keys : list Key) :
  len info < 2 ^ 62 ->
  forall sm : SystemModal,
  selection_in_window info sm ->
  selection_in_window info (fold_left HandleNavigation keys sm).
Proof.
  intros Hlen. induction keys as [|key keys IH]; intros sm Hsm; [exact Hsm|].
  cbn [fold_left]. apply IH. now apply HandleNavigation_in_window.
Qed.

(** Whatever keys are pressed after the modal is opened, the selected
    index stays an index of the list (0 on an empty list) and stays
    inside the window of 14 lines that starts at the scroll index, which
    is never negative. *)
Theorem navigation_keeps_selection_visible
    (screenWidth : Z) (info : list string) (keys : list Key) :
  len info < 2 ^ 62 ->
  let sm := fold_left HandleNavigation keys (NewSystemModal screenWidth info)
  in
  sm_systemInfo sm = info /\
  0 <= sm_scrollIndex sm <= sm_selectedIndex sm /\
  sm_selectedIndex sm < sm_scrollIndex sm + 14 /\
  (info <> [] -> sm_selectedIndex sm < len info) /\
  (info = [] -> sm_selectedIndex sm = 0).
Proof.
  intros Hlen sm.
  destruct (navigation_in_window info keys Hlen _
              (NewSystemModal_in_window screenWidth info))
    as (Hinfo & _ & _ & Hs & Hw & Hl).
  fold sm in Hinfo, Hs, Hw, Hl.
  split; [exact Hinfo|]. split; [exact Hs|]. split; [exact Hw|].
  split.
  - intros Hne. destruct info as [|a info]; [congruence|].
    unfold len in *. cbn [List.length] in *. lia.
  - intros ->. cbn in Hl. lia.
Qed.

Lemma navigation_keeps_selection_visible_witness :
  len ["Sol"; "Kepler-452"; "TRAPPIST-1"] < 2 ^ 62 /\
  sm_selectedIndex
    (fold_left HandleNavigation [KeyDown; KeyDown; KeyDown; KeyUp]
       (NewSystemModal 120 ["Sol"; "Kepler-452"; "TRAPPIST-1"]))
  < len ["Sol"; "Kepler-452"; "TRAPPIST-1"].
Proof.
  assert (H : len ["Sol"; "Kepler-452"; "TRAPPIST-1"] < 2 ^ 62)
    by now vm_compute.
  split; [exact H|].
  destruct (navigation_keeps_selection_visible 120
              ["Sol"; "Kepler-452"; "TRAPPIST-1"]
              [KeyDown; KeyDown; KeyDown; KeyUp] H)
    as (_ & _ & _ & Hsel & _).
  apply Hsel. discriminate.
Defined.

(** The lines that the loop of [renderSystemList] draws from the round
    [i] on. *)
Lemma renderSystemList_loop_lines (info : list string) (sm : SystemModal) :
  len info < 2 ^ 62 ->
  selection_in_window info sm ->
  forall (rounds : nat) (i : Z),
  0 <= i -> i + Z.of_nat rounds = 14 ->
  exists lines : list DrawnLine,
    renderSystemList_loop sm rounds i = Some lines /\
    forall l : DrawnLine,
      In l lines <->
      exists (j : Z) (text : string),
        i <= j < 14 /\ j + sm_scrollIndex sm < len info /\
        index info (j + sm_scrollIndex sm) = Some text /\
        l = {| dl_x := Int.add (sm_x sm) 2;
               dl_y := 4 + j;
               dl_highlight := (j + sm_scrollIndex sm =? sm_selectedIndex sm);
               dl_text := text |}.
Proof.
  intros Hlen (Hinfo & Hh & Hy & Hs & Hw & Hl).
  assert (Hlen0 : 0 <= len info) by (unfold len; lia).
  induction rounds as [|rounds IH]; intros i Hi Hn.
  - exists []. split; [reflexivity|]. intros l. split; [intros []|].
    intros (j & text & Hj & _). lia.
  - cbn [renderSystemList_loop]. rewrite Hinfo, Hh, Hy.
    unfold Int.sub at 1. rewrite (wrap64_id (20 - 6)) by now vm_compute.
    replace (i <? 20 - 6) with true by (symmetry; apply Z.ltb_lt; lia).
    cbn [andb].
    assert (Hmax : sm_scrollIndex sm <= len info) by lia.
    assert (Ha : Int.add i (sm_scrollIndex sm) = i + sm_scrollIndex sm)
      by (apply wrap64_id; unfold Int.min_int, Int.max_int; lia).
    assert (Hb : Int.add i 1 = i + 1)
      by (apply wrap64_id; unfold Int.min_int, Int.max_int; lia).
    assert (Hc : Int.add (Int.add 1 3) i = 4 + i)
      by (change (Int.add 1 3) with 4; apply wrap64_id;
          unfold Int.min_int, Int.max_int; lia).
    rewrite !Ha, Hb, Hc.
    destruct (i + sm_scrollIndex sm <? len info) eqn:E.
    + apply Z.ltb_lt in E.
      destruct (GridFacts.index_in_range info (i + sm_scrollIndex sm) ltac:(lia))
        as [text Htext].
      rewrite Htext.
      destruct (IH (i + 1) ltac:(lia) ltac:(lia)) as (rest & -> & Hrest).
      eexists. split; [reflexivity|].
      intros l. cbn [In]. rewrite Hrest. split.
      * intros [<-|(j & t & Hj & Hjl & Ht & ->)].
        -- exists i, text. repeat split; try lia; auto.
        -- exists j, t. repeat split; try lia; auto.
      * intros (j & t & Hj & Hjl & Ht & ->).
        destruct (Z.eq_dec j i) as [->|Hne].
        -- left. rewrite Htext in Ht. injection Ht as <-. reflexivity.
        -- right. exists j, t. repeat split; try lia; auto.
    + apply Z.ltb_ge in E. exists []. split; [reflexivity|].
      intros l. split; [intros []|].
      intros (j & text & Hj & Hjl & _). lia.
Qed.

(** On a list that is not empty, whatever keys were pressed since the
    modal was opened, [renderSystemList] draws without a panic, draws the
    selected entry highlighted, and highlights no line of another
    index: the highlighted lines are those of the row of the selection. *)
Theorem renderSystemList_highlights_selection
    (screenWidth : Z) (info : list string) (keys : list Key) :
  len info < 2 ^ 62 -> info <> [] ->
  let sm := fold_left HandleNavigation keys (NewSystemModal screenWidth info)
  in
  exists (lines : list DrawnLine) (selected : string),
    renderSystemList sm = Some lines /\
    index info (sm_selectedIndex sm) = Some selected /\
    In {| dl_x := Int.add (sm_x sm) 2;
          dl_y := 4 + (sm_selectedIndex sm - sm_scrollIndex sm);
          dl_highlight := true;
          dl_text := selected |} lines /\
    forall l : DrawnLine,
      In l lines ->
      (dl_highlight l = true <->
       dl_y l = 4 + (sm_selectedIndex sm - sm_scrollIndex sm)) /\
      (dl_highlight l = true -> dl_text l = selected).
Proof.
  intros Hlen Hne sm.
  pose proof (navigation_in_window info keys Hlen _
                (NewSystemModal_in_window screenWidth info)) as Hwin.
  fold sm in Hwin.
  pose proof Hwin as (Hinfo & Hh & Hy & Hs & Hw & Hl).
  assert (Hsel : sm_selectedIndex sm < len info).
  { destruct info as [|a info]; [congruence|].
    unfold len in *. cbn [List.length] in *. lia. }
  destruct (GridFacts.index_in_range info (sm_selectedIndex sm) ltac:(lia))
    as [selected Hselected].
  destruct (renderSystemList_loop_lines info sm Hlen Hwin 14%nat 0
              ltac:(lia) ltac:(lia)) as (lines & Hlines & Hin).
  exists lines, selected.
  split.
  { unfold renderSystemList. rewrite Hh. exact Hlines. }
  split; [exact Hselected|]. split.
  - apply Hin.
    exists (sm_selectedIndex sm - sm_scrollIndex sm), selected.
    replace (sm_selectedIndex sm - sm_scrollIndex sm + sm_scrollIndex sm)
      with (sm_selectedIndex sm) by lia.
    rewrite Z.eqb_refl. repeat split; try lia; auto.
  - intros l Hl'. apply Hin in Hl'.
    destruct Hl' as (j & t & Hj & Hjl & Ht & ->).
    cbn [dl_highlight dl_y dl_text]. split.
    + split; [intros E; apply Z.eqb_eq in E; lia|].
      intros E. apply Z.eqb_eq. lia.
    + intros E. apply Z.eqb_eq in E. rewrite E in Ht. congruence.
Qed.

Lemma renderSystemList_highlights_selection_witness :
  len ["Sol"; "Kepler-452"; "TRAPPIST-1"] < 2 ^ 62 /\
  ["Sol"; "Kepler-452"; "TRAPPIST-1"] <> [] /\
  exists (lines : list DrawnLine) (selected : string),
    renderSystemList
      (fold_left HandleNavigation [KeyDown; KeyDown; KeyDown; KeyUp]
         (NewSystemModal 120 ["Sol"; "Kepler-452"; "TRAPPIST-1"]))
    = Some lines /\
    index ["Sol"; "Kepler-452"; "TRAPPIST-1"]
      (sm_selectedIndex
         (fold_left HandleNavigation [KeyDown; KeyDown; KeyDown; KeyUp]
            (NewSystemModal 120 ["Sol"; "Kepler-452"; "TRAPPIST-1"])))
    = Some selected.
Proof.
  assert (H : len ["Sol"; "Kepler-452"; "TRAPPIST-1"] < 2 ^ 62)
    by now vm_compute.
  assert (Hne : ["Sol"; "Kepler-452"; "TRAPPIST-1"] <> [])
    by discriminate.
  split; [exact H|]. split; [exact Hne|].
  destruct (renderSystemList_highlights_selection 120
              ["Sol"; "Kepler-452"; "TRAPPIST-1"]
              [KeyDown; KeyDown; KeyDown; KeyUp] H Hne)
    as (lines & selected & Hr & Hi & _).
  exists lines, selected. split; [exact Hr|exact Hi].
Defined.

(** When the list of the available systems is as long as the list shown,
    [GetSelectedSystem] returns, after any keys, the available system at
    the selected index, without a panic; on a shorter list it returns the
    empty string once the selection is past its end. *)
Theorem GetSelectedSystem_after_navigation
    (screenWidth : Z) (info available : list string) (keys : list Key) :
  len info < 2 ^ 62 ->
  let sm := fold_left HandleNavigation keys (NewSystemModal screenWidth info)
  in
  (len available <= sm_selectedIndex sm ->
   GetSelectedSystem sm available = Some ""%string) /\
  (sm_selectedIndex sm < len available ->
   exists name : string,
     GetSelectedSystem sm available = Some name /\
     nth_error available (Z.to_nat (sm_selectedIndex sm)) = Some name).
Proof.
  intros Hlen sm.
  pose proof (navigation_in_window info keys Hlen _
                (NewSystemModal_in_window screenWidth info)) as Hwin.
  fold sm in Hwin. destruct Hwin as (_ & _ & _ & Hs & _ & _).
  unfold GetSelectedSystem. split; intros H.
  - replace (sm_selectedIndex sm <? len available) with false
      by (symmetry; apply Z.ltb_ge; lia). reflexivity.
  - replace (sm_selectedIndex sm <? len available) with true
      by (symmetry; apply Z.ltb_lt; lia).
    destruct (GridFacts.index_in_range available (sm_selectedIndex sm) ltac:(lia))
      as [name Hname].
    exists name. split; [exact Hname|].
    unfold index in Hname.
    destruct (sm_selectedIndex sm <? 0); [discriminate|exact Hname].
Qed.

Lemma GetSelectedSystem_after_navigation_witness :
  len ["Sol"; "Kepler-452"; "TRAPPIST-1"] < 2 ^ 62 /\
  GetSelectedSystem
    (fold_left HandleNavigation [KeyDown; KeyDown; KeyDown; KeyUp]
       (NewSystemModal 120 ["Sol"; "Kepler-452"; "TRAPPIST-1"]))
    [] = Some ""%string.
Proof.
  assert (H : len ["Sol"; "Kepler-452"; "TRAPPIST-1"] < 2 ^ 62)
    by now vm_compute.
  split; [exact H|].
  destruct (GetSelectedSystem_after_navigation 120
              ["Sol"; "Kepler-452"; "TRAPPIST-1"] []
              [KeyDown; KeyDown; KeyDown; KeyUp] H) as [Hpast _].
  apply Hpast. now vm_compute.
Defined.

End ModalFacts.

(** ** The planets that bound the debris belts *)

Module BeltFacts.

Import F64.

Lemma find_last {A : Type} (f : A -> bool) (l : list A) (a : A) :
  find f (l ++ [a])
  = match find f l with
    | Some x => Some x
    | None => if f a then Some a else None
    end.
Proof.
  induction l as [|b l IH]; cbn; [reflexivity|].
  destruct (f b); [reflexivity|exact IH].
Qed.

Lemma named_not_Sun (planet : CelestialBody) (name : string) :
  name <> "Sun" ->
  (EnglishName planet =? name) && negb (EnglishName planet =? "Sun")
  = (EnglishName planet =? name).
Proof.
  intros Hname. destruct (EnglishName planet =? name) eqn:E; [|reflexivity].
  apply String.eqb_eq in E. rewrite E.
  destruct (name =? "Sun") eqn:E'; [|reflexivity].
  apply String.eqb_eq in E'. congruence.
Qed.

Lemma findPlanetDistances_loop_last (planets : list CelestialBody)
    (planet1 planet2 : string) :
  planet1 <> "Sun" -> planet2 <> "Sun" ->
  forall dist1 dist2 : float64,
  findPlanetDistances_loop planets planet1 planet2 dist1 dist2
  = (match find (fun q => EnglishName q =? planet1) (rev planets) with
     | Some q => SemimajorAxis q
     | None => dist1
     end,
     match find (fun q => EnglishName q =? planet2) (rev planets) with
     | Some q => SemimajorAxis q
     | None => dist2
     end).
Proof.
  intros H1 H2.
  induction planets as [|p planets IH]; intros dist1 dist2; [reflexivity|].
  cbn [findPlanetDistances_loop rev]. cbv zeta.
  rewrite IH, !find_last, !named_not_Sun by assumption.
  destruct (find (fun q => EnglishName q =? planet1) (rev planets)),
           (find (fun q => EnglishName q =? planet2) (rev planets)),
           (EnglishName p =? planet1), (EnglishName p =? planet2);
    reflexivity.
Qed.

(** [findPlanetDistances] gives, for each of the two names (neither being
    Sun), the semimajor axis of the last body of that name; when there is
    no such body, or when that axis equals 0, it gives the default of the
    name: 1.5 for Mars, 5.2 for Jupiter, 30 for Neptune, 0 for any other
    name. *)
Theorem findPlanetDistances_last_match
    (planets : list CelestialBody) (planet1 planet2 : string) :
  planet1 <> "Sun" -> planet2 <> "Sun" ->
  let pick (name : string) : float64 :=
    match find (fun q => EnglishName q =? name) (rev planets) with
    | Some q =>
        if (SemimajorAxis q =? Fin 0)%f64
        then default_of belt_defaults name else SemimajorAxis q
    | None => default_of belt_defaults name
    end in
  findPlanetDistances planets planet1 planet2 = (pick planet1, pick planet2).
Proof.
  intros H1 H2 pick. unfold findPlanetDistances.
  rewrite (findPlanetDistances_loop_last planets planet1 planet2 H1 H2).
  unfold pick.
  destruct (find (fun q => EnglishName q =? planet1) (rev planets)),
           (find (fun q => EnglishName q =? planet2) (rev planets));
    try reflexivity.
  - replace (Fin 0 =? Fin 0)%f64 with true; [reflexivity|].
    symmetry. unfold F64.eq. F64Facts.rdec.
  - replace (Fin 0 =? Fin 0)%f64 with true; [reflexivity|].
    symmetry. unfold F64.eq. F64Facts.rdec.
  - replace (Fin 0 =? Fin 0)%f64 with true; [reflexivity|].
    symmetry. unfold F64.eq. F64Facts.rdec.
Qed.

Lemma findPlanetDistances_last_match_witness :
  "Mars" <> "Sun" /\ "Jupiter" <> "Sun" /\
  findPlanetDistances [Samples.planet "Mars" 1.52 687;
                       Samples.planet "Mars" 2 700] "Mars" "Jupiter"
  = (Fin 2, Fin 5.2).
Proof.
  assert (H1 : "Mars" <> "Sun") by discriminate.
  assert (H2 : "Jupiter" <> "Sun") by discriminate.
  split; [exact H1|]. split; [exact H2|].
  rewrite (findPlanetDistances_last_match _ "Mars" "Jupiter" H1 H2).
  cbn [rev app find Samples.planet EnglishName SemimajorAxis String.eqb
       Ascii.eqb Bool.eqb default_of belt_defaults Orbital.lookup].
  replace (Fin 2 =? Fin 0)%f64 with false; [reflexivity|].
  symmetry. unfold F64.eq. F64Facts.rdec.
Defined.

(** [findPlanetDistance] gives the semimajor axis of the first body of
    the name, whatever that axis is (also 0 or not a number); when no
    body has the name it gives 30 for Neptune and 0 for any other name.
    A body named Sun is never found. *)
Theorem findPlanetDistance_first_match
    (planets : list CelestialBody) (planetName : string) :
  findPlanetDistance planets "Sun" = Fin 0 /\
  (planetName <> "Sun" ->
   findPlanetDistance planets planetName
   = match find (fun q => EnglishName q =? planetName) planets with
     | Some q => SemimajorAxis q
     | None => if planetName =? "Neptune" then Fin 30.0 else Fin 0
     end).
Proof.
  split.
  - induction planets as [|p planets IH]; [reflexivity|].
    cbn [findPlanetDistance]. destruct (EnglishName p =? "Sun"); exact IH.
  - intros Hname. induction planets as [|p planets IH].
    + cbn [findPlanetDistance find]. unfold default_of.
      cbn [Orbital.lookup]. rewrite String.eqb_sym.
      destruct (planetName =? "Neptune"); reflexivity.
    + cbn [findPlanetDistance find]. rewrite named_not_Sun by assumption.
      destruct (EnglishName p =? planetName); [reflexivity|exact IH].
Qed.

Lemma findPlanetDistance_first_match_witness :
  "Neptune" <> "Sun" /\
  findPlanetDistance [Samples.planet "Neptune" 0 60190;
                      Samples.planet "Neptune" 30.07 60190] "Neptune"
  = Fin 0.
Proof.
  assert (H : "Neptune" <> "Sun") by discriminate.
  split; [exact H|].
  destruct (findPlanetDistance_first_match
              [Samples.planet "Neptune" 0 60190;
               Samples.planet "Neptune" 30.07 60190] "Neptune") as [_ Hf].
  rewrite (Hf H). reflexivity.
Defined.

End BeltFacts.

(** ** The radii that the scaling produces *)

Module ScaleFacts.

Import F64 F64Facts.
Open Scope R_scope.



End ScaleFacts.
